(** * PDL: phase lifecycle and event coordination

    A shallow embedding of the two executable parts of the repository:

    - [mcp-server/src/db/database.js] and the tool handlers of
      [mcp-server/src/server.js] (modules [Db] and [Server]): the SQLite
      tables as lists of rows, every statement as a function on the tables;
    - the browser-side [PDLFramework] class (module [Framework]): its fields
      as a record, its methods in a small state-and-exception monad.

    JavaScript strings are sequences of UTF-16 code units, and every length
    the code measures ([substring], the 60-character brief) counts code
    units, so strings are [list N] here and not byte strings. *)

From Stdlib Require Import ZArith NArith List String Ascii Lia.
From Stdlib Require DecimalPos.
From stdpp Require Import base option list numbers countable sorting gmap.

Set Warnings "-register-all".
Local Open Scope Z_scope.

(** ** JavaScript values *)

Module JS.

Definition jsstring := list N.

(** An ASCII literal of the source as code units. *)
Definition lit (s : string) : jsstring :=
  map N_of_ascii (list_ascii_of_string s).

(** U+2192, the arrow of the brief templates: one code unit. *)
Definition arrow : jsstring := [8594%N].

Fixpoint digits (u : Decimal.uint) : jsstring :=
  match u with
  | Decimal.Nil => []
  | Decimal.D0 u => 48%N :: digits u
  | Decimal.D1 u => 49%N :: digits u
  | Decimal.D2 u => 50%N :: digits u
  | Decimal.D3 u => 51%N :: digits u
  | Decimal.D4 u => 52%N :: digits u
  | Decimal.D5 u => 53%N :: digits u
  | Decimal.D6 u => 54%N :: digits u
  | Decimal.D7 u => 55%N :: digits u
  | Decimal.D8 u => 56%N :: digits u
  | Decimal.D9 u => 57%N :: digits u
  end.

(** [String(n)] for an integral number. *)
Definition decimal (z : Z) : jsstring :=
  match z with
  | Z0 => [48%N]
  | Zpos p => digits (Pos.to_uint p)
  | Zneg p => 45%N :: digits (Pos.to_uint p)
  end.

(** Plain data as it travels in event payloads and tool arguments.  Numbers
    are the integral ones (no fractions, NaN or infinities).  Arrays and
    objects carry the identity of the heap object ([ref]): JavaScript
    compares them by reference.  The [fields] of an object are its own
    enumerable properties in enumeration order. *)
Inductive JSValue :=
  | JUndefined
  | JNull
  | JBool (b : bool)
  | JNum (n : Z)
  | JStr (s : jsstring)
  | JArr (ref : nat) (items : list JSValue)
  | JObj (ref : nat) (fields : list (jsstring * JSValue)).

Inductive Error :=
  | TypeError (msg : string)
  | SyntaxError (msg : string)
  | Thrown (v : JSValue).

(** How a call ends: it returns a value or throws. *)
Inductive Completion (A : Type) :=
  | Normal (a : A)
  | Throw (e : Error).
Arguments Normal {A} a.
Arguments Throw {A} e.

Definition jsstring_eqb (a b : jsstring) : bool := bool_decide (a = b).

Fixpoint lookup_field (k : jsstring) (fs : list (jsstring * JSValue)) : option JSValue :=
  match fs with
  | [] => None
  | (k', v) :: fs' => if jsstring_eqb k k' then Some v else lookup_field k fs'
  end.

(** [v.k] for the payload field names the source reads ([from], [to],
    [agent], [role], [summary], [topic], [conclusion], [gate], [status]):
    none of them is a property of a primitive wrapper or of
    [Array.prototype], so only an object can answer with something else than
    [undefined]; reading a property of [undefined] or [null] throws. *)
Definition getProp (v : JSValue) (k : jsstring) : Completion JSValue :=
  match v with
  | JUndefined => Throw (TypeError "Cannot read properties of undefined")
  | JNull => Throw (TypeError "Cannot read properties of null")
  | JObj _ fs => Normal (default JUndefined (lookup_field k fs))
  | _ => Normal JUndefined
  end.

(** [a === b] as [Set] and [Map] see it (SameValueZero). *)
Definition sameValueZero (a b : JSValue) : bool :=
  match a, b with
  | JUndefined, JUndefined => true
  | JNull, JNull => true
  | JBool x, JBool y => bool_decide (x = y)
  | JNum x, JNum y => bool_decide (x = y)
  | JStr x, JStr y => jsstring_eqb x y
  | JArr r _, JArr r' _ => bool_decide (r = r')
  | JObj r _, JObj r' _ => bool_decide (r = r')
  | _, _ => false
  end.

Definition join (sep : jsstring) (parts : list jsstring) : jsstring :=
  match parts with
  | [] => []
  | p :: ps => p ++ concat (map (fun q => sep ++ q) ps)
  end.

(** The string conversion of a template literal, [`${v}`].  A plain object
    prints as [[object Object]]; one that shadows [toString] or [valueOf]
    with data (the only thing a [JSValue] can hold) cannot be converted and
    the conversion throws, which is [None] here.  Array elements
    [undefined] and [null] print as the empty string ([Array.prototype.join]). *)
Fixpoint toString (v : JSValue) : option jsstring :=
  match v with
  | JUndefined => Some (lit "undefined")
  | JNull => Some (lit "null")
  | JBool true => Some (lit "true")
  | JBool false => Some (lit "false")
  | JNum n => Some (decimal n)
  | JStr s => Some s
  | JArr _ items =>
      let fix elems (l : list JSValue) : option (list jsstring) :=
        match l with
        | [] => Some []
        | x :: l' =>
            match (match x with
                   | JUndefined | JNull => Some []
                   | _ => toString x
                   end), elems l' with
            | Some s, Some ss => Some (s :: ss)
            | _, _ => None
            end
        end in
      match elems items with
      | Some ss => Some (join (lit ",") ss)
      | None => None
      end
  | JObj _ fs =>
      match lookup_field (lit "toString") fs with
      | Some _ => None
      | None =>
          match lookup_field (lit "valueOf") fs with
          | Some _ => None
          | None => Some (lit "[object Object]")
          end
      end
  end.

Definition template (v : JSValue) : Completion jsstring :=
  match toString v with
  | Some s => Normal s
  | None => Throw (TypeError "Cannot convert object to primitive value")
  end.

Definition hexdigit (n : N) : N :=
  (if n <? 10 then 48 + n else 87 + n)%N.

(** [\uXXXX] with lower-case hexadecimal digits. *)
Definition unicode_escape (c : N) : jsstring :=
  [92; 117; hexdigit (c / 4096 mod 16); hexdigit (c / 256 mod 16);
   hexdigit (c / 16 mod 16); hexdigit (c mod 16)]%N.

Definition is_high_surrogate (c : N) : bool := ((55296 <=? c) && (c <=? 56319))%N.
Definition is_low_surrogate (c : N) : bool := ((56320 <=? c) && (c <=? 57343))%N.

(** The characters between the quotes of [JSON.stringify(s)]. *)
Fixpoint quote_chars (s : jsstring) : jsstring :=
  match s with
  | [] => []
  | c :: rest =>
      if (c =? 34)%N then [92; 34]%N ++ quote_chars rest
      else if (c =? 92)%N then lit "\\" ++ quote_chars rest
      else if (c =? 8)%N then lit "\b" ++ quote_chars rest
      else if (c =? 9)%N then lit "\t" ++ quote_chars rest
      else if (c =? 10)%N then lit "\n" ++ quote_chars rest
      else if (c =? 12)%N then lit "\f" ++ quote_chars rest
      else if (c =? 13)%N then lit "\r" ++ quote_chars rest
      else if (c <? 32)%N then unicode_escape c ++ quote_chars rest
      else if is_high_surrogate c then
        match rest with
        | c' :: rest' =>
            if is_low_surrogate c' then c :: c' :: quote_chars rest'
            else unicode_escape c ++ quote_chars rest
        | [] => unicode_escape c
        end
      else if is_low_surrogate c then unicode_escape c ++ quote_chars rest
      else c :: quote_chars rest
  end.

Definition quote (s : jsstring) : jsstring := [34%N] ++ quote_chars s ++ [34%N].

(** [JSON.stringify(v)] without indentation.  [None] is the result
    [undefined] (not a string), which only [undefined] itself yields here.
    In an object a property whose value is [undefined] is left out, in an
    array it is written [null]. *)
Fixpoint stringify (v : JSValue) : option jsstring :=
  match v with
  | JUndefined => None
  | JNull => Some (lit "null")
  | JBool true => Some (lit "true")
  | JBool false => Some (lit "false")
  | JNum n => Some (decimal n)
  | JStr s => Some (quote s)
  | JArr _ items =>
      let fix elems (l : list JSValue) : list jsstring :=
        match l with
        | [] => []
        | x :: l' => default (lit "null") (stringify x) :: elems l'
        end in
      Some (lit "[" ++ join (lit ",") (elems items) ++ lit "]")
  | JObj _ fs =>
      let fix members (l : list (jsstring * JSValue)) : list jsstring :=
        match l with
        | [] => []
        | (k, x) :: l' =>
            match stringify x with
            | Some s => (quote k ++ lit ":" ++ s) :: members l'
            | None => members l'
            end
        end in
      Some (lit "{" ++ join (lit ",") (members fs) ++ lit "}")
  end.

(** [a || b] on an optional string: [undefined] and the empty string are falsy. *)
Definition or_else (a : option jsstring) (b : jsstring) : jsstring :=
  match a with
  | Some (c :: s) => c :: s
  | _ => b
  end.

(** [x || null] *)
Definition or_null (x : option jsstring) : option jsstring :=
  match x with
  | Some (c :: s) => Some (c :: s)
  | _ => None
  end.

(** [v] where a condition is expected. *)
Definition truthy (v : JSValue) : bool :=
  match v with
  | JUndefined | JNull | JBool false | JNum 0 | JStr [] => false
  | _ => true
  end.

(** [s.substring(0, n)]. *)
Definition substring0 (n : nat) (s : jsstring) : jsstring := take n s.

End JS.

(** ** The persistence layer ([mcp-server/src/db/schema.sql], [database.js]) *)

Module Db.
Import JS.

(** A row of [phases]; a nullable column is an [option]. *)
Record PhaseRow := {
  ph_id : jsstring;
  ph_project_id : jsstring;
  ph_name : jsstring;
  ph_display_name : option jsstring;
  ph_start_date : option jsstring;
  ph_end_date : option jsstring;
  ph_planned_end_date : option jsstring;
  ph_status : option jsstring;
  ph_progress : Z;
  ph_gate_approved : bool;
  ph_gate_review_date : option jsstring;
  ph_gate_reviewer : option jsstring;
  ph_gate_notes : option jsstring;
  ph_created_at : option jsstring;
  ph_updated_at : option jsstring
}.

(** A row of [events]. *)
Record EventRow := {
  ev_id : jsstring;
  ev_project_id : jsstring;
  ev_type : jsstring;
  ev_subtype : option jsstring;
  ev_phase_id : option jsstring;
  ev_agent_id : option jsstring;
  ev_sprint_id : option jsstring;
  ev_timestamp : option jsstring;
  ev_brief : jsstring;
  ev_description : option jsstring;
  ev_data : option jsstring;
  ev_refs : option jsstring;
  ev_priority : option jsstring;
  ev_category : option jsstring;
  ev_is_archived : bool
}.

(** The tables the modelled statements touch.  Of [projects] and [agents]
    only the primary keys matter to them (as targets of foreign keys). *)
Record Database := {
  projects : list jsstring;
  agents : list jsstring;
  phases : list PhaseRow;
  events : list EventRow
}.

Inductive SqliteError :=
  | SQLITE_CONSTRAINT_PRIMARYKEY
  | SQLITE_CONSTRAINT_UNIQUE
  | SQLITE_CONSTRAINT_FOREIGNKEY.

(** A settled promise of the [Database] class. *)
Inductive Settled (A : Type) :=
  | Resolved (a : A)
  | Rejected (e : SqliteError).
Arguments Resolved {A} a.
Arguments Rejected {A} e.

Definition message (e : SqliteError) : jsstring :=
  match e with
  | SQLITE_CONSTRAINT_PRIMARYKEY =>
      lit "SQLITE_CONSTRAINT: UNIQUE constraint failed: primary key"
  | SQLITE_CONSTRAINT_UNIQUE => lit "SQLITE_CONSTRAINT: UNIQUE constraint failed"
  | SQLITE_CONSTRAINT_FOREIGNKEY => lit "SQLITE_CONSTRAINT: FOREIGN KEY constraint failed"
  end.

Definition active : jsstring := lit "active".
Definition completed : jsstring := lit "completed".
Definition pending : jsstring := lit "pending".

(** [WHERE project_id = ? AND name = ?] *)
Definition matches (projectId name : jsstring) (r : PhaseRow) : bool :=
  jsstring_eqb (ph_project_id r) projectId && jsstring_eqb (ph_name r) name.

(** [SET status = 'completed', end_date = CURRENT_TIMESTAMP] *)
Definition set_completed (now : jsstring) (r : PhaseRow) : PhaseRow :=
  {| ph_id := ph_id r; ph_project_id := ph_project_id r; ph_name := ph_name r;
     ph_display_name := ph_display_name r; ph_start_date := ph_start_date r;
     ph_end_date := Some now;
     ph_planned_end_date := ph_planned_end_date r;
     ph_status := Some completed;
     ph_progress := ph_progress r; ph_gate_approved := ph_gate_approved r;
     ph_gate_review_date := ph_gate_review_date r;
     ph_gate_reviewer := ph_gate_reviewer r; ph_gate_notes := ph_gate_notes r;
     ph_created_at := ph_created_at r; ph_updated_at := ph_updated_at r |}.

(** [SET status = 'active', start_date = CURRENT_TIMESTAMP] *)
Definition set_active (now : jsstring) (r : PhaseRow) : PhaseRow :=
  {| ph_id := ph_id r; ph_project_id := ph_project_id r; ph_name := ph_name r;
     ph_display_name := ph_display_name r;
     ph_start_date := Some now;
     ph_end_date := ph_end_date r;
     ph_planned_end_date := ph_planned_end_date r;
     ph_status := Some active;
     ph_progress := ph_progress r; ph_gate_approved := ph_gate_approved r;
     ph_gate_review_date := ph_gate_review_date r;
     ph_gate_reviewer := ph_gate_reviewer r; ph_gate_notes := ph_gate_notes r;
     ph_created_at := ph_created_at r; ph_updated_at := ph_updated_at r |}.

(** [UPDATE phases SET ... WHERE project_id = ? AND name = ?]: every matching
    row is rewritten, the others are kept, the order of rows is untouched. *)
Definition update_phases (set : PhaseRow -> PhaseRow) (projectId name : jsstring)
    (rows : list PhaseRow) : list PhaseRow :=
  map (fun r => if matches projectId name r then set r else r) rows.

Definition with_phases (db : Database) (rows : list PhaseRow) : Database :=
  {| projects := projects db; agents := agents db; phases := rows; events := events db |}.

Definition with_events (db : Database) (rows : list EventRow) : Database :=
  {| projects := projects db; agents := agents db; phases := phases db; events := rows |}.

Definition mem (x : jsstring) (l : list jsstring) : bool :=
  existsb (jsstring_eqb x) l.

(** A nullable foreign key: [NULL] refers to nothing and is always allowed. *)
Definition refers (x : option jsstring) (keys : list jsstring) : bool :=
  match x with
  | None => true
  | Some k => mem k keys
  end.

Record PhaseParams := {
  pp_name : jsstring;
  pp_displayName : option jsstring;
  pp_startDate : option jsstring;
  pp_plannedEndDate : option jsstring;
  pp_status : option jsstring
}.

(** [createPhase(projectId, params)].  [uuid] is the value of [uuidv4()],
    [isoNow] that of [new Date().toISOString()] and [now] that of SQLite's
    [CURRENT_TIMESTAMP].  The insert is refused on a duplicate primary key,
    on a second phase of that name in the project ([UNIQUE(project_id, name)])
    and for an unknown project (foreign keys are switched on in [connect]);
    on success the promise resolves to the row read back by [getPhase]. *)
Definition createPhase (projectId : jsstring) (params : PhaseParams)
    (uuid isoNow now : jsstring) (db : Database) : Database * Settled (option PhaseRow) :=
  if existsb (fun r => jsstring_eqb (ph_id r) uuid) (phases db) then
    (db, Rejected SQLITE_CONSTRAINT_PRIMARYKEY)
  else if existsb (matches projectId (pp_name params)) (phases db) then
    (db, Rejected SQLITE_CONSTRAINT_UNIQUE)
  else if negb (mem projectId (projects db)) then
    (db, Rejected SQLITE_CONSTRAINT_FOREIGNKEY)
  else
    let row :=
      {| ph_id := uuid; ph_project_id := projectId; ph_name := pp_name params;
         ph_display_name := Some (or_else (pp_displayName params) (pp_name params));
         ph_start_date := Some (or_else (pp_startDate params) isoNow);
         ph_end_date := None;
         ph_planned_end_date := pp_plannedEndDate params;
         ph_status := Some (or_else (pp_status params) pending);
         ph_progress := 0; ph_gate_approved := false;
         ph_gate_review_date := None; ph_gate_reviewer := None; ph_gate_notes := None;
         ph_created_at := Some now; ph_updated_at := Some now |} in
    (with_phases db (phases db ++ [row]), Resolved (Some row)).

Definition is_active_in (projectId : jsstring) (r : PhaseRow) : bool :=
  jsstring_eqb (ph_project_id r) projectId
  && bool_decide (ph_status r = Some active).

(** [getCurrentPhase(projectId)]: of the project's active rows the one with
    the latest [start_date] ([ORDER BY start_date DESC LIMIT 1]; [NULL]
    sorts last).  Which of several rows with the same date comes first is
    left open by SQLite; here it is the earliest in the table. *)
Definition date_lt (a b : option jsstring) : bool :=
  match a, b with
  | None, Some _ => true
  | Some x, Some y => bool_decide (lexico x y)
  | _, _ => false
  end.

Fixpoint latest (best : PhaseRow) (rows : list PhaseRow) : PhaseRow :=
  match rows with
  | [] => best
  | r :: rows' =>
      if date_lt (ph_start_date best) (ph_start_date r) then latest r rows'
      else latest best rows'
  end.

Definition getCurrentPhase (projectId : jsstring) (db : Database) : option PhaseRow :=
  match List.filter (is_active_in projectId) (phases db) with
  | [] => None
  | r :: rows => Some (latest r rows)
  end.

Record EventParams := {
  ep_projectId : jsstring;
  ep_type : jsstring;
  ep_subtype : option jsstring;
  ep_phaseId : option jsstring;
  ep_agentId : option jsstring;
  ep_brief : jsstring;
  ep_description : option jsstring;
  ep_data : JSValue;
  ep_refs : option (list jsstring);
  ep_priority : option jsstring;
  ep_category : option jsstring
}.

(** The row [logEvent(params)] writes: the brief is cut to its first 60
    code units, absent values get their defaults. *)
Definition event_row (params : EventParams) (uuid now : jsstring) : EventRow :=
  {| ev_id := uuid;
     ev_project_id := ep_projectId params;
     ev_type := ep_type params;
     ev_subtype := or_null (ep_subtype params);
     ev_phase_id := or_null (ep_phaseId params);
     ev_agent_id := or_null (ep_agentId params);
     ev_sprint_id := None;
     ev_timestamp := Some now;
     ev_brief := substring0 60 (ep_brief params);
     ev_description := or_null (ep_description params);
     ev_data := stringify (if truthy (ep_data params) then ep_data params else JObj 0 []);
     ev_refs := stringify (JArr 0 (map JStr (default [] (ep_refs params))));
     ev_priority := Some (or_else (ep_priority params) (lit "medium"));
     ev_category := Some (or_else (ep_category params) (lit "system"));
     ev_is_archived := false |}.

(** [logEvent(params)]: the insert is refused on a duplicate primary key and
    when the project, the phase or the agent it names does not exist. *)
Definition logEvent (params : EventParams) (uuid now : jsstring) (db : Database)
    : Database * Settled (option EventRow) :=
  let row := event_row params uuid now in
  if existsb (fun r => jsstring_eqb (ev_id r) uuid) (events db) then
    (db, Rejected SQLITE_CONSTRAINT_PRIMARYKEY)
  else if negb (mem (ev_project_id row) (projects db)
                && refers (ev_phase_id row) (map ph_id (phases db))
                && refers (ev_agent_id row) (agents db)) then
    (db, Rejected SQLITE_CONSTRAINT_FOREIGNKEY)
  else
    (with_events db (events db ++ [row]), Resolved (Some row)).

End Db.

(** ** The tool handlers ([mcp-server/src/server.js]) *)

Module Server.
Import JS Db.

Inductive ErrorCode := MethodNotFound | InternalError.

(** What [CallToolRequestSchema]'s handler gives back: the value whose JSON
    text becomes the content of the reply, or the [McpError] it throws. *)
Inductive ToolResult :=
  | Content (v : JSValue)
  | McpError (code : ErrorCode) (msg : jsstring).

Record TransitionArgs := {
  projectId : jsstring;
  fromPhase : jsstring;
  toPhase : jsstring;
  gateApproval : option bool;
  notes : option jsstring;
  triggeredBy : jsstring
}.

(** What one call takes from its surroundings: the identifier [uuidv4()]
    hands to [logEvent] and SQLite's clock at each of the three statements. *)
Record CallEnv := {
  uuid : jsstring;
  at_old : jsstring;
  at_new : jsstring;
  at_log : jsstring
}.

Definition transition_event (args : TransitionArgs) : EventParams :=
  {| ep_projectId := projectId args;
     ep_type := lit "phase_transition";
     ep_subtype := None;
     ep_phaseId := None;
     ep_agentId := Some (triggeredBy args);
     ep_brief := lit "Phase transition: " ++ fromPhase args ++ lit " " ++ arrow
                 ++ lit " " ++ toPhase args;
     ep_description := notes args;
     ep_data := JObj 0 [(lit "fromPhase", JStr (fromPhase args));
                        (lit "toPhase", JStr (toPhase args));
                        (lit "gateApproval",
                          match gateApproval args with
                          | Some b => JBool b
                          | None => JUndefined
                          end)];
     ep_refs := None;
     ep_priority := None;
     ep_category := None |}.

Definition success (args : TransitionArgs) : ToolResult :=
  Content (JObj 0 [(lit "success", JBool true);
                   (lit "fromPhase", JStr (fromPhase args));
                   (lit "toPhase", JStr (toPhase args))]).

Definition failed (e : SqliteError) : ToolResult :=
  McpError InternalError (lit "Tool execution failed: " ++ message e).

(** The three awaited statements of the handler, one at a time. *)
Definition mark_old (args : TransitionArgs) (env : CallEnv) (db : Database) : Database :=
  with_phases db
    (update_phases (set_completed (at_old env)) (projectId args) (fromPhase args) (phases db)).

Definition activate_new (args : TransitionArgs) (env : CallEnv) (db : Database) : Database :=
  with_phases db
    (update_phases (set_active (at_new env)) (projectId args) (toPhase args) (phases db)).

Definition log_transition (args : TransitionArgs) (env : CallEnv) (db : Database)
    : Database * Settled (option EventRow) :=
  logEvent (transition_event args) (uuid env) (at_log env) db.

(** [case 'mcp__pdl__transition_phase']: complete the old phase, activate
    the new one, log the event, answer.  Nothing is read before the two
    updates; a rejected [logEvent] is caught by the handler's [catch] and
    re-thrown as an [McpError], with both updates already applied. *)
Definition transition_phase (args : TransitionArgs) (env : CallEnv) (db : Database)
    : Database * ToolResult :=
  let db1 := mark_old args env db in
  let db2 := activate_new args env db1 in
  match log_transition args env db2 with
  | (db3, Resolved _) => (db3, success args)
  | (db3, Rejected e) => (db3, failed e)
  end.

(** *** Two calls in flight

    The handler is an [async] function: at each [await] it gives up control
    and another request's handler may run.  A call is therefore a little
    machine that performs one statement per turn ([logEvent] is one turn:
    after its insert it only reads the row back). *)
Inductive Pc :=
  | AtOld
  | AtNew
  | AtLog
  | Returned (r : ToolResult).

Definition step (args : TransitionArgs) (env : CallEnv) (pc : Pc) (db : Database)
    : Pc * Database :=
  match pc with
  | AtOld => (AtNew, mark_old args env db)
  | AtNew => (AtLog, activate_new args env db)
  | AtLog =>
      match log_transition args env db with
      | (db', Resolved _) => (Returned (success args), db')
      | (db', Rejected e) => (Returned (failed e), db')
      end
  | Returned r => (Returned r, db)
  end.

Record Call := { call_args : TransitionArgs; call_env : CallEnv }.

(** A schedule says, turn by turn, which of the two calls moves:
    [true] the first, [false] the second. *)
Fixpoint run (a b : Call) (schedule : list bool) (pa pb : Pc) (db : Database)
    : Pc * Pc * Database :=
  match schedule with
  | [] => (pa, pb, db)
  | true :: rest =>
      let '(pa', db') := step (call_args a) (call_env a) pa db in
      run a b rest pa' pb db'
  | false :: rest =>
      let '(pb', db') := step (call_args b) (call_env b) pb db in
      run a b rest pa pb' db'
  end.

(** The number of rows whose status a statement of the handler rewrites. *)
Definition changes (project name : jsstring) (db : Database) : nat :=
  length (List.filter (matches project name) (phases db)).

Definition active_count (project : jsstring) (db : Database) : nat :=
  length (List.filter (is_active_in project) (phases db)).

(** At most one phase of every project is active. *)
Definition single_active (db : Database) : Prop :=
  forall project, (active_count project db <= 1)%nat.

(** [UNIQUE(project_id, name)] *)
Definition names_unique (db : Database) : Prop :=
  NoDup (map (fun r => (ph_project_id r, ph_name r)) (phases db)).

(** The columns of [UNIQUE(project_id, name)]. *)
Definition key (r : PhaseRow) : jsstring * jsstring := (ph_project_id r, ph_name r).

(** The two updates of a transition, row by row. *)
Definition moved (args : TransitionArgs) (env : CallEnv) (r : PhaseRow) : PhaseRow :=
  let r1 := if matches (projectId args) (fromPhase args) r
            then set_completed (at_old env) r else r in
  if matches (projectId args) (toPhase args) r1 then set_active (at_new env) r1 else r1.

(** The statements a call has still to run. *)
Definition owes (pc : Pc) : nat :=
  match pc with
  | AtOld => 3
  | AtNew => 2
  | AtLog => 1
  | Returned _ => 0
  end.

Definition finished (pc : Pc) : nat :=
  match pc with
  | Returned _ => 1
  | _ => 0
  end.

(** How often a schedule picks the first call ([who = true]) or the second. *)
Definition turns (who : bool) (schedule : list bool) : nat :=
  length (List.filter (Bool.eqb who) schedule).

(** A call the database has no reason to refuse: its project is known, its
    agent is known or left empty, its event id is unused. *)
Definition known (db0 : Database) (c : Call) : Prop :=
  mem (projectId (call_args c)) (projects db0) = true /\
  refers (or_null (Some (triggeredBy (call_args c)))) (agents db0) = true /\
  existsb (fun r => jsstring_eqb (ev_id r) (uuid (call_env c))) (events db0) = false.

(** What holds of two calls in flight and the tables at every turn, [db0]
    being the tables they started from. *)
Definition inv (a b : Call) (db0 : Database) (pa pb : Pc) (db : Database) : Prop :=
  projects db = projects db0 /\ agents db = agents db0 /\
  length (events db) = (length (events db0) + finished pa + finished pb)%nat /\
  (forall r, In r (events db) ->
     In r (events db0)
     \/ (ev_id r = uuid (call_env a) /\ finished pa = 1%nat)
     \/ (ev_id r = uuid (call_env b) /\ finished pb = 1%nat)) /\
  (forall r, pa = Returned r -> r = success (call_args a)) /\
  (forall r, pb = Returned r -> r = success (call_args b)).

(** *** Sequences of requests *)

Inductive Request :=
  | Transition (args : TransitionArgs) (env : CallEnv)
  | CreatePhase (project : jsstring) (params : PhaseParams) (uuid isoNow now : jsstring).

Definition handle (req : Request) (db : Database) : Database :=
  match req with
  | Transition args env => fst (transition_phase args env db)
  | CreatePhase project params uuid isoNow now =>
      fst (createPhase project params uuid isoNow now db)
  end.

Definition serve (reqs : list Request) (db : Database) : Database :=
  foldl (fun db req => handle req db) db reqs.

(** Every active phase of the project goes by the name [name]. *)
Definition names_the_active (project name : jsstring) (db : Database) : bool :=
  forallb (fun r => negb (is_active_in project r) || jsstring_eqb (ph_name r) name)
    (phases db).

(** The requests of a caller who does the checking the handler leaves out:
    a transition starts from the phase that is active, and a phase is
    created active only in a project that has no active phase. *)
Definition careful (req : Request) (db : Database) : bool :=
  match req with
  | Transition args _ => names_the_active (projectId args) (fromPhase args) db
  | CreatePhase project params _ _ _ =>
      negb (jsstring_eqb (or_else (pp_status params) pending) active)
      || (active_count project db =? 0)%nat
  end.

Fixpoint all_careful (reqs : list Request) (db : Database) : bool :=
  match reqs with
  | [] => true
  | req :: rest => careful req db && all_careful rest (handle req db)
  end.

(** *** The database of the test script

    One project, three agents, the six phases with [discovery] active. *)
Definition P1 : jsstring := lit "project-1".

Definition phase_params (name status : string) : PhaseParams :=
  {| pp_name := lit name; pp_displayName := None; pp_startDate := None;
     pp_plannedEndDate := Some (lit "2025-02-01T00:00:00.000Z");
     pp_status := Some (lit status) |}.

Definition create (name status id : string) : Request :=
  CreatePhase P1 (phase_params name status) (lit id)
    (lit "2025-01-01T00:00:00.000Z") (lit "2025-01-01 00:00:00").

Definition empty_db : Database :=
  {| projects := [P1]; agents := [lit "alice"; lit "bob"; lit "carol"];
     phases := []; events := [] |}.

Definition test_db : Database :=
  serve [create "discovery" "active" "ph-1"; create "planning" "pending" "ph-2";
         create "development" "pending" "ph-3"; create "launch" "pending" "ph-4";
         create "growth" "pending" "ph-5"; create "optimization" "pending" "ph-6"]
    empty_db.

Definition transition_args (from to : string) : TransitionArgs :=
  {| projectId := P1; fromPhase := lit from; toPhase := lit to;
     gateApproval := Some true; notes := None; triggeredBy := lit "alice" |}.

Definition env_with (id : string) : CallEnv :=
  {| uuid := lit id; at_old := lit "2025-01-02 00:00:00";
     at_new := lit "2025-01-02 00:00:00"; at_log := lit "2025-01-02 00:00:00" |}.

Definition statuses (db : Database) : list (jsstring * option jsstring) :=
  map (fun r => (ph_name r, ph_status r)) (phases db).

End Server.

(** ** The event framework (class [PDLFramework]) *)

Module Framework.
Import JS.

(** An event as [emit] builds it and as the wire format declares it
    ([interface PDLEvent]).  [phase] is whatever [currentPhase] held, and
    that is whatever some payload carried in [to]; [data] is free-form. *)
Record Event := {
  e_id : jsstring;
  e_type : jsstring;
  e_timestamp : jsstring;
  e_phase : JSValue;
  e_data : JSValue;
  e_brief : jsstring;
  e_references : list jsstring;
  e_agent : jsstring
}.

Inductive ReadyState := CONNECTING | OPEN | CLOSING | CLOSED.

(** The data fields of [this].  [ws] is [null] or a socket, of which only
    the [readyState] is looked at.  [activeAgents] is the [Set] in insertion
    order.  The [hooks] map is kept apart (record [PDLFramework]). *)
Record Instance := {
  wsUrl : option jsstring;
  offlineMode : bool;
  eventHistory : list Event;
  currentPhase : JSValue;
  activeAgents : list JSValue;
  ws : option ReadyState;
  reconnectInterval : Z;
  maxEventHistory : Z
}.

Inductive Level := LOG | WARN | ERROR.

Inductive LogArg :=
  | AText (s : jsstring)
  | AError (e : Error)
  | AValue (v : JSValue).

(** What the browser page around the instance holds: the console, [localStorage]
    (keys in insertion order), the frames handed to [ws.send], whether the
    diagram [#pdl-svg-content svg] is in the document, the MCP bridge
    ([window.mcpAvailable], [window.callMCP]), whether [new WebSocket]
    succeeds, the delays of the timers set, and the rejections waiting for
    their [.catch(console.error)].  Storage is taken to have room: [setItem]
    does not throw. *)
Record Host := {
  console : list (Level * list LogArg);
  localStorage : list (jsstring * jsstring);
  sent : list jsstring;
  svg : bool;
  mcpAvailable : bool;
  mcpCalls : list (jsstring * JSValue);
  webSocket : bool;
  timers : list Z;
  rejections : list Error
}.

Record Store := { self : Instance; host : Host }.

(** A piece of JavaScript: it changes the store and returns or throws;
    what it changed before throwing stays changed. *)
Definition Action (A : Type) : Type := Store -> Store * Completion A.

Definition ret {A} (a : A) : Action A := fun s => (s, Normal a).
Definition throw {A} (e : Error) : Action A := fun s => (s, Throw e).
Definition bind {A B} (m : Action A) (k : A -> Action B) : Action B :=
  fun s =>
    match m s with
    | (s', Normal a) => k a s'
    | (s', Throw e) => (s', Throw e)
    end.

#[global] Instance action_ret : MRet Action := @ret.
#[global] Instance action_bind : MBind Action := fun A B k m => bind m k.

(** [try { body } catch (error) { handler(error) }] *)
Definition try_catch {A} (body : Action A) (handler : Error -> Action A) : Action A :=
  fun s =>
    match body s with
    | (s', Normal a) => (s', Normal a)
    | (s', Throw e) => handler e s'
    end.

Definition lift {A} (c : Completion A) : Action A := fun s => (s, c).
Definition get : Action Store := fun s => (s, Normal s).
Definition update_self (f : Instance -> Instance) : Action unit :=
  fun s => ({| self := f (self s); host := host s |}, Normal tt).
Definition update_host (f : Host -> Host) : Action unit :=
  fun s => ({| self := self s; host := f (host s) |}, Normal tt).

(** [l.forEach(f)]: a throw of [f] ends the loop and leaves it. *)
Fixpoint forEach {A} (l : list A) (f : A -> Action unit) : Action unit :=
  match l with
  | [] => ret tt
  | x :: l' => (f x : Action unit) ;; forEach l' f
  end.

(** What calling a handler yields: any value, or a promise that is going to
    reject (an [async] handler that fails after its first [await]). *)
Inductive HookValue :=
  | Plain
  | Rejecting (reason : Error).

(** An entry of the [hooks] map.  A handler is any function of the event
    that works on the fields and on the page. *)
Record Hook := {
  fn : Event -> Action HookValue;
  priority : Z;
  async : bool
}.

(** The object: its fields and page, and the [hooks] map.  Handlers do not
    get at the map and do not call back into the object: one that registers
    a handler or emits an event while it runs is outside this model. *)
Record PDLFramework := {
  store : Store;
  hooks : gmap jsstring (list Hook)
}.

(** *** Field updates *)

Definition set_eventHistory (h : list Event) (i : Instance) : Instance :=
  {| wsUrl := wsUrl i; offlineMode := offlineMode i; eventHistory := h;
     currentPhase := currentPhase i; activeAgents := activeAgents i; ws := ws i;
     reconnectInterval := reconnectInterval i; maxEventHistory := maxEventHistory i |}.

Definition set_currentPhase (p : JSValue) (i : Instance) : Instance :=
  {| wsUrl := wsUrl i; offlineMode := offlineMode i; eventHistory := eventHistory i;
     currentPhase := p; activeAgents := activeAgents i; ws := ws i;
     reconnectInterval := reconnectInterval i; maxEventHistory := maxEventHistory i |}.

Definition set_activeAgents (a : list JSValue) (i : Instance) : Instance :=
  {| wsUrl := wsUrl i; offlineMode := offlineMode i; eventHistory := eventHistory i;
     currentPhase := currentPhase i; activeAgents := a; ws := ws i;
     reconnectInterval := reconnectInterval i; maxEventHistory := maxEventHistory i |}.

Definition set_ws (w : option ReadyState) (i : Instance) : Instance :=
  {| wsUrl := wsUrl i; offlineMode := offlineMode i; eventHistory := eventHistory i;
     currentPhase := currentPhase i; activeAgents := activeAgents i; ws := w;
     reconnectInterval := reconnectInterval i; maxEventHistory := maxEventHistory i |}.

Definition add_console (entry : Level * list LogArg) (h : Host) : Host :=
  {| console := console h ++ [entry]; localStorage := localStorage h; sent := sent h;
     svg := svg h; mcpAvailable := mcpAvailable h; mcpCalls := mcpCalls h;
     webSocket := webSocket h; timers := timers h; rejections := rejections h |}.

Definition set_localStorage (ls : list (jsstring * jsstring)) (h : Host) : Host :=
  {| console := console h; localStorage := ls; sent := sent h;
     svg := svg h; mcpAvailable := mcpAvailable h; mcpCalls := mcpCalls h;
     webSocket := webSocket h; timers := timers h; rejections := rejections h |}.

Definition add_sent (frame : jsstring) (h : Host) : Host :=
  {| console := console h; localStorage := localStorage h; sent := sent h ++ [frame];
     svg := svg h; mcpAvailable := mcpAvailable h; mcpCalls := mcpCalls h;
     webSocket := webSocket h; timers := timers h; rejections := rejections h |}.

Definition add_mcpCall (call : jsstring * JSValue) (h : Host) : Host :=
  {| console := console h; localStorage := localStorage h; sent := sent h;
     svg := svg h; mcpAvailable := mcpAvailable h; mcpCalls := mcpCalls h ++ [call];
     webSocket := webSocket h; timers := timers h; rejections := rejections h |}.

Definition add_timer (delay : Z) (h : Host) : Host :=
  {| console := console h; localStorage := localStorage h; sent := sent h;
     svg := svg h; mcpAvailable := mcpAvailable h; mcpCalls := mcpCalls h;
     webSocket := webSocket h; timers := timers h ++ [delay]; rejections := rejections h |}.

Definition add_rejection (reason : Error) (h : Host) : Host :=
  {| console := console h; localStorage := localStorage h; sent := sent h;
     svg := svg h; mcpAvailable := mcpAvailable h; mcpCalls := mcpCalls h;
     webSocket := webSocket h; timers := timers h; rejections := rejections h ++ [reason] |}.

Definition console_log (args : list LogArg) : Action unit :=
  update_host (add_console (LOG, args)).
Definition console_warn (args : list LogArg) : Action unit :=
  update_host (add_console (WARN, args)).
Definition console_error (args : list LogArg) : Action unit :=
  update_host (add_console (ERROR, args)).

(** [localStorage.setItem(key, value)]: a known key keeps its place. *)
Fixpoint setItem (key value : jsstring) (ls : list (jsstring * jsstring))
    : list (jsstring * jsstring) :=
  match ls with
  | [] => [(key, value)]
  | (k, v) :: ls' =>
      if jsstring_eqb k key then (k, value) :: ls' else (k, v) :: setItem key value ls'
  end.

(** [l.slice(start)] *)
Definition slice {A} (start : Z) (l : list A) : list A :=
  let len := Z.of_nat (length l) in
  let k := if start <? 0 then Z.max (len + start) 0 else Z.min start len in
  drop (Z.to_nat k) l.

(** [set.has(v)], [set.add(v)] on the insertion-ordered elements. *)
Definition has (v : JSValue) (l : list JSValue) : bool := existsb (sameValueZero v) l.
Definition add (v : JSValue) (l : list JSValue) : list JSValue :=
  if has v l then l else l ++ [v].

#[global] Instance completion_bind : MBind Completion :=
  fun A B k c => match c with Normal a => k a | Throw e => Throw e end.

(** *** The event system *)

Definition addToHistory (event : Event) : Action unit :=
  update_self (fun i =>
    let pushed := eventHistory i ++ [event] in
    if Z.of_nat (length pushed) >? maxEventHistory i
    then set_eventHistory (slice (- maxEventHistory i) pushed) i
    else set_eventHistory pushed i).

(** What [generateEventId] and [new Date()] draw from the page: the clock in
    milliseconds, the up to nine base-36 digits cut from [Math.random()],
    and the clock as an ISO-8601 string. *)
Record Entropy := {
  now_ms : Z;
  random : jsstring;
  iso : jsstring
}.

Definition generateEventId (en : Entropy) : jsstring :=
  lit "evt_" ++ decimal (now_ms en) ++ lit "_" ++ random en.

Definition generateBrief (eventType : jsstring) (data : JSValue) : Completion jsstring :=
  if jsstring_eqb eventType (lit "phase_transition") then
    a ← getProp data (lit "from"); a' ← template a;
    b ← getProp data (lit "to"); b' ← template b;
    Normal (lit "Phase: " ++ a' ++ lit " " ++ arrow ++ lit " " ++ b')
  else if jsstring_eqb eventType (lit "agent_assigned") then
    a ← getProp data (lit "agent"); a' ← template a;
    b ← getProp data (lit "role"); b' ← template b;
    Normal (lit "Agent: " ++ a' ++ lit " (" ++ b' ++ lit ")")
  else if jsstring_eqb eventType (lit "discovery") then
    a ← getProp data (lit "summary"); a' ← template a;
    Normal (lit "Found: " ++ a')
  else if jsstring_eqb eventType (lit "research_complete") then
    a ← getProp data (lit "topic"); a' ← template a;
    b ← getProp data (lit "conclusion"); b' ← template b;
    Normal (lit "Research: " ++ a' ++ lit " - " ++ b')
  else if jsstring_eqb eventType (lit "gate_review") then
    a ← getProp data (lit "gate"); a' ← template a;
    b ← getProp data (lit "status"); b' ← template b;
    Normal (lit "Gate " ++ a' ++ lit ": " ++ b')
  else
    match stringify data with
    | Some json => Normal (eventType ++ lit ": " ++ substring0 50 json ++ lit "...")
    | None => Throw (TypeError "Cannot read properties of undefined (reading 'substring')")
    end.

(** The third argument of [emit]. *)
Record EmitOptions := {
  o_brief : option jsstring;
  o_references : option (list jsstring);
  o_agent : option jsstring
}.

Definition no_options : EmitOptions :=
  {| o_brief := None; o_references := None; o_agent := None |}.

(** The object literal at the head of [emit].  A brief the caller gave
    (anything but the empty string) is taken as it is. *)
Definition build_event (i : Instance) (eventType : jsstring) (data : JSValue)
    (options : EmitOptions) (en : Entropy) : Completion Event :=
  brief ← match o_brief options with
          | Some (c :: b) => Normal (c :: b)
          | _ => generateBrief eventType data
          end;
  Normal {| e_id := generateEventId en;
            e_type := eventType;
            e_timestamp := iso en;
            e_phase := currentPhase i;
            e_data := data;
            e_brief := brief;
            e_references := default [] (o_references options);
            e_agent := or_else (o_agent options) (lit "system") |}.

Definition event_value (e : Event) : JSValue :=
  JObj 0 [(lit "id", JStr (e_id e));
          (lit "type", JStr (e_type e));
          (lit "timestamp", JStr (e_timestamp e));
          (lit "phase", e_phase e);
          (lit "data", e_data e);
          (lit "brief", JStr (e_brief e));
          (lit "references", JArr 0 (map JStr (e_references e)));
          (lit "agent", JStr (e_agent e))].

(** [JSON.stringify(event)] *)
Definition serialize (e : Event) : jsstring := default [] (stringify (event_value e)).

(** One turn of the loop in [executeHooks]: the handler is called at once in
    both branches; for an [async] binding a rejecting promise gets its
    [.catch(console.error)], which runs later; whatever the call throws is
    caught and logged. *)
Definition invoke (eventType : jsstring) (event : Event) (hook : Hook) : Action unit :=
  try_catch
    (if async hook then
       v ← fn hook event;
       match v with
       | Rejecting reason => update_host (add_rejection reason)
       | Plain => ret tt
       end
     else
       _ ← fn hook event; ret tt)
    (fun error =>
       console_error [AText (lit "Hook error for " ++ eventType ++ lit ":"); AError error]).

Definition bound (eventType : jsstring) (hooks : gmap jsstring (list Hook)) : list Hook :=
  default [] (hooks !! eventType).

Definition executeHooks (hooks : gmap jsstring (list Hook)) (eventType : jsstring)
    (event : Event) : Action unit :=
  forEach (bound eventType hooks) (invoke eventType event).

(** [ws && ws.readyState === WebSocket.OPEN] *)
Definition is_open (w : option ReadyState) : bool :=
  match w with
  | Some OPEN => true
  | _ => false
  end.

Definition sendToServer (event : Event) : Action unit :=
  s ← get;
  if negb (offlineMode (self s)) && is_open (ws (self s)) then
    update_host (add_sent (serialize event))
  else if offlineMode (self s) then
    update_host (fun h =>
      set_localStorage
        (setItem (lit "pdl_event_" ++ e_id event) (serialize event) (localStorage h)) h)
  else ret tt.

(** *** The diagram

    Changes to the document are not recorded; what is kept of these methods
    is where they can throw.  [phaseMap[phase]] turns [phase] into a
    property key, which is the string conversion. *)
Definition highlightPhase (phase : JSValue) : Action unit :=
  _ ← lift (template phase); ret tt.

Definition showAgentActivity (agent : JSValue) : Action unit :=
  a ← lift (template agent);
  console_log [AText (lit "Agent " ++ a ++ lit " is active")].

(** [svg.querySelector(`text:contains("${gate}")`)]: [:contains] is no
    selector of the platform, [querySelector] rejects it. *)
Definition updateGateStatus (gate status : JSValue) : Action unit :=
  _ ← lift (template gate);
  throw (SyntaxError "'text:contains(...)' is not a valid selector").

Definition updateVisualization (event : Event) : Action unit :=
  s ← get;
  if negb (svg (host s)) then ret tt
  else if jsstring_eqb (e_type event) (lit "phase_transition") then
    v ← lift (getProp (e_data event) (lit "to")); highlightPhase v
  else if jsstring_eqb (e_type event) (lit "agent_assigned") then
    v ← lift (getProp (e_data event) (lit "agent")); showAgentActivity v
  else if jsstring_eqb (e_type event) (lit "gate_review") then
    g ← lift (getProp (e_data event) (lit "gate"));
    st ← lift (getProp (e_data event) (lit "status"));
    updateGateStatus g st
  else ret tt.

Definition updatePhaseVisualization (phase : JSValue) : Action unit :=
  s ← get;
  if svg (host s) then highlightPhase phase else ret tt.

Definition emit (hooks : gmap jsstring (list Hook)) (eventType : jsstring)
    (data : JSValue) (options : EmitOptions) (en : Entropy) : Action jsstring :=
  s ← get;
  event ← lift (build_event (self s) eventType data options en);
  addToHistory event;;
  executeHooks hooks eventType event;;
  sendToServer event;;
  updateVisualization event;;
  ret (e_id event).

Definition handleIncomingEvent (hooks : gmap jsstring (list Hook)) (data : Event)
    : Action unit :=
  addToHistory data;;
  executeHooks hooks (e_type data) data;;
  updateVisualization data.
(** *** The hook system *)

Fixpoint insert_sorted {A} (cmp : A -> A -> Z) (x : A) (l : list A) : list A :=
  match l with
  | [] => [x]
  | y :: l' => if cmp x y <=? 0 then x :: y :: l' else y :: insert_sorted cmp x l'
  end.

(** [l.sort(cmp)].  The sort of the language is stable, and with a
    comparator that orders by one number every stable sort returns the same
    array; this one is insertion from the right. *)
Definition sort {A} (cmp : A -> A -> Z) (l : list A) : list A :=
  foldr (insert_sorted cmp) [] l.

(** [(a, b) => b.priority - a.priority] *)
Definition by_priority (a b : Hook) : Z := priority b - priority a.

Record HookOptions := {
  h_priority : option Z;
  h_async : option bool
}.

Definition no_hook_options : HookOptions := {| h_priority := None; h_async := None |}.

Definition registerHook (eventType : jsstring) (hookFn : Event -> Action HookValue)
    (options : HookOptions) (hooks : gmap jsstring (list Hook)) : gmap jsstring (list Hook) :=
  let entry := {| fn := hookFn;
                  priority := default 0 (h_priority options);
                  async := default false (h_async options) |} in
  <[eventType := sort by_priority (bound eventType hooks ++ [entry])]> hooks.

(** The three handlers of [registerDefaultHooks]. *)
Definition phase_transition_hook (event : Event) : Action HookValue :=
  v ← lift (getProp (e_data event) (lit "to"));
  update_self (set_currentPhase v);;
  updatePhaseVisualization v;;
  ret Plain.

(** [updateAgentVisualization] is not a method of the class: once the agent
    is in the set the call of the missing method throws. *)
Definition agent_assigned_hook (event : Event) : Action HookValue :=
  v ← lift (getProp (e_data event) (lit "agent"));
  update_self (fun i => set_activeAgents (add v (activeAgents i)) i);;
  throw (TypeError "this.updateAgentVisualization is not a function").

Definition writeDevelopmentNote (event : Event) : Action unit :=
  let note := JObj 0 [(lit "timestamp", JStr (e_timestamp event));
                      (lit "phase", e_phase event);
                      (lit "type", JStr (e_type event));
                      (lit "brief", JStr (e_brief event));
                      (lit "references", JArr 0 (map JStr (e_references event)));
                      (lit "agent", JStr (e_agent event))] in
  s ← get;
  if mcpAvailable (host s) then
    update_host (add_mcpCall (lit "write_development_note", note))
  else console_log [AText (lit "Development Note:"); AValue note].

Definition development_note_hook (event : Event) : Action HookValue :=
  writeDevelopmentNote event;; ret Plain.

Definition registerDefaultHooks (hooks : gmap jsstring (list Hook)) : gmap jsstring (list Hook) :=
  registerHook (lit "development_note") development_note_hook no_hook_options
    (registerHook (lit "agent_assigned") agent_assigned_hook no_hook_options
       (registerHook (lit "phase_transition") phase_transition_hook no_hook_options hooks)).

(** *** Construction and the socket *)

Definition initWebSocket : Action unit :=
  try_catch
    (s ← get;
     if webSocket (host s) then update_self (set_ws (Some CONNECTING))
     else throw (SyntaxError "new WebSocket"))
    (fun _ => console_warn [AText (lit "WebSocket unavailable, running in offline mode")]).

Record Options := {
  opt_wsUrl : option jsstring;
  opt_offline : option bool
}.

(** [new PDLFramework(options)] in a page [h]. *)
Definition constructor (options : Options) (h : Host) : PDLFramework :=
  let url := or_null (opt_wsUrl options) in
  let offline :=
    match opt_offline options, url with
    | Some false, _ => false
    | _, Some _ => false
    | _, None => true
    end in
  let this := {| wsUrl := url; offlineMode := offline; eventHistory := [];
                 currentPhase := JStr (lit "discovery"); activeAgents := [];
                 ws := None; reconnectInterval := 5000; maxEventHistory := 1000 |} in
  let start : Action unit :=
    if negb offline then initWebSocket
    else console_log [AText (lit "PDL Framework running in offline mode")] in
  {| store := fst (start {| self := this; host := h |});
     hooks := registerDefaultHooks ∅ |}.

Definition onConnectionOpen (hooks : gmap jsstring (list Hook)) (en : Entropy)
    : Action jsstring :=
  console_log [AText (lit "PDL WebSocket connected")];;
  emit hooks (lit "system")
    (JObj 0 [(lit "type", JStr (lit "connection")); (lit "status", JStr (lit "connected"))])
    no_options en.

(** [onMessage(event)]: [parsed] is what [JSON.parse(event.data)] comes to. *)
Definition onMessage (hooks : gmap jsstring (list Hook)) (parsed : Completion Event)
    : Action unit :=
  data ← lift parsed;
  handleIncomingEvent hooks data.

Definition onConnectionClose : Action unit :=
  console_log [AText (lit "PDL WebSocket disconnected, attempting reconnect...")];;
  s ← get;
  update_host (add_timer (reconnectInterval (self s))).

Definition onConnectionError (error : Error) : Action unit :=
  console_error [AText (lit "PDL WebSocket error:"); AError error].

(** *** API methods *)

Definition transitionPhase (hooks : gmap jsstring (list Hook))
    (fromPhase toPhase reason : jsstring) (en : Entropy) : Action jsstring :=
  emit hooks (lit "phase_transition")
    (JObj 0 [(lit "from", JStr fromPhase); (lit "to", JStr toPhase);
             (lit "reason", JStr reason)])
    {| o_brief := Some (lit "Phase: " ++ fromPhase ++ lit " " ++ arrow ++ lit " " ++ toPhase);
       o_references := Some (match reason with
                             | [] => []
                             | _ => [lit "reason: " ++ reason]
                             end);
       o_agent := None |}
    en.

Definition assignAgent (hooks : gmap jsstring (list Hook))
    (agentType role task : jsstring) (en : Entropy) : Action jsstring :=
  emit hooks (lit "agent_assigned")
    (JObj 0 [(lit "agent", JStr agentType); (lit "role", JStr role);
             (lit "task", JStr task)])
    {| o_brief := Some (agentType ++ lit " assigned as " ++ role);
       o_references := Some (match task with
                             | [] => []
                             | _ => [lit "task: " ++ task]
                             end);
       o_agent := None |}
    en.

Record CurrentState := {
  cs_phase : JSValue;
  cs_activeAgents : list JSValue;
  cs_recentEvents : list Event;
  cs_connected : option bool
}.

Definition getCurrentState (i : Instance) : CurrentState :=
  {| cs_phase := currentPhase i;
     cs_activeAgents := activeAgents i;
     cs_recentEvents := slice (-10) (eventHistory i);
     cs_connected := match ws i with
                     | None => None
                     | Some _ => Some (is_open (ws i))
                     end |}.

(** *** Runs *)

(** The object after a method ran on it, and how the method ended. *)
Definition call {A} (pdl : PDLFramework)
    (method : gmap jsstring (list Hook) -> Action A) : PDLFramework * Completion A :=
  let '(s, c) := method (hooks pdl) (store pdl) in
  ({| store := s; hooks := hooks pdl |}, c).

Record EmitCall := {
  c_type : jsstring;
  c_data : JSValue;
  c_options : EmitOptions;
  c_entropy : Entropy
}.

Definition emit_call (hooks : gmap jsstring (list Hook)) (c : EmitCall) : Action jsstring :=
  emit hooks (c_type c) (c_data c) (c_options c) (c_entropy c).

Definition built (i : Instance) (c : EmitCall) : Completion Event :=
  build_event i (c_type c) (c_data c) (c_options c) (c_entropy c).

(** A sequence of [emit] calls, one after the other; a call that throws does
    not stop the caller from making the next.  Besides the store the run
    yields, in order, the events the calls built. *)
Fixpoint emits (hooks : gmap jsstring (list Hook)) (calls : list EmitCall) (s : Store)
    : Store * list Event :=
  match calls with
  | [] => (s, [])
  | c :: rest =>
      let s' := fst (emit_call hooks c s) in
      let '(s'', evs) := emits hooks rest s' in
      (s'', match built (self s) c with
            | Normal e => e :: evs
            | Throw _ => evs
            end)
  end.

(** A handler from outside the class: it leaves the fields of the instance
    alone (it may read them, and do what it likes to the page). *)
Definition external (f : Event -> Action HookValue) : Prop :=
  forall e s, self (fst (f e s)) = self s.

Definition with_hooks (pdl : PDLFramework) (hs : gmap jsstring (list Hook)) : PDLFramework :=
  {| store := store pdl; hooks := hs |}.

Definition with_host (pdl : PDLFramework) (h : Host) : PDLFramework :=
  {| store := {| self := self (store pdl); host := h |}; hooks := hooks pdl |}.

Definition with_ws (pdl : PDLFramework) (w : ReadyState) : PDLFramework :=
  {| store := {| self := set_ws (Some w) (self (store pdl)); host := host (store pdl) |};
     hooks := hooks pdl |}.

(** The objects a program can get to: built by the constructor, then used
    through [registerHook] (with handlers from outside), [emit] and the
    socket callbacks, while the page and the socket change on their own. *)
Inductive Reachable : PDLFramework -> Prop :=
  | R_new options h :
      Reachable (constructor options h)
  | R_registerHook pdl eventType hookFn options :
      Reachable pdl -> external hookFn ->
      Reachable (with_hooks pdl (registerHook eventType hookFn options (hooks pdl)))
  | R_emit pdl eventType data options en :
      Reachable pdl ->
      Reachable (fst (call pdl (fun hs => emit hs eventType data options en)))
  | R_onMessage pdl parsed :
      Reachable pdl ->
      Reachable (fst (call pdl (fun hs => onMessage hs parsed)))
  | R_onConnectionOpen pdl en :
      Reachable pdl ->
      Reachable (fst (call pdl (fun hs => onConnectionOpen hs en)))
  | R_onConnectionClose pdl :
      Reachable pdl ->
      Reachable (fst (call pdl (fun _ => onConnectionClose)))
  | R_onConnectionError pdl error :
      Reachable pdl ->
      Reachable (fst (call pdl (fun _ => onConnectionError error)))
  | R_initWebSocket pdl :
      Reachable pdl ->
      Reachable (fst (call pdl (fun _ => initWebSocket)))
  | R_readyState pdl w :
      Reachable pdl -> ws (self (store pdl)) <> None ->
      Reachable (with_ws pdl w)
  | R_page pdl h :
      Reachable pdl ->
      Reachable (with_host pdl h).

(** *** Dispatch, spelled out

    What [executeHooks] comes to when the [try]/[catch] of each turn is
    resolved: the store a handler's call leaves, with its throw turned into
    a console entry. *)
Definition after_call (eventType : jsstring) (hook : Hook)
    (r : Store * Completion HookValue) : Store :=
  match r with
  | (s, Normal Plain) => s
  | (s, Normal (Rejecting reason)) =>
      if async hook then {| self := self s; host := add_rejection reason (host s) |} else s
  | (s, Throw error) =>
      {| self := self s;
         host := add_console
                   (ERROR, [AText (lit "Hook error for " ++ eventType ++ lit ":"); AError error])
                   (host s) |}
  end.

(** The handlers of [l] called one after the other, each on the store its
    predecessors left. *)
Definition dispatch (eventType : jsstring) (event : Event) (l : list Hook) (s : Store) : Store :=
  foldl (fun s hook => after_call eventType hook (fn hook event s)) s l.

(** *** Registrations *)

Record Registration := {
  r_type : jsstring;
  r_fn : Event -> Action HookValue;
  r_options : HookOptions
}.

Definition register (hooks : gmap jsstring (list Hook)) (r : Registration)
    : gmap jsstring (list Hook) :=
  registerHook (r_type r) (r_fn r) (r_options r) hooks.

(** The map after the calls [regs] of [registerHook], first to last. *)
Definition registered (regs : list Registration) (hooks : gmap jsstring (list Hook))
    : gmap jsstring (list Hook) :=
  foldl register hooks regs.

Definition entry_of (r : Registration) : Hook :=
  {| fn := r_fn r;
     priority := default 0 (h_priority (r_options r));
     async := default false (h_async (r_options r)) |}.

Definition default_registrations : list Registration :=
  [ {| r_type := lit "phase_transition"; r_fn := phase_transition_hook;
       r_options := no_hook_options |};
    {| r_type := lit "agent_assigned"; r_fn := agent_assigned_hook;
       r_options := no_hook_options |};
    {| r_type := lit "development_note"; r_fn := development_note_hook;
       r_options := no_hook_options |} ].

(** The entries registered for [eventType], in the order of registration. *)
Definition entries_for (eventType : jsstring) (regs : list Registration) : list Hook :=
  map entry_of (List.filter (fun r => jsstring_eqb (r_type r) eventType) regs).

(** A handler with its number of registration comes before another if its
    priority is higher, or the same and it was registered earlier. *)
Definition before (x y : nat * Hook) : Prop :=
  priority (snd y) < priority (snd x)
  \/ (priority (snd y) = priority (snd x) /\ (fst x < fst y)%nat).

(** Where a new entry lands in an ordered list: behind every entry of its
    priority or more. *)
Fixpoint place (x : nat * Hook) (l : list (nat * Hook)) : list (nat * Hook) :=
  match l with
  | [] => [x]
  | y :: l' =>
      if priority (snd x) <=? priority (snd y) then y :: place x l' else x :: y :: l'
  end.

(** *** What is assumed of handlers *)

(** A handler bound to [eventType] is tame if it comes from outside the
    class or is the class's own handler for that type. *)
Definition tame (eventType : jsstring) (f : Event -> Action HookValue) : Prop :=
  external f
  \/ (eventType = lit "phase_transition" /\ f = phase_transition_hook)
  \/ (eventType = lit "agent_assigned" /\ f = agent_assigned_hook).

Definition all_tame (hooks : gmap jsstring (list Hook)) : Prop :=
  forall eventType hook, In hook (bound eventType hooks) -> tame eventType (fn hook).

Definition has_phase_hook (hooks : gmap jsstring (list Hook)) : Prop :=
  exists hook, In hook (bound (lit "phase_transition") hooks)
               /\ fn hook = phase_transition_hook.

(** No two elements are the same value: what a [Set] guarantees. *)
Definition distinct (l : list JSValue) : Prop :=
  forall i j a b, l !! i = Some a -> l !! j = Some b -> sameValueZero a b = true -> i = j.

Definition has_agent_hook (hooks : gmap jsstring (list Hook)) : Prop :=
  exists hook, In hook (bound (lit "agent_assigned") hooks)
               /\ fn hook = agent_assigned_hook.

(** The last [n] elements of a list (all of it if it is shorter). *)
Definition last_n {A} (n : nat) (l : list A) : list A := drop (length l - n) l.

(** What holds of the fields of every object in use. *)
Definition sound (i : Instance) : Prop :=
  maxEventHistory i = 1000 /\
  (length (eventHistory i) <= 1000)%nat /\
  distinct (activeAgents i).

Definition Inv (pdl : PDLFramework) : Prop :=
  all_tame (hooks pdl) /\ has_phase_hook (hooks pdl) /\ has_agent_hook (hooks pdl)
  /\ sound (self (store pdl)).

(** A handler that keeps its hands off the connection: the offline flag,
    the socket, [localStorage] and the frames sent. *)
Definition off_the_wire (f : Event -> Action HookValue) : Prop :=
  forall e s,
    offlineMode (self (fst (f e s))) = offlineMode (self s) /\
    ws (self (fst (f e s))) = ws (self s) /\
    localStorage (host (fst (f e s))) = localStorage (host s) /\
    sent (host (fst (f e s))) = sent (host s).

Definition all_off_the_wire (hooks : gmap jsstring (list Hook)) : Prop :=
  forall eventType hook, In hook (bound eventType hooks) -> off_the_wire (fn hook).

(** The entry [sendToServer] stores for an event in offline mode. *)
Definition stored (e : Event) : jsstring * jsstring :=
  (lit "pdl_event_" ++ e_id e, serialize e).

(** *** A page and some calls for the examples *)

Definition page : Host :=
  {| console := []; localStorage := []; sent := []; svg := false; mcpAvailable := false;
     mcpCalls := []; webSocket := true; timers := []; rejections := [] |}.

Definition offline_options : Options := {| opt_wsUrl := None; opt_offline := None |}.
Definition online_options : Options :=
  {| opt_wsUrl := Some (lit "ws://localhost:8080"); opt_offline := None |}.

Definition at_time (n : Z) : Entropy :=
  {| now_ms := 1700000000000 + n; random := lit "k3j9x0q2a";
     iso := lit "2023-11-14T22:13:20.000Z" |}.

Definition note (n : Z) : EmitCall :=
  {| c_type := lit "development_note";
     c_data := JObj 0 [(lit "text", JStr (lit "refactored the event loop of the dashboard"));
                       (lit "n", JNum n)];
     c_options := no_options;
     c_entropy := at_time n |}.

Definition assign (agent : string) (n : Z) : EmitCall :=
  {| c_type := lit "agent_assigned";
     c_data := JObj 0 [(lit "agent", JStr (lit agent)); (lit "role", JStr (lit "developer"))];
     c_options := no_options;
     c_entropy := at_time n |}.

Definition move_to (phase : string) (n : Z) : EmitCall :=
  {| c_type := lit "phase_transition";
     c_data := JObj 0 [(lit "from", JStr (lit "discovery")); (lit "to", JStr (lit phase))];
     c_options := no_options;
     c_entropy := at_time n |}.

(** A handler that writes a line to the console, and one that throws. *)
Definition says (line : string) : Event -> Action HookValue :=
  fun _ => console_log [AText (lit line)];; ret Plain.

Definition fails (why : string) : Event -> Action HookValue :=
  fun _ => throw (TypeError why).

Definition with_priority (n : Z) : HookOptions :=
  {| h_priority := Some n; h_async := None |}.

(** Three handlers for [build_done]; the one in the middle throws. *)
Definition three_hooks : gmap jsstring (list Hook) :=
  registered
    [ {| r_type := lit "build_done"; r_fn := says "last"; r_options := no_hook_options |};
      {| r_type := lit "build_done"; r_fn := fails "boom"; r_options := with_priority 1 |};
      {| r_type := lit "build_done"; r_fn := says "first"; r_options := with_priority 2 |} ]
    (registerDefaultHooks ∅).

Definition build_done : Event :=
  {| e_id := lit "evt_1700000000000_k3j9x0q2a"; e_type := lit "build_done";
     e_timestamp := lit "2023-11-14T22:13:20.000Z"; e_phase := JStr (lit "discovery");
     e_data := JObj 0 []; e_brief := lit "build_done: {}..."; e_references := [];
     e_agent := lit "system" |}.

(** The event [onConnectionOpen] emits. *)
Definition connected_event (i : Instance) (en : Entropy) : Event :=
  {| e_id := generateEventId en; e_type := lit "system"; e_timestamp := iso en;
     e_phase := currentPhase i;
     e_data := JObj 0 [(lit "type", JStr (lit "connection"));
                       (lit "status", JStr (lit "connected"))];
     e_brief := lit "system: {" ++ [34%N] ++ lit "type" ++ [34%N] ++ lit ":" ++ [34%N]
                ++ lit "connection" ++ [34%N] ++ lit "," ++ [34%N] ++ lit "status"
                ++ [34%N] ++ lit ":" ++ [34%N] ++ lit "connected" ++ [34%N] ++ lit "}...";
     e_references := []; e_agent := lit "system" |}.

(** The object with the store [s]. *)
Definition in_store (pdl : PDLFramework) (s : Store) : PDLFramework :=
  {| store := s; hooks := hooks pdl |}.

(** An [emit] with a brief of the caller's, 75 characters long. *)
Definition briefed : EmitCall :=
  {| c_type := lit "deploy";
     c_data := JObj 0 [];
     c_options :=
       {| o_brief := Some (lit "Deployed build 4711 of the dashboard to the staging cluster in eu-central-1");
          o_references := None; o_agent := None |};
     c_entropy := at_time 1 |}.

(** Twelve hundred calls of [emit]. *)
Definition many_notes : list EmitCall := map note (seqZ 0 1200).

End Framework.

(** ** The rest of the persistence layer and of the tool handlers *)

Module Tools.
Import JS Db Server.

(** [getPhase(phaseId)]: [SELECT * FROM phases WHERE id = ?], the first row. *)
Definition getPhase (phaseId : jsstring) (db : Database) : option PhaseRow :=
  List.find (fun r => jsstring_eqb (ph_id r) phaseId) (phases db).

(** A nullable text column as the driver hands it over. *)
Definition text_or_null (x : option jsstring) : JSValue :=
  match x with
  | Some s => JStr s
  | None => JNull
  end.

Definition flag (b : bool) : JSValue := JNum (if b then 1 else 0).

(** The object the driver builds from a row of [phases], column by column. *)
Definition phase_value (r : PhaseRow) : JSValue :=
  JObj 0 [(lit "id", JStr (ph_id r));
          (lit "project_id", JStr (ph_project_id r));
          (lit "name", JStr (ph_name r));
          (lit "display_name", text_or_null (ph_display_name r));
          (lit "start_date", text_or_null (ph_start_date r));
          (lit "end_date", text_or_null (ph_end_date r));
          (lit "planned_end_date", text_or_null (ph_planned_end_date r));
          (lit "status", text_or_null (ph_status r));
          (lit "progress", JNum (ph_progress r));
          (lit "gate_approved", flag (ph_gate_approved r));
          (lit "gate_review_date", text_or_null (ph_gate_review_date r));
          (lit "gate_reviewer", text_or_null (ph_gate_reviewer r));
          (lit "gate_notes", text_or_null (ph_gate_notes r));
          (lit "created_at", text_or_null (ph_created_at r));
          (lit "updated_at", text_or_null (ph_updated_at r))].

(** The object the driver builds from a row of [events]. *)
Definition event_row_value (r : EventRow) : JSValue :=
  JObj 0 [(lit "id", JStr (ev_id r));
          (lit "project_id", JStr (ev_project_id r));
          (lit "type", JStr (ev_type r));
          (lit "subtype", text_or_null (ev_subtype r));
          (lit "phase_id", text_or_null (ev_phase_id r));
          (lit "agent_id", text_or_null (ev_agent_id r));
          (lit "sprint_id", text_or_null (ev_sprint_id r));
          (lit "timestamp", text_or_null (ev_timestamp r));
          (lit "brief", JStr (ev_brief r));
          (lit "description", text_or_null (ev_description r));
          (lit "data", text_or_null (ev_data r));
          (lit "refs", text_or_null (ev_refs r));
          (lit "priority", text_or_null (ev_priority r));
          (lit "category", text_or_null (ev_category r));
          (lit "is_archived", flag (ev_is_archived r))].

(** What [JSON.stringify(row, null, 2)] is given: the row, or [undefined]
    where the query found none. *)
Definition row_or_undefined {A} (value : A -> JSValue) (row : option A) : JSValue :=
  match row with
  | Some r => value r
  | None => JUndefined
  end.

(** The arguments of [mcp__pdl__log_event] as its schema declares them.
    The schema calls the list [references]. *)
Record LogEventArgs := {
  la_projectId : jsstring;
  la_type : jsstring;
  la_brief : jsstring;
  la_description : option jsstring;
  la_phaseId : option jsstring;
  la_agentId : option jsstring;
  la_data : JSValue;
  la_references : option (list jsstring);
  la_priority : option jsstring
}.

(** [db.logEvent(args)]: the handler passes the arguments on as they are,
    and [logEvent] reads [subtype], [refs] and [category], which the schema
    does not have, and never [references]. *)
Definition log_event_params (args : LogEventArgs) : EventParams :=
  {| ep_projectId := la_projectId args;
     ep_type := la_type args;
     ep_subtype := None;
     ep_phaseId := la_phaseId args;
     ep_agentId := la_agentId args;
     ep_brief := la_brief args;
     ep_description := la_description args;
     ep_data := la_data args;
     ep_refs := None;
     ep_priority := la_priority args;
     ep_category := None |}.

(** A request to [CallToolRequestSchema]'s handler, with what the call draws
    from its surroundings ([uuidv4()], the clocks).  Of the tools these are
    the ones on phases and on logging; [UnknownTool] is a name that is none
    of the cases of the [switch]. *)
Inductive ToolCall :=
  | GetCurrentPhase (project : jsstring)
  | CreatePhaseTool (project : jsstring) (params : PhaseParams) (uuid isoNow now : jsstring)
  | TransitionPhase (args : TransitionArgs) (env : CallEnv)
  | LogEvent (args : LogEventArgs) (uuid now : jsstring)
  | UnknownTool (name : jsstring).

(** [error.message] of a [new McpError(code, text)]: the constructor of the
    SDK puts the code in front of the text.  [MethodNotFound] is -32601. *)
Definition mcp_message (code : Z) (text : jsstring) : jsstring :=
  lit "MCP error " ++ decimal code ++ lit ": " ++ text.

(** The handler: the [switch] inside [try], and the [catch] that turns
    whatever was thrown, the [McpError] of the [default] case included, into
    an [InternalError]. *)
Definition call_tool (c : ToolCall) (db : Database) : Database * ToolResult :=
  match c with
  | GetCurrentPhase project =>
      (db, Content (row_or_undefined phase_value (getCurrentPhase project db)))
  | CreatePhaseTool project params uuid isoNow now =>
      match createPhase project params uuid isoNow now db with
      | (db', Resolved row) => (db', Content (row_or_undefined phase_value row))
      | (db', Rejected e) => (db', failed e)
      end
  | TransitionPhase args env => transition_phase args env db
  | LogEvent args uuid now =>
      match logEvent (log_event_params args) uuid now db with
      | (db', Resolved row) => (db', Content (row_or_undefined event_row_value row))
      | (db', Rejected e) => (db', failed e)
      end
  | UnknownTool name =>
      (db, McpError InternalError
             (lit "Tool execution failed: "
              ++ mcp_message (-32601) (lit "Unknown tool: " ++ name)))
  end.

(** Requests served one after the other. *)
Definition serve_all (calls : list ToolCall) (db : Database) : Database :=
  foldl (fun db c => fst (call_tool c db)) db calls.

(** What the schema's keys and foreign keys demand of the tables. *)
Definition intact (db : Database) : Prop :=
  NoDup (map ph_id (phases db)) /\
  names_unique db /\
  NoDup (map ev_id (events db)) /\
  (forall r, In r (phases db) -> mem (ph_project_id r) (projects db) = true) /\
  (forall e, In e (events db) ->
     mem (ev_project_id e) (projects db) = true
     /\ refers (ev_phase_id e) (map ph_id (phases db)) = true
     /\ refers (ev_agent_id e) (agents db) = true).

(** Every stored brief is within the limit. *)
Definition briefs_capped (db : Database) : Prop :=
  forall e, In e (events db) -> (length (ev_brief e) <= 60)%nat.

(** A transition as the tool's description means it: from the phase that is
    active to another phase of the project. *)
Definition honest (args : TransitionArgs) (db : Database) : Prop :=
  names_the_active (projectId args) (fromPhase args) db = true /\
  existsb (matches (projectId args) (toPhase args)) (phases db) = true.

End Tools.

(** ** The rest of the class [PDLFramework] *)

Module Api.
Import JS Framework.

(** [localStorage.getItem(key)] *)
Fixpoint getItem (key : jsstring) (ls : list (jsstring * jsstring)) : option jsstring :=
  match ls with
  | [] => None
  | (k, v) :: ls' => if jsstring_eqb k key then Some v else getItem key ls'
  end.

(** The argument of [getEventHistory]: a criterion that is absent, or falsy
    like the empty string, does not filter. *)
Record Filter := {
  f_phase : JSValue;
  f_agent : option jsstring;
  f_type : option jsstring
}.

(** [getEventHistory(filter)]: the three criteria one after the other.
    [===] on the values at hand is [sameValueZero]. *)
Definition getEventHistory (filter : Filter) (i : Instance) : list Event :=
  let by_phase :=
    if truthy (f_phase filter)
    then List.filter (fun e => sameValueZero (e_phase e) (f_phase filter)) (eventHistory i)
    else eventHistory i in
  let by_agent :=
    match or_null (f_agent filter) with
    | Some a => List.filter (fun e => jsstring_eqb (e_agent e) a) by_phase
    | None => by_phase
    end in
  match or_null (f_type filter) with
  | Some t => List.filter (fun e => jsstring_eqb (e_type e) t) by_agent
  | None => by_agent
  end.

(** Whether an event passes the criteria that are set. *)
Definition passes (filter : Filter) (e : Event) : Prop :=
  (truthy (f_phase filter) = true -> sameValueZero (e_phase e) (f_phase filter) = true) /\
  (forall a, or_null (f_agent filter) = Some a -> e_agent e = a) /\
  (forall t, or_null (f_type filter) = Some t -> e_type e = t).

(** The [emit] inside [transitionPhase], [assignAgent], [logDiscovery] and
    [logResearch]. *)
Definition transition_call (fromPhase toPhase reason : jsstring) (en : Entropy) : EmitCall :=
  {| c_type := lit "phase_transition";
     c_data := JObj 0 [(lit "from", JStr fromPhase); (lit "to", JStr toPhase);
                       (lit "reason", JStr reason)];
     c_options :=
       {| o_brief := Some (lit "Phase: " ++ fromPhase ++ lit " " ++ arrow ++ lit " " ++ toPhase);
          o_references := Some (match reason with
                                | [] => []
                                | _ => [lit "reason: " ++ reason]
                                end);
          o_agent := None |};
     c_entropy := en |}.

Definition assign_call (agentType role task : jsstring) (en : Entropy) : EmitCall :=
  {| c_type := lit "agent_assigned";
     c_data := JObj 0 [(lit "agent", JStr agentType); (lit "role", JStr role);
                       (lit "task", JStr task)];
     c_options :=
       {| o_brief := Some (agentType ++ lit " assigned as " ++ role);
          o_references := Some (match task with
                                | [] => []
                                | _ => [lit "task: " ++ task]
                                end);
          o_agent := None |};
     c_entropy := en |}.

(** [logDiscovery(finding, source = '', confidence = 'medium')] *)
Definition discovery_call (finding source confidence : jsstring) (en : Entropy) : EmitCall :=
  {| c_type := lit "discovery";
     c_data := JObj 0 [(lit "finding", JStr finding); (lit "source", JStr source);
                       (lit "confidence", JStr confidence)];
     c_options :=
       {| o_brief := Some (lit "Discovery: " ++ substring0 40 finding ++ lit "...");
          o_references := Some (match source with
                                | [] => []
                                | _ => [source]
                                end);
          o_agent := None |};
     c_entropy := en |}.

Definition logDiscovery (hooks : gmap jsstring (list Hook))
    (finding source confidence : jsstring) (en : Entropy) : Action jsstring :=
  emit_call hooks (discovery_call finding source confidence en).

(** [logResearch(topic, conclusion, references = [])] *)
Definition research_call (topic conclusion : jsstring) (references : list jsstring)
    (en : Entropy) : EmitCall :=
  {| c_type := lit "research_complete";
     c_data := JObj 0 [(lit "topic", JStr topic); (lit "conclusion", JStr conclusion);
                       (lit "references", JArr 0 (map JStr references))];
     c_options :=
       {| o_brief := Some (lit "Research: " ++ topic ++ lit " - "
                           ++ substring0 30 conclusion ++ lit "...");
          o_references := Some references;
          o_agent := None |};
     c_entropy := en |}.

Definition logResearch (hooks : gmap jsstring (list Hook))
    (topic conclusion : jsstring) (references : list jsstring) (en : Entropy)
    : Action jsstring :=
  emit_call hooks (research_call topic conclusion references en).

(** A page with the diagram in it, and a gate review. *)
Definition drawn_page : Host :=
  {| console := []; localStorage := []; sent := []; svg := true; mcpAvailable := false;
     mcpCalls := []; webSocket := true; timers := []; rejections := [] |}.

Definition review (gate status : string) (n : Z) : EmitCall :=
  {| c_type := lit "gate_review";
     c_data := JObj 0 [(lit "gate", JStr (lit gate)); (lit "status", JStr (lit status))];
     c_options := no_options;
     c_entropy := at_time n |}.

(** The code unit of the underscore in an event id. *)
Definition underscore : N := 95%N.

End Api.

(** * Strings *)

Module JSFacts.
Import JS.

Lemma jsstring_eqb_true (a b : jsstring) : jsstring_eqb a b = true <-> a = b.
Proof. unfold jsstring_eqb. apply bool_decide_eq_true. Qed.

Lemma jsstring_eqb_false (a b : jsstring) : jsstring_eqb a b = false <-> a <> b.
Proof. unfold jsstring_eqb. apply bool_decide_eq_false. Qed.

End JSFacts.

(** * Properties of the tool handlers *)

Module ServerFacts.
Import JS JSFacts Db Server.

Lemma matches_key p n r : matches p n r = true <-> key r = (p, n).
Proof.
  unfold matches, key. rewrite andb_true_iff, !jsstring_eqb_true.
  split; [intros [-> ->]; reflexivity | intros [= -> ->]; auto].
Qed.

Lemma filter_none {A} (f : A -> bool) (l : list A) :
  (forall x, In x l -> f x = false) -> List.filter f l = [].
Proof.
  induction l as [|a l IH]; simpl; intros H; [reflexivity|].
  rewrite (H a) by auto. apply IH. intros x Hx. apply H. auto.
Qed.

Lemma filter_length_le {A} (f g : A -> bool) (l : list A) :
  (forall x, In x l -> f x = true -> g x = true) ->
  (length (List.filter f l) <= length (List.filter g l))%nat.
Proof.
  induction l as [|a l IH]; simpl; intros H; [lia|].
  assert (IH' := IH (fun x Hx => H x (or_intror Hx))).
  destruct (f a) eqn:Hf.
  - rewrite (H a) by auto. simpl. lia.
  - destruct (g a); simpl; lia.
Qed.

Lemma filter_map_length {A} (f : A -> bool) (h : A -> A) (l : list A) :
  (forall x, In x l -> f (h x) = f x) ->
  length (List.filter f (map h l)) = length (List.filter f l).
Proof.
  induction l as [|a l IH]; simpl; intros H; [reflexivity|].
  rewrite (H a) by auto. destruct (f a); simpl; rewrite IH; auto.
Qed.

(** Under [UNIQUE(project_id, name)] a [WHERE project_id = ? AND name = ?]
    selects at most one row. *)
Lemma unique_name_one_row p n rows :
  NoDup (map key rows) -> (length (List.filter (matches p n) rows) <= 1)%nat.
Proof.
  induction rows as [|r rows IH]; simpl; intros Hnd; [lia|].
  apply NoDup_cons in Hnd as [Hnotin Hnd].
  destruct (matches p n r) eqn:Hm; [|auto].
  rewrite filter_none; [simpl; lia|].
  intros x Hx. destruct (matches p n x) eqn:Hx'; [|reflexivity].
  exfalso. apply Hnotin. apply matches_key in Hm, Hx'.
  rewrite Hm, <- Hx'. apply list_elem_of_In, in_map, Hx.
Qed.

Lemma key_set_completed now r : key (set_completed now r) = key r.
Proof. reflexivity. Qed.

Lemma matches_same_key p n r r' : key r' = key r -> matches p n r' = matches p n r.
Proof.
  intros Hk. destruct (matches p n r) eqn:Hm.
  - apply matches_key. rewrite Hk. by apply matches_key.
  - destruct (matches p n r') eqn:Hm'; [|reflexivity].
    apply matches_key in Hm'. rewrite Hk in Hm'. apply matches_key in Hm'. congruence.
Qed.

Lemma is_active_in_spec q r :
  is_active_in q r = true <-> ph_project_id r = q /\ ph_status r = Some active.
Proof.
  unfold is_active_in. rewrite andb_true_iff, jsstring_eqb_true, bool_decide_eq_true.
  reflexivity.
Qed.

Lemma completed_not_active now q r : is_active_in q (set_completed now r) = false.
Proof.
  destruct (is_active_in q (set_completed now r)) eqn:H; [|reflexivity].
  apply is_active_in_spec in H as [_ H]. simpl in H. vm_compute in H. discriminate.
Qed.

Lemma key_moved args env r : key (moved args env r) = key r.
Proof.
  unfold moved.
  destruct (matches _ (fromPhase args) r); destruct (matches _ (toPhase args) _); reflexivity.
Qed.

Lemma logEvent_phases params uuid now db :
  phases (fst (logEvent params uuid now db)) = phases db.
Proof.
  unfold logEvent. destruct (existsb _ _); [reflexivity|].
  destruct (negb _); reflexivity.
Qed.

Lemma transition_phases args env db :
  phases (fst (transition_phase args env db)) = map (moved args env) (phases db).
Proof.
  unfold transition_phase.
  pose proof (logEvent_phases (transition_event args) (uuid env) (at_log env)
                (activate_new args env (mark_old args env db))) as H.
  unfold log_transition.
  destruct (logEvent _ _ _ _) as [db3 [row|e]]; simpl in *; rewrite H;
    unfold update_phases; rewrite map_map; reflexivity.
Qed.

Lemma transition_names_unique args env db :
  names_unique db -> names_unique (fst (transition_phase args env db)).
Proof.
  unfold names_unique. rewrite transition_phases, map_map.
  intros H. erewrite map_ext; [exact H|]. intros r. apply (key_moved args env r).
Qed.

Lemma transition_single_active args env db :
  names_unique db -> single_active db ->
  names_the_active (projectId args) (fromPhase args) db = true ->
  single_active (fst (transition_phase args env db)).
Proof.
  intros Hu Hs Hn q. unfold active_count. rewrite transition_phases.
  destruct (decide (q = projectId args)) as [->|Hq].
  - etransitivity; [|apply (unique_name_one_row (projectId args) (toPhase args)), Hu].
    rewrite <- (filter_map_length (matches (projectId args) (toPhase args)) (moved args env))
      by (intros; apply matches_same_key, key_moved).
    apply filter_length_le. intros r' Hin Hact.
    apply in_map_iff in Hin as (r & <- & Hin).
    rewrite (matches_same_key _ _ r) by apply key_moved.
    unfold moved in Hact.
    destruct (matches (projectId args) (fromPhase args) r) eqn:Hfrom.
    + rewrite (matches_same_key _ _ r) in Hact by apply key_set_completed.
      destruct (matches (projectId args) (toPhase args) r); [reflexivity|].
      by rewrite completed_not_active in Hact.
    + destruct (matches (projectId args) (toPhase args) r); [reflexivity|].
      unfold names_the_active in Hn. rewrite forallb_forall in Hn.
      specialize (Hn r Hin). rewrite Hact in Hn. simpl in Hn.
      apply is_active_in_spec in Hact as [Hp _].
      unfold matches in Hfrom. rewrite Hn in Hfrom.
      rewrite (proj2 (jsstring_eqb_true _ _) Hp) in Hfrom. discriminate.
  - rewrite filter_map_length; [apply Hs|].
    intros r _. unfold moved, is_active_in.
    assert (Hne : forall n x, matches (projectId args) n x = true ->
                              jsstring_eqb (ph_project_id x) q = false).
    { intros n x Hm. apply jsstring_eqb_false. apply matches_key in Hm.
      injection Hm as Hm _. congruence. }
    destruct (matches _ (fromPhase args) r) eqn:H1.
    + destruct (matches _ (toPhase args) _) eqn:H2; simpl; rewrite (Hne _ _ H1); reflexivity.
    + destruct (matches _ (toPhase args) r) eqn:H2; [|reflexivity].
      simpl. rewrite (Hne _ _ H2). reflexivity.
Qed.

Lemma existsb_false {A} (f : A -> bool) (l : list A) :
  existsb f l = false -> forall x, In x l -> f x = false.
Proof.
  intros H x Hx. destruct (f x) eqn:Hf; [|reflexivity].
  rewrite <- H. symmetry. apply existsb_exists. eauto.
Qed.

Lemma createPhase_names_unique project params uuid isoNow now db :
  names_unique db -> names_unique (fst (createPhase project params uuid isoNow now db)).
Proof.
  unfold names_unique, createPhase. intros Hu.
  destruct (existsb _ _); [exact Hu|].
  destruct (existsb (matches project (pp_name params)) (phases db)) eqn:Hex; [exact Hu|].
  destruct (negb _); [exact Hu|]. simpl.
  rewrite map_app. apply NoDup_app. split; [exact Hu|]. split.
  - intros k Hk Hk'. apply list_elem_of_In in Hk', Hk. destruct Hk' as [<-|[]].
    apply in_map_iff in Hk as (r & Hr & Hin).
    pose proof (existsb_false _ _ Hex r Hin) as Hm.
    assert (matches project (pp_name params) r = true) by (apply matches_key; exact Hr).
    congruence.
  - apply NoDup_singleton.
Qed.

Lemma createPhase_single_active project params uuid isoNow now db :
  single_active db ->
  negb (jsstring_eqb (or_else (pp_status params) pending) active)
  || (active_count project db =? 0)%nat = true ->
  single_active (fst (createPhase project params uuid isoNow now db)).
Proof.
  unfold createPhase. intros Hs Hc.
  destruct (existsb _ _); [exact Hs|].
  destruct (existsb (matches project (pp_name params)) (phases db)); [exact Hs|].
  destruct (negb (mem _ _)); [exact Hs|]. simpl.
  intros q. unfold active_count. simpl. rewrite List.filter_app, length_app. simpl.
  specialize (Hs q). unfold active_count in Hs.
  destruct (is_active_in q _) eqn:Hact; simpl; [|lia].
  apply is_active_in_spec in Hact as [Hq Hst]. simpl in Hq, Hst. subst q.
  apply orb_true_iff in Hc as [Hc|Hc].
  - apply negb_true_iff, jsstring_eqb_false in Hc. congruence.
  - apply Nat.eqb_eq in Hc. unfold active_count in Hc. simpl in Hc. lia.
Qed.

Lemma handle_invariant req db :
  names_unique db /\ single_active db -> careful req db = true ->
  names_unique (handle req db) /\ single_active (handle req db).
Proof.
  intros [Hu Hs] Hc. destruct req as [args env|project params uuid isoNow now]; simpl in *.
  - split; [by apply transition_names_unique | by apply transition_single_active].
  - split; [by apply createPhase_names_unique | by apply createPhase_single_active].
Qed.

(** C1, as the code has it.  The handler checks nothing, so the invariant is
    the caller's to keep: over every sequence of phase creations and
    transitions in which each transition starts from the phase that is
    active and a phase is created active only in a project without an active
    phase, the names stay unique per project and at most one phase of every
    project is active. *)
Theorem single_active_when_careful (reqs : list Request) (db : Database) :
  names_unique db -> single_active db -> all_careful reqs db = true ->
  single_active (serve reqs db).
Proof.
  intros Hu Hs. assert (Hinv : names_unique db /\ single_active db) by auto.
  clear Hu Hs. revert db Hinv.
  induction reqs as [|req reqs IH]; simpl; intros db Hinv Hc; [apply Hinv|].
  apply andb_true_iff in Hc as [Hc Hrest].
  apply IH; [|exact Hrest]. by apply handle_invariant.
Qed.

Lemma single_active_when_careful_witness :
  single_active
    (serve [create "discovery" "active" "ph-1"; create "planning" "pending" "ph-2";
            Transition (transition_args "discovery" "planning") (env_with "ev-1")]
       empty_db).
Proof.
  apply single_active_when_careful.
  - apply NoDup_nil_2.
  - intros q. unfold active_count. simpl. lia.
  - vm_compute. reflexivity.
Defined.

(** C1 as stated fails: with [discovery] active, a transition that names
    [planning] as its source leaves [discovery] active and activates
    [development] next to it. *)
Lemma two_active_after_transition :
  active_count P1 test_db = 1%nat /\
  active_count P1
    (fst (transition_phase (transition_args "planning" "development") (env_with "ev-1")
            test_db)) = 2%nat /\
  ~ single_active
      (fst (transition_phase (transition_args "planning" "development") (env_with "ev-1")
              test_db)).
Proof.
  split; [vm_compute; reflexivity|]. split; [vm_compute; reflexivity|].
  intros H. specialize (H P1). vm_compute in H. lia.
Qed.

(** C2, as the code has it.  Nothing is validated: for every call on a known
    project by a known agent (or none) with an unused event id, whether or
    not [fromPhase] is the active phase and whether or not [toPhase] exists,
    the call answers [success], logs exactly one [phase_transition] event,
    completes the rows named [fromPhase] and activates those named
    [toPhase]; a row of another name or project keeps all its columns, and
    if no row of the project bears either name no row changes. *)
Theorem transition_phase_unchecked (args : TransitionArgs) (env : CallEnv) (db : Database) :
  mem (projectId args) (projects db) = true ->
  refers (or_null (Some (triggeredBy args))) (agents db) = true ->
  existsb (fun r => jsstring_eqb (ev_id r) (uuid env)) (events db) = false ->
  let db' := fst (transition_phase args env db) in
  snd (transition_phase args env db) = success args /\
  (exists row, events db' = events db ++ [row]
               /\ ev_type row = lit "phase_transition"
               /\ ev_project_id row = projectId args) /\
  phases db' = map (moved args env) (phases db) /\
  (forall r, matches (projectId args) (fromPhase args) r = false ->
             matches (projectId args) (toPhase args) r = false ->
             moved args env r = r) /\
  (existsb (matches (projectId args) (fromPhase args)) (phases db) = false ->
   existsb (matches (projectId args) (toPhase args)) (phases db) = false ->
   phases db' = phases db).
Proof.
  intros Hp Ha Hid db'.
  assert (Hsame : forall r, matches (projectId args) (fromPhase args) r = false ->
             matches (projectId args) (toPhase args) r = false -> moved args env r = r).
  { intros r H1 H2. unfold moved. rewrite H1, H2. reflexivity. }
  assert (Hph : phases db' = map (moved args env) (phases db)) by apply transition_phases.
  assert (Hrun : transition_phase args env db =
            (with_events (activate_new args env (mark_old args env db))
               (events db ++ [event_row (transition_event args) (uuid env) (at_log env)]),
             success args)).
  { unfold transition_phase, log_transition, logEvent. simpl events.
    rewrite Hid. simpl projects. simpl agents. simpl in Ha |- *.
    rewrite Hp, Ha. reflexivity. }
  subst db'. rewrite Hrun in *. simpl. repeat split; auto.
  - eexists. split; [reflexivity|]. split; reflexivity.
  - intros H1 H2. simpl in Hph. rewrite Hph.
    rewrite <- (map_id (phases db)) at 2. apply map_ext_in.
    intros r Hr. apply Hsame; eapply existsb_false; eauto.
Qed.

Lemma transition_phase_unchecked_witness :
  snd (transition_phase (transition_args "planning" "nowhere") (env_with "ev-1") test_db)
  = success (transition_args "planning" "nowhere").
Proof.
  apply (transition_phase_unchecked (transition_args "planning" "nowhere")
           (env_with "ev-1") test_db); vm_compute; reflexivity.
Defined.

(** C2 as stated fails.  In the test database [discovery] is the active
    phase.  A transition from [planning] is answered with success, logs a
    [phase_transition] event and rewrites two phases; one from [discovery]
    to a phase that does not exist is answered with success as well and
    leaves the project without an active phase. *)
Lemma invalid_transition_goes_through :
  option_map ph_name (getCurrentPhase P1 test_db) = Some (lit "discovery") /\
  events test_db = [] /\
  (let '(db', answer) :=
     transition_phase (transition_args "planning" "development") (env_with "ev-1") test_db in
   answer = success (transition_args "planning" "development") /\
   map ev_type (events db') = [lit "phase_transition"] /\
   statuses db' =
     [(lit "discovery", Some active); (lit "planning", Some completed);
      (lit "development", Some active); (lit "launch", Some pending);
      (lit "growth", Some pending); (lit "optimization", Some pending)]) /\
  (let '(db', answer) :=
     transition_phase (transition_args "discovery" "nowhere") (env_with "ev-1") test_db in
   answer = success (transition_args "discovery" "nowhere") /\
   map ev_type (events db') = [lit "phase_transition"] /\
   getCurrentPhase P1 db' = None).
Proof. vm_compute. repeat split; reflexivity. Qed.

(** *** Two calls in flight *)

Section TwoCalls.

Variables (a b : Call) (db0 : Database).

Hypothesis known_a : known db0 a.
Hypothesis known_b : known db0 b.
Hypothesis distinct : uuid (call_env a) <> uuid (call_env b).

Lemma fresh_in_db0 (c : Call) r :
  known db0 c -> In r (events db0) -> ev_id r <> uuid (call_env c).
Proof.
  intros (_ & _ & Hf) Hr Heq.
  apply (existsb_false _ _ Hf) in Hr. apply jsstring_eqb_false in Hr. auto.
Qed.

Lemma log_step (c : Call) (db : Database) :
  known db0 c -> projects db = projects db0 -> agents db = agents db0 ->
  (forall r, In r (events db) -> ev_id r <> uuid (call_env c)) ->
  step (call_args c) (call_env c) AtLog db =
    (Returned (success (call_args c)),
     with_events db (events db ++
       [event_row (transition_event (call_args c)) (uuid (call_env c)) (at_log (call_env c))])).
Proof.
  intros (Hp & Ha & _) Hprojects Hagents Hfresh.
  unfold step, log_transition, logEvent.
  assert (existsb (fun r => jsstring_eqb (ev_id r) (uuid (call_env c))) (events db) = false)
    as ->.
  { destruct (existsb _ _) eqn:Hex; [|reflexivity].
    apply existsb_exists in Hex as (r & Hr & Heq). apply jsstring_eqb_true in Heq.
    destruct (Hfresh r Hr Heq). }
  simpl in Ha |- *. rewrite Hprojects, Hagents, Hp, Ha. reflexivity.
Qed.

Lemma run_inv schedule : forall pa pb db,
  inv a b db0 pa pb db ->
  let '(pa', pb', db') := run a b schedule pa pb db in
  inv a b db0 pa' pb' db' /\
  owes pa' = (owes pa - turns true schedule)%nat /\
  owes pb' = (owes pb - turns false schedule)%nat.
Proof.
  induction schedule as [|who rest IH]; intros pa pb db Hinv.
  - simpl. repeat split; try apply Hinv; unfold turns; simpl; lia.
  - destruct Hinv as (Hp & Ha & Hlen & Hids & Hra & Hrb).
    destruct who; simpl.
    + assert (Hstep : exists pa' db',
                step (call_args a) (call_env a) pa db = (pa', db')
                /\ inv a b db0 pa' pb db' /\ owes pa' = (owes pa - 1)%nat).
      { destruct pa as [| | |r].
        - do 2 eexists. split; [reflexivity|]. repeat split; auto; discriminate.
        - do 2 eexists. split; [reflexivity|]. repeat split; auto; discriminate.
        - rewrite log_step; auto.
          + do 2 eexists. split; [reflexivity|]. split; [|reflexivity].
            repeat split; simpl; auto.
            * rewrite length_app, Hlen. simpl. lia.
            * intros r Hr. apply in_app_or in Hr as [Hr|[<-|[]]].
              -- destruct (Hids r Hr) as [H|[[_ H]|H]]; auto. discriminate.
              -- right. left. auto.
            * intros r [= <-]. reflexivity.
          + intros r Hr Heq. destruct (Hids r Hr) as [H|[[_ H]|[H _]]].
            * by apply (fresh_in_db0 a r known_a).
            * discriminate.
            * apply distinct. congruence.
        - do 2 eexists. split; [reflexivity|]. repeat split; auto. }
      destruct Hstep as (pa' & db' & -> & Hinv' & Howes).
      specialize (IH pa' pb db' Hinv').
      destruct (run a b rest pa' pb db') as [[pa'' pb''] db''].
      destruct IH as (H1 & H2 & H3). split; [exact H1|].
      unfold turns in *. simpl. split; lia.
    + assert (Hstep : exists pb' db',
                step (call_args b) (call_env b) pb db = (pb', db')
                /\ inv a b db0 pa pb' db' /\ owes pb' = (owes pb - 1)%nat).
      { destruct pb as [| | |r].
        - do 2 eexists. split; [reflexivity|]. repeat split; auto; discriminate.
        - do 2 eexists. split; [reflexivity|]. repeat split; auto; discriminate.
        - rewrite log_step; auto.
          + do 2 eexists. split; [reflexivity|]. split; [|reflexivity].
            repeat split; simpl; auto.
            * rewrite length_app, Hlen. simpl. lia.
            * intros r Hr. apply in_app_or in Hr as [Hr|[<-|[]]].
              -- destruct (Hids r Hr) as [H|[H|[_ H]]]; auto. discriminate.
              -- right. right. auto.
            * intros r [= <-]. reflexivity.
          + intros r Hr Heq. destruct (Hids r Hr) as [H|[[H _]|[_ H]]].
            * by apply (fresh_in_db0 b r known_b).
            * apply distinct. congruence.
            * discriminate.
        - do 2 eexists. split; [reflexivity|]. repeat split; auto. }
      destruct Hstep as (pb' & db' & -> & Hinv' & Howes).
      specialize (IH pa pb' db' Hinv').
      destruct (run a b rest pa pb' db') as [[pa'' pb''] db''].
      destruct IH as (H1 & H2 & H3). split; [exact H1|].
      unfold turns in *. simpl. split; lia.
Qed.

(** C3, as the code has it.  There is no lock and no [TransitionInProgress]:
    of two calls in flight on one database (on the same project or not),
    both known to it and with different event ids, each runs its three
    statements whenever the schedule lets it, and under every interleaving
    that gives both of them their turns both answer [success] and both log
    their event. *)
Theorem both_calls_succeed schedule :
  (3 <= turns true schedule)%nat -> (3 <= turns false schedule)%nat ->
  let '(pa, pb, db) := run a b schedule AtOld AtOld db0 in
  pa = Returned (success (call_args a)) /\
  pb = Returned (success (call_args b)) /\
  length (events db) = (length (events db0) + 2)%nat.
Proof.
  intros Ha Hb.
  pose proof (run_inv schedule AtOld AtOld db0) as H.
  destruct (run a b schedule AtOld AtOld db0) as [[pa pb] db].
  destruct H as ((_ & _ & Hlen & _ & Hra & Hrb) & Hoa & Hob).
  { repeat split; simpl; auto; try discriminate. lia. }
  simpl in Hoa, Hob.
  destruct pa as [| | |ra]; simpl in Hoa; try lia.
  destruct pb as [| | |rb]; simpl in Hob; try lia.
  rewrite (Hra ra eq_refl), (Hrb rb eq_refl). simpl in Hlen. repeat split. lia.
Qed.

End TwoCalls.

Lemma both_calls_succeed_witness :
  let '(pa, pb, db) :=
    run {| call_args := transition_args "discovery" "planning"; call_env := env_with "ev-1" |}
        {| call_args := transition_args "discovery" "planning"; call_env := env_with "ev-2" |}
        [true; false; false; true; true; false] AtOld AtOld test_db in
  pa = Returned (success (transition_args "discovery" "planning")) /\
  pb = Returned (success (transition_args "discovery" "planning")) /\
  length (events db) = (length (events test_db) + 2)%nat.
Proof.
  apply (both_calls_succeed
           {| call_args := transition_args "discovery" "planning"; call_env := env_with "ev-1" |}
           {| call_args := transition_args "discovery" "planning"; call_env := env_with "ev-2" |}
           test_db).
  - repeat split; vm_compute; reflexivity.
  - repeat split; vm_compute; reflexivity.
  - vm_compute. discriminate.
  - vm_compute. lia.
  - vm_compute. lia.
Defined.

(** C3 as stated fails.  Two calls on the same project take turns statement
    by statement, one from [discovery] to [planning], the other from
    [discovery] to [development]: neither is refused, both answer success,
    both events are logged and both targets end up active. *)
Lemma concurrent_transitions_both_go_through :
  let '(pa, pb, db) :=
    run {| call_args := transition_args "discovery" "planning"; call_env := env_with "ev-1" |}
        {| call_args := transition_args "discovery" "development"; call_env := env_with "ev-2" |}
        [true; false; true; false; true; false] AtOld AtOld test_db in
  pa = Returned (success (transition_args "discovery" "planning")) /\
  pb = Returned (success (transition_args "discovery" "development")) /\
  map ev_type (events db) = [lit "phase_transition"; lit "phase_transition"] /\
  statuses db =
    [(lit "discovery", Some completed); (lit "planning", Some active);
     (lit "development", Some active); (lit "launch", Some pending);
     (lit "growth", Some pending); (lit "optimization", Some pending)].
Proof. vm_compute. repeat split; reflexivity. Qed.

End ServerFacts.

(** * Properties of the event framework *)

Module FrameworkFacts.
Import JS JSFacts Framework.

(** ** Dispatch *)

Lemma bind_run {A B} (m : Action A) (k : A -> Action B) s :
  (m ≫= k) s = match m s with
               | (s', Normal a) => k a s'
               | (s', Throw e) => (s', Throw e)
               end.
Proof. reflexivity. Qed.

Lemma invoke_run eventType event hook s :
  invoke eventType event hook s
  = (after_call eventType hook (fn hook event s), Normal tt).
Proof.
  unfold invoke, try_catch, after_call.
  destruct (async hook); rewrite bind_run;
    destruct (fn hook event s) as [s' [[|reason]|error]]; reflexivity.
Qed.

(** The loop of [executeHooks] runs to its end whatever the handlers do. *)
Lemma forEach_invoke eventType event l : forall s,
  forEach l (invoke eventType event) s = (dispatch eventType event l s, Normal tt).
Proof.
  induction l as [|hook l IH]; intros s; [reflexivity|].
  simpl. rewrite bind_run, invoke_run. apply IH.
Qed.

Lemma executeHooks_run hooks eventType event s :
  executeHooks hooks eventType event s
  = (dispatch eventType event (bound eventType hooks) s, Normal tt).
Proof. apply forEach_invoke. Qed.

Lemma dispatch_app eventType event l1 l2 s :
  dispatch eventType event (l1 ++ l2) s
  = dispatch eventType event l2 (dispatch eventType event l1 s).
Proof. apply foldl_app. Qed.

(** C6.  A handler that throws is caught and logged, and the handlers bound
    behind it are called all the same: if [hook] throws when its turn comes,
    [executeHooks] returns normally, and the store it leaves is the one
    obtained by logging the error and calling, in order, every handler bound
    after [hook].  Whether [hook] was bound with [async] or not makes no
    difference; the claim is the case [async hook = false].  In general the
    dispatch of any list is the call of each of its handlers in turn. *)
Theorem executeHooks_isolates_failure hooks eventType event earlier hook later s s' error :
  bound eventType hooks = earlier ++ hook :: later ->
  async hook = false ->
  fn hook event (dispatch eventType event earlier s) = (s', Throw error) ->
  executeHooks hooks eventType event s
  = (dispatch eventType event later
       {| self := self s';
          host := add_console
                    (ERROR, [AText (lit "Hook error for " ++ eventType ++ lit ":");
                             AError error])
                    (host s') |},
     Normal tt)
  /\ (forall l h s0, dispatch eventType event (h :: l) s0
                     = dispatch eventType event l (after_call eventType h (fn h event s0))).
Proof.
  intros Hbound _ Hthrow. split; [|reflexivity].
  rewrite executeHooks_run, Hbound, dispatch_app. simpl.
  rewrite Hthrow. reflexivity.
Qed.

Lemma executeHooks_isolates_failure_witness :
  console
    (host (fst (executeHooks three_hooks (lit "build_done") build_done
                  (store (constructor offline_options page)))))
  = [(LOG, [AText (lit "PDL Framework running in offline mode")]);
     (LOG, [AText (lit "first")]);
     (ERROR, [AText (lit "Hook error for build_done:"); AError (TypeError "boom")]);
     (LOG, [AText (lit "last")])].
Proof.
  pose proof (executeHooks_isolates_failure three_hooks (lit "build_done") build_done
    [ {| fn := says "first"; priority := 2; async := false |} ]
    {| fn := fails "boom"; priority := 1; async := false |}
    [ {| fn := says "last"; priority := 0; async := false |} ]
    (store (constructor offline_options page)) _ (TypeError "boom")
    eq_refl eq_refl eq_refl) as [H _].
  rewrite H. reflexivity.
Defined.

(** ** The order of the handlers *)

Lemma bound_register eventType hooks r :
  bound eventType (register hooks r)
  = if jsstring_eqb (r_type r) eventType
    then sort by_priority (bound eventType hooks ++ [entry_of r])
    else bound eventType hooks.
Proof.
  unfold register, registerHook, bound at 1.
  destruct (jsstring_eqb (r_type r) eventType) eqn:Heq.
  - apply jsstring_eqb_true in Heq. subst. rewrite lookup_insert_eq. reflexivity.
  - apply jsstring_eqb_false in Heq. rewrite lookup_insert_ne by exact Heq. reflexivity.
Qed.

Lemma insert_sorted_first (hook : Hook) (l : list Hook) :
  Forall (fun z => priority z <= priority hook) l ->
  insert_sorted by_priority hook l = hook :: l.
Proof.
  destruct l as [|z l]; [reflexivity|]. intros Hall.
  apply Forall_cons in Hall as [Hz _]. simpl. unfold by_priority.
  destruct (Z.leb_spec (priority z - priority hook) 0); [reflexivity | lia].
Qed.

Lemma place_first (x : nat * Hook) (l : list (nat * Hook)) :
  Forall (fun z => priority (snd z) < priority (snd x)) l -> place x l = x :: l.
Proof.
  destruct l as [|z l]; [reflexivity|]. intros Hall.
  apply Forall_cons in Hall as [Hz _]. simpl.
  destruct (Z.leb_spec (priority (snd x)) (priority (snd z))); [lia | reflexivity].
Qed.

Lemma before_priority (x y : nat * Hook) :
  before x y -> priority (snd y) <= priority (snd x).
Proof. unfold before. lia. Qed.

(** Pushing an entry onto an ordered list and sorting puts the entry
    behind those of its priority or more. *)
Lemma sort_push (x : nat * Hook) (tagged : list (nat * Hook)) :
  StronglySorted before tagged ->
  sort by_priority (map snd tagged ++ [snd x]) = map snd (place x tagged).
Proof.
  induction 1 as [|y tagged Hsorted IH Hall]; [reflexivity|].
  assert (Hle : Forall (fun z => priority (snd z) <= priority (snd y)) tagged).
  { eapply Forall_impl; [exact Hall|]. intros z. apply before_priority. }
  unfold sort in *. simpl. rewrite IH.
  destruct (Z.leb_spec (priority (snd x)) (priority (snd y))) as [Hxy|Hxy].
  - apply insert_sorted_first. apply Forall_fmap.
    assert (Hperm : forall l, Forall (fun z => priority (snd z) <= priority (snd y)) l ->
              Forall (fun z => priority (snd z) <= priority (snd y)) (place x l)).
    { clear -Hxy. induction l as [|z l IHl]; intros Hl.
      - repeat constructor. exact Hxy.
      - simpl. apply Forall_cons in Hl as [Hz Hl].
        destruct (priority (snd x) <=? priority (snd z)).
        + constructor; auto.
        + repeat constructor; auto. }
    apply Hperm, Hle.
  - rewrite place_first.
    + simpl. unfold by_priority at 1.
      destruct (Z.leb_spec (priority (snd x) - priority (snd y)) 0); [lia|].
      f_equal. apply insert_sorted_first. apply Forall_fmap. exact Hle.
    + eapply Forall_impl; [exact Hle|]. simpl. intros z Hz. lia.
Qed.

Lemma place_Permutation (x : nat * Hook) (l : list (nat * Hook)) :
  Permutation (place x l) (l ++ [x]).
Proof.
  induction l as [|y l IH]; [reflexivity|]. simpl.
  destruct (priority (snd x) <=? priority (snd y)).
  - by rewrite IH.
  - rewrite (Permutation_app_comm (y :: l) [x]). reflexivity.
Qed.

Lemma place_sorted (x : nat * Hook) (l : list (nat * Hook)) :
  StronglySorted before l -> Forall (fun z => (fst z < fst x)%nat) l ->
  StronglySorted before (place x l).
Proof.
  induction 1 as [|y l Hsorted IH Hall]; intros Hlt.
  - repeat constructor.
  - apply Forall_cons in Hlt as [Hy Hlt]. simpl.
    destruct (Z.leb_spec (priority (snd x)) (priority (snd y))) as [Hxy|Hxy].
    + constructor; [by apply IH|].
      rewrite place_Permutation. apply Forall_app. split; [exact Hall|].
      apply Forall_singleton. unfold before. lia.
    + constructor; [by constructor|].
      constructor; [unfold before; lia|].
      eapply Forall_impl; [exact Hall|]. intros z Hz.
      apply before_priority in Hz. unfold before. lia.
Qed.

Lemma entries_for_snoc eventType regs r :
  entries_for eventType (regs ++ [r])
  = entries_for eventType regs
    ++ (if jsstring_eqb (r_type r) eventType then [entry_of r] else []).
Proof.
  unfold entries_for. rewrite List.filter_app, map_app. simpl.
  destruct (jsstring_eqb (r_type r) eventType); reflexivity.
Qed.

Lemma registered_order eventType regs :
  exists tagged,
    Permutation tagged (imap (fun i hook => (i, hook)) (entries_for eventType regs)) /\
    StronglySorted before tagged /\
    bound eventType (registered regs ∅) = map snd tagged.
Proof.
  induction regs as [|r regs IH] using rev_ind.
  - exists []. repeat split; constructor.
  - destruct IH as (tagged & Hperm & Hsorted & Hbound).
    unfold registered in *. rewrite foldl_app. simpl.
    rewrite bound_register, entries_for_snoc, Hbound.
    destruct (jsstring_eqb (r_type r) eventType).
    + exists (place (length (entries_for eventType regs), entry_of r) tagged).
      split; [|split].
      * rewrite place_Permutation, Hperm, imap_app. simpl.
        rewrite Nat.add_0_r. reflexivity.
      * apply place_sorted; [exact Hsorted|].
        rewrite Hperm. apply Forall_forall. intros [i hook] Hin.
        apply elem_of_lookup_imap in Hin as (j & hook' & [= -> ->] & Hj).
        simpl. by apply lookup_lt_Some in Hj.
      * apply (sort_push (_, entry_of r)), Hsorted.
    + exists tagged. rewrite app_nil_r. auto.
Qed.

Lemma constructor_hooks options h :
  hooks (constructor options h) = registered default_registrations ∅.
Proof. reflexivity. Qed.

(** C7.  After any sequence of [registerHook] calls on a fresh object, the
    handlers bound to an event type are all those registered for it (the
    constructor's own included), each once, ordered by falling priority and,
    for the same priority, by their order of registration; and
    [executeHooks] calls them in exactly that order. *)
Theorem registration_order (regs : list Registration) (options : Options) (h : Host)
    (eventType : jsstring) :
  exists tagged : list (nat * Hook),
    Permutation tagged
      (imap (fun i hook => (i, hook)) (entries_for eventType (default_registrations ++ regs))) /\
    StronglySorted before tagged /\
    bound eventType (registered regs (hooks (constructor options h))) = map snd tagged /\
    forall event s,
      executeHooks (registered regs (hooks (constructor options h))) eventType event s
      = (dispatch eventType event (map snd tagged) s, Normal tt).
Proof.
  destruct (registered_order eventType (default_registrations ++ regs))
    as (tagged & Hperm & Hsorted & Hbound).
  rewrite constructor_hooks.
  assert (Hregs : registered regs (registered default_registrations ∅)
                  = registered (default_registrations ++ regs) ∅).
  { unfold registered. by rewrite foldl_app. }
  rewrite Hregs. exists tagged. split; [exact Hperm|]. split; [exact Hsorted|].
  split; [exact Hbound|].
  intros event s. by rewrite executeHooks_run, Hbound.
Qed.

(** ** What the methods do to the fields *)

Lemma phase_transition_hook_self event s :
  self (fst (phase_transition_hook event s))
  = match getProp (e_data event) (lit "to") with
    | Normal v => set_currentPhase v (self s)
    | Throw _ => self s
    end.
Proof.
  unfold phase_transition_hook. rewrite bind_run. unfold lift.
  destruct (getProp (e_data event) (lit "to")) as [v|err]; [|reflexivity].
  rewrite bind_run. simpl. rewrite bind_run. unfold updatePhaseVisualization.
  rewrite bind_run. simpl. destruct (svg (host s)).
  - unfold highlightPhase. rewrite bind_run. unfold lift.
    destruct (template v); reflexivity.
  - reflexivity.
Qed.

Lemma agent_assigned_hook_self event s :
  self (fst (agent_assigned_hook event s))
  = match getProp (e_data event) (lit "agent") with
    | Normal v => set_activeAgents (add v (activeAgents (self s))) (self s)
    | Throw _ => self s
    end.
Proof.
  unfold agent_assigned_hook. rewrite bind_run. unfold lift.
  destruct (getProp (e_data event) (lit "agent")) as [v|err]; reflexivity.
Qed.

Lemma development_note_hook_external : external development_note_hook.
Proof.
  intros event s. unfold development_note_hook, writeDevelopmentNote.
  rewrite !bind_run. simpl. destruct (mcpAvailable (host s)); reflexivity.
Qed.

Lemma after_call_self eventType hook r :
  self (after_call eventType hook r) = self (fst r).
Proof.
  destruct r as [s [[|reason]|error]]; simpl; try reflexivity.
  destruct (async hook); reflexivity.
Qed.

Lemma addToHistory_run event s :
  addToHistory event s
  = ({| self := set_eventHistory
                  (let pushed := eventHistory (self s) ++ [event] in
                   if Z.of_nat (length pushed) >? maxEventHistory (self s)
                   then slice (- maxEventHistory (self s)) pushed else pushed)
                  (self s);
        host := host s |}, Normal tt).
Proof.
  unfold addToHistory, update_self. simpl.
  destruct (_ >? _); reflexivity.
Qed.

Lemma sendToServer_self event s : self (fst (sendToServer event s)) = self s.
Proof.
  unfold sendToServer. rewrite bind_run. simpl.
  destruct (negb _ && _); [reflexivity|]. destruct (offlineMode _); reflexivity.
Qed.

Lemma sendToServer_normal event s : snd (sendToServer event s) = Normal tt.
Proof.
  unfold sendToServer. rewrite bind_run. simpl.
  destruct (negb _ && _); [reflexivity|]. destruct (offlineMode _); reflexivity.
Qed.

Lemma updateVisualization_self event s : self (fst (updateVisualization event s)) = self s.
Proof.
  unfold updateVisualization. rewrite bind_run. simpl.
  destruct (negb _); [reflexivity|].
  repeat (destruct (jsstring_eqb _ _); [
    repeat (rewrite bind_run; unfold lift;
            destruct (getProp _ _) as [?|?]; [|reflexivity]);
    unfold highlightPhase, showAgentActivity, updateGateStatus;
    rewrite bind_run; unfold lift; destruct (template _); reflexivity |]).
  reflexivity.
Qed.

Lemma run_normal {A} (m : Action A) s a :
  snd (m s) = Normal a -> m s = (fst (m s), Normal a).
Proof. destruct (m s). simpl. by intros ->. Qed.

Lemma addToHistory_normal event s : snd (addToHistory event s) = Normal tt.
Proof. by rewrite addToHistory_run. Qed.

Lemma emit_not_built hooks eventType data options en s error :
  build_event (self s) eventType data options en = Throw error ->
  emit hooks eventType data options en s = (s, Throw error).
Proof.
  intros Hb. unfold emit. rewrite bind_run. simpl. rewrite bind_run. unfold lift.
  rewrite Hb. reflexivity.
Qed.

(** An [emit] that gets to build its event: the event is appended to the
    history, dispatched, sent and drawn, in this order. *)
Lemma emit_built hooks eventType data options en s event :
  build_event (self s) eventType data options en = Normal event ->
  fst (emit hooks eventType data options en s)
  = fst (updateVisualization event
           (fst (sendToServer event
                   (dispatch eventType event (bound eventType hooks)
                      (fst (addToHistory event s)))))).
Proof.
  intros Hb. unfold emit. rewrite bind_run. change (get s) with (s, Normal s).
  cbv beta iota. rewrite bind_run. unfold lift. rewrite Hb.
  rewrite bind_run, (run_normal _ _ tt (addToHistory_normal event s)).
  rewrite bind_run, executeHooks_run.
  rewrite bind_run, (run_normal _ _ tt (sendToServer_normal event _)).
  rewrite bind_run. destruct (updateVisualization event _) as [s2 [[]|err]]; reflexivity.
Qed.

Lemma emit_self_built hooks eventType data options en s event :
  build_event (self s) eventType data options en = Normal event ->
  self (fst (emit hooks eventType data options en s))
  = self (dispatch eventType event (bound eventType hooks) (fst (addToHistory event s))).
Proof.
  intros Hb. rewrite (emit_built _ _ _ _ _ _ _ Hb).
  by rewrite updateVisualization_self, sendToServer_self.
Qed.

(** ** The invariant *)

Lemma sameValueZero_sym a b : sameValueZero a b = sameValueZero b a.
Proof.
  destruct a, b; simpl; try reflexivity; unfold jsstring_eqb;
    apply bool_decide_ext; split; congruence.
Qed.

Lemma sameValueZero_refl a : sameValueZero a a = true.
Proof.
  destruct a; simpl; try reflexivity; unfold jsstring_eqb; by apply bool_decide_eq_true.
Qed.

Lemma has_false v l :
  has v l = false -> forall b, In b l -> sameValueZero v b = false.
Proof.
  unfold has. intros H b Hb. destruct (sameValueZero v b) eqn:Hs; [|reflexivity].
  rewrite <- H. symmetry. apply existsb_exists. eauto.
Qed.

Lemma has_add v l : has v (add v l) = true.
Proof.
  unfold add. destruct (has v l) eqn:H; [exact H|].
  unfold has. rewrite existsb_app. simpl. by rewrite sameValueZero_refl, orb_true_r.
Qed.

Lemma add_present v l : has v l = true -> add v l = l.
Proof. unfold add. by intros ->. Qed.

(** [add] twice is [add] once. *)
Lemma add_add v l : add v (add v l) = add v l.
Proof. apply add_present, has_add. Qed.

Lemma add_distinct v l : distinct l -> distinct (add v l).
Proof.
  unfold add. intros Hd. destruct (has v l) eqn:Hhas; [exact Hd|].
  intros i j a b Hi Hj Hab.
  pose proof (has_false v l Hhas) as Hnew.
  assert (Hin : forall (k : nat) (x : JSValue),
            (k < length l)%nat -> (l ++ [v]) !! k = Some x -> l !! k = Some x /\ In x l).
  { intros k x Hk Hx. rewrite lookup_app_l in Hx by exact Hk.
    split; [exact Hx|]. apply list_elem_of_In. eapply list_elem_of_lookup_2, Hx. }
  assert (Hlast : forall (k : nat) (x : JSValue),
            ~ (k < length l)%nat -> (l ++ [v]) !! k = Some x -> k = length l /\ x = v).
  { intros k x Hk Hx. pose proof (lookup_lt_Some _ _ _ Hx) as Hlt.
    rewrite length_app in Hlt. simpl in Hlt. assert (k = length l) as -> by lia.
    rewrite list_lookup_middle in Hx by reflexivity. split; congruence. }
  destruct (decide (i < length l)%nat) as [Hil|Hil];
    destruct (decide (j < length l)%nat) as [Hjl|Hjl].
  - destruct (Hin i a Hil Hi) as [Hi' _]. destruct (Hin j b Hjl Hj) as [Hj' _].
    by apply (Hd i j a b).
  - destruct (Hin i a Hil Hi) as [_ Ha]. destruct (Hlast j b Hjl Hj) as [_ ->].
    rewrite sameValueZero_sym, (Hnew a Ha) in Hab. discriminate.
  - destruct (Hin j b Hjl Hj) as [_ Hb]. destruct (Hlast i a Hil Hi) as [_ ->].
    rewrite (Hnew b Hb) in Hab. discriminate.
  - destruct (Hlast i a Hil Hi) as [-> _]. destruct (Hlast j b Hjl Hj) as [-> _]. reflexivity.
Qed.

Lemma slice_last {A} (n : nat) (l : list A) :
  (0 < n)%nat -> slice (- Z.of_nat n) l = last_n n l.
Proof.
  intros Hn. unfold slice, last_n.
  destruct (Z.ltb_spec (- Z.of_nat n) 0); [|lia]. f_equal. lia.
Qed.

Lemma last_n_all {A} (n : nat) (l : list A) : (length l <= n)%nat -> last_n n l = l.
Proof. intros H. unfold last_n. by replace (length l - n)%nat with 0%nat by lia. Qed.

Lemma last_n_length {A} (n : nat) (l : list A) :
  length (last_n n l) = Nat.min n (length l).
Proof. unfold last_n. rewrite length_drop. lia. Qed.

(** With the cap at 1000, [addToHistory] leaves the last 1000 of what was
    there and the new event. *)
Lemma addToHistory_history event s :
  maxEventHistory (self s) = 1000 ->
  eventHistory (self (fst (addToHistory event s)))
  = last_n 1000 (eventHistory (self s) ++ [event])
  /\ maxEventHistory (self (fst (addToHistory event s))) = 1000
  /\ currentPhase (self (fst (addToHistory event s))) = currentPhase (self s)
  /\ activeAgents (self (fst (addToHistory event s))) = activeAgents (self s).
Proof.
  intros Hmax. rewrite addToHistory_run. simpl. rewrite Hmax. repeat split.
  destruct (Z.gtb_spec (Z.of_nat (length (eventHistory (self s) ++ [event]))) 1000).
  - apply (slice_last 1000). lia.
  - symmetry. apply last_n_all. lia.
Qed.

Lemma addToHistory_sound event s :
  sound (self s) -> sound (self (fst (addToHistory event s))).
Proof.
  intros (Hmax & Hlen & Hd).
  destruct (addToHistory_history event s Hmax) as (Hh & Hm & _ & Ha).
  repeat split; [exact Hm | | by rewrite Ha].
  rewrite Hh, last_n_length. lia.
Qed.

(** What a tame handler does to the fields: nothing, or the assignment to
    [currentPhase], or the [add] to [activeAgents]. *)
Lemma tame_self eventType f event s :
  tame eventType f ->
  self (fst (f event s)) = self s
  \/ (eventType = lit "phase_transition" /\ f = phase_transition_hook /\
      exists v, getProp (e_data event) (lit "to") = Normal v
                /\ self (fst (f event s)) = set_currentPhase v (self s))
  \/ (eventType = lit "agent_assigned" /\ f = agent_assigned_hook /\
      exists v, getProp (e_data event) (lit "agent") = Normal v
                /\ self (fst (f event s))
                   = set_activeAgents (add v (activeAgents (self s))) (self s)).
Proof.
  intros [Hext|[[-> ->]|[-> ->]]].
  - left. apply Hext.
  - rewrite phase_transition_hook_self.
    destruct (getProp (e_data event) (lit "to")) as [v|err]; [|by left].
    right. left. eauto.
  - rewrite agent_assigned_hook_self.
    destruct (getProp (e_data event) (lit "agent")) as [v|err]; [|by left].
    right. right. eauto.
Qed.

Lemma dispatch_cons eventType event hook l s :
  dispatch eventType event (hook :: l) s
  = dispatch eventType event l (after_call eventType hook (fn hook event s)).
Proof. reflexivity. Qed.

(** A property of the fields that the two assignments of the class's own
    handlers keep is kept by the dispatch to tame handlers. *)
Lemma dispatch_preserves (P : Instance -> Prop) eventType event l :
  (forall i v, P i -> P (set_currentPhase v i)) ->
  (forall i v, P i -> P (set_activeAgents (add v (activeAgents i)) i)) ->
  forall s, (forall hook, In hook l -> tame eventType (fn hook)) ->
  P (self s) -> P (self (dispatch eventType event l s)).
Proof.
  intros Hphase Hagent. induction l as [|hook l IH]; intros s Htame HP; [exact HP|].
  rewrite dispatch_cons. apply IH; [intros; apply Htame; by right|].
  rewrite after_call_self.
  destruct (tame_self eventType (fn hook) event s (Htame hook (or_introl eq_refl)))
    as [->|[(_ & _ & v & _ & ->)|(_ & _ & v & _ & ->)]]; auto.
Qed.

Lemma dispatch_sound eventType event l s :
  (forall hook, In hook l -> tame eventType (fn hook)) ->
  sound (self s) -> sound (self (dispatch eventType event l s)).
Proof.
  apply (dispatch_preserves sound).
  - intros i v H. exact H.
  - intros i v (Hm & Hl & Hd). repeat split; auto. simpl. by apply add_distinct.
Qed.

Lemma dispatch_history eventType event l s :
  (forall hook, In hook l -> tame eventType (fn hook)) ->
  eventHistory (self (dispatch eventType event l s)) = eventHistory (self s).
Proof.
  intros Htame.
  by apply (dispatch_preserves (fun i => eventHistory i = eventHistory (self s))).
Qed.

Lemma emit_sound hooks eventType data options en s :
  all_tame hooks -> sound (self s) ->
  sound (self (fst (emit hooks eventType data options en s))).
Proof.
  intros Htame Hs.
  destruct (build_event (self s) eventType data options en) as [event|error] eqn:Hb.
  - rewrite (emit_self_built _ _ _ _ _ _ _ Hb).
    apply dispatch_sound; [apply Htame|]. by apply addToHistory_sound.
  - by rewrite (emit_not_built _ _ _ _ _ _ _ Hb).
Qed.

Lemma handleIncomingEvent_self hooks data s :
  self (fst (handleIncomingEvent hooks data s))
  = self (dispatch (e_type data) data (bound (e_type data) hooks)
            (fst (addToHistory data s))).
Proof.
  unfold handleIncomingEvent.
  rewrite bind_run, (run_normal _ _ tt (addToHistory_normal data s)).
  rewrite bind_run, executeHooks_run. apply updateVisualization_self.
Qed.

Lemma insert_sorted_Permutation {A} (cmp : A -> A -> Z) x l :
  Permutation (insert_sorted cmp x l) (x :: l).
Proof.
  induction l as [|y l IH]; [reflexivity|]. simpl.
  destruct (cmp x y <=? 0); [reflexivity|].
  rewrite IH. apply perm_swap.
Qed.

Lemma sort_Permutation {A} (cmp : A -> A -> Z) l : Permutation (sort cmp l) l.
Proof.
  unfold sort. induction l as [|x l IH]; [reflexivity|]. simpl.
  by rewrite insert_sorted_Permutation, IH.
Qed.

Lemma In_bound_register eventType hooks r hook :
  In hook (bound eventType (register hooks r)) <->
  In hook (bound eventType hooks) \/ (r_type r = eventType /\ hook = entry_of r).
Proof.
  rewrite bound_register.
  destruct (jsstring_eqb (r_type r) eventType) eqn:Heq.
  - apply jsstring_eqb_true in Heq.
    rewrite <- !list_elem_of_In, sort_Permutation, elem_of_app, list_elem_of_singleton.
    intuition.
  - apply jsstring_eqb_false in Heq. intuition.
Qed.

Lemma register_tame hooks r :
  all_tame hooks -> tame (r_type r) (r_fn r) -> all_tame (register hooks r).
Proof.
  intros Hall Hr eventType hook Hin.
  apply In_bound_register in Hin as [Hin|[<- ->]]; [by apply Hall | exact Hr].
Qed.

Lemma constructor_Inv options h : Inv (constructor options h).
Proof.
  unfold Inv. rewrite constructor_hooks. split; [|split; [|split]].
  - unfold registered, default_registrations. simpl.
    repeat apply register_tame; simpl.
    + intros eventType hook [].
    + right. left. auto.
    + right. right. auto.
    + left. apply development_note_hook_external.
  - exists {| fn := phase_transition_hook; priority := 0; async := false |}.
    split; [|reflexivity]. unfold registered, default_registrations. simpl.
    do 2 (apply In_bound_register; left). apply In_bound_register. right. by split.
  - exists {| fn := agent_assigned_hook; priority := 0; async := false |}.
    split; [|reflexivity]. unfold registered, default_registrations. simpl.
    apply In_bound_register; left. apply In_bound_register. right. by split.
  - unfold constructor. cbv zeta.
    set (offline := match opt_offline options with Some false => false | _ => _ end).
    destruct offline; simpl.
    + repeat split; simpl; [lia|]. intros i j a b Hi. by rewrite lookup_nil in Hi.
    + unfold initWebSocket, try_catch. rewrite bind_run. simpl.
      destruct (webSocket h); simpl;
        (repeat split; simpl; [lia|]; intros i j a b Hi; by rewrite lookup_nil in Hi).
Qed.

Lemma call_store {A} (pdl : PDLFramework) (method : gmap jsstring (list Hook) -> Action A) :
  store (fst (call pdl method)) = fst (method (hooks pdl) (store pdl)).
Proof. unfold call. by destruct (method (hooks pdl) (store pdl)). Qed.

Lemma call_hooks {A} (pdl : PDLFramework) (method : gmap jsstring (list Hook) -> Action A) :
  hooks (fst (call pdl method)) = hooks pdl.
Proof. unfold call. by destruct (method (hooks pdl) (store pdl)). Qed.

Lemma call_Inv {A} (pdl : PDLFramework) (method : gmap jsstring (list Hook) -> Action A) :
  Inv pdl ->
  (sound (self (store pdl)) -> sound (self (fst (method (hooks pdl) (store pdl))))) ->
  Inv (fst (call pdl method)).
Proof.
  intros (Ht & Hp & Ha & Hs) Hstep. unfold Inv.
  rewrite call_hooks, call_store. auto.
Qed.

Lemma handleIncomingEvent_sound hooks data s :
  all_tame hooks -> sound (self s) ->
  sound (self (fst (handleIncomingEvent hooks data s))).
Proof.
  intros Htame Hs. rewrite handleIncomingEvent_self.
  apply dispatch_sound; [apply Htame|]. by apply addToHistory_sound.
Qed.

Lemma onConnectionOpen_self hooks en s :
  self (fst (onConnectionOpen hooks en s))
  = self (fst (emit hooks (lit "system")
                 (JObj 0 [(lit "type", JStr (lit "connection"));
                          (lit "status", JStr (lit "connected"))])
                 no_options en
                 {| self := self s;
                    host := add_console (LOG, [AText (lit "PDL WebSocket connected")])
                              (host s) |})).
Proof. unfold onConnectionOpen. rewrite bind_run. reflexivity. Qed.

Lemma initWebSocket_sound s : sound (self s) -> sound (self (fst (initWebSocket s))).
Proof.
  intros Hs. unfold initWebSocket, try_catch. rewrite bind_run. simpl.
  destruct (webSocket (host s)); exact Hs.
Qed.

(** Every object in use satisfies the invariant. *)
Lemma Reachable_Inv pdl : Reachable pdl -> Inv pdl.
Proof.
  induction 1 as [options h | pdl eventType hookFn options _ IH Hext
                  | pdl eventType data options en _ IH | pdl parsed _ IH
                  | pdl en _ IH | pdl _ IH | pdl error _ IH | pdl _ IH
                  | pdl w _ IH _ | pdl h _ IH].
  - apply constructor_Inv.
  - destruct IH as (Ht & (hp & Hp & Hpf) & (ha & Ha & Haf) & Hs).
    pose (r := {| r_type := eventType; r_fn := hookFn; r_options := options |}).
    change (registerHook eventType hookFn options (hooks pdl)) with (register (hooks pdl) r).
    split; [|split; [|split]]; simpl.
    + apply register_tame; [exact Ht | by left].
    + exists hp. split; [|exact Hpf]. apply In_bound_register. by left.
    + exists ha. split; [|exact Haf]. apply In_bound_register. by left.
    + exact Hs.
  - apply call_Inv; [exact IH|]. apply emit_sound, IH.
  - apply call_Inv; [exact IH|]. intros Hs. unfold onMessage. rewrite bind_run. unfold lift.
    destruct parsed as [data|error]; [|exact Hs].
    apply handleIncomingEvent_sound; [apply IH | exact Hs].
  - apply call_Inv; [exact IH|]. intros Hs. rewrite onConnectionOpen_self.
    apply emit_sound; [apply IH | exact Hs].
  - apply call_Inv; [exact IH|]. intros Hs. exact Hs.
  - apply call_Inv; [exact IH|]. intros Hs. exact Hs.
  - apply call_Inv; [exact IH|]. apply initWebSocket_sound.
  - exact IH.
  - exact IH.
Qed.

(** ** The history buffer *)

Lemma last_n_app {A} (n : nat) (l k : list A) :
  last_n n (last_n n l ++ k) = last_n n (l ++ k).
Proof.
  unfold last_n. rewrite !length_app, length_drop.
  destruct (decide (length l <= n)%nat) as [Hle|Hgt].
  - replace (length l - n)%nat with 0%nat by lia. simpl. f_equal. lia.
  - replace (length l - (length l - n) + length k - n)%nat with (length k) by lia.
    replace (length l + length k - n)%nat with (length l - n + length k)%nat by lia.
    rewrite <- drop_drop. f_equal. rewrite drop_app_le by lia. reflexivity.
Qed.

Lemma emit_history hooks c s event :
  all_tame hooks -> maxEventHistory (self s) = 1000 ->
  built (self s) c = Normal event ->
  eventHistory (self (fst (emit_call hooks c s)))
  = last_n 1000 (eventHistory (self s) ++ [event]).
Proof.
  intros Htame Hmax Hb. unfold emit_call. rewrite (emit_self_built _ _ _ _ _ _ _ Hb).
  rewrite dispatch_history by apply Htame.
  by apply addToHistory_history.
Qed.

Lemma emits_history hooks calls : forall s,
  all_tame hooks -> sound (self s) ->
  sound (self (fst (emits hooks calls s))) /\
  eventHistory (self (fst (emits hooks calls s)))
  = last_n 1000 (eventHistory (self s) ++ snd (emits hooks calls s)).
Proof.
  induction calls as [|c calls IH]; intros s Htame Hs.
  - simpl. split; [exact Hs|]. rewrite app_nil_r. symmetry. apply last_n_all, Hs.
  - simpl.
    assert (Hs1 : sound (self (fst (emit_call hooks c s)))) by by apply emit_sound.
    destruct (IH (fst (emit_call hooks c s)) Htame Hs1) as [IH1 IH2].
    destruct (emits hooks calls (fst (emit_call hooks c s))) as [s2 evs]. simpl in *.
    split; [exact IH1|]. rewrite IH2.
    destruct (built (self s) c) as [event|error] eqn:Hb.
    + rewrite (emit_history hooks c s event Htame (proj1 Hs) Hb).
      rewrite last_n_app, <- app_assoc. reflexivity.
    + unfold emit_call, built in *. by rewrite (emit_not_built _ _ _ _ _ _ _ Hb).
Qed.

(** C4.  On every object in use, after any sequence of [emit] calls the cap
    is 1000, the history holds at most 1000 events, and it is the last 1000
    of what it held before followed by the events the calls built, in their
    order (the oldest go first); so after 1200 events its length is 1000 and
    its first element is the 201st of them. *)
Theorem history_bounded_fifo (pdl : PDLFramework) (calls : list EmitCall) :
  Reachable pdl ->
  let '(s', evs) := emits (hooks pdl) calls (store pdl) in
  maxEventHistory (self s') = 1000 /\
  (length (eventHistory (self s')) <= 1000)%nat /\
  eventHistory (self s') = last_n 1000 (eventHistory (self (store pdl)) ++ evs) /\
  (length evs = 1200%nat ->
   length (eventHistory (self s')) = 1000%nat /\
   eventHistory (self s') !! 0%nat = evs !! 200%nat).
Proof.
  intros Hr. apply Reachable_Inv in Hr as (Htame & _ & _ & Hs).
  destruct (emits_history (hooks pdl) calls (store pdl) Htame Hs) as [(Hm & Hl & _) Hh].
  destruct (emits (hooks pdl) calls (store pdl)) as [s' evs]. simpl in *.
  split; [exact Hm|]. split; [exact Hl|]. split; [exact Hh|].
  intros Hlen. rewrite Hh. unfold last_n. rewrite length_drop, length_app, Hlen.
  destruct Hs as (_ & Hl0 & _). split; [lia|].
  rewrite lookup_drop, lookup_app_r by lia. f_equal. lia.
Qed.

Lemma history_bounded_fifo_witness :
  let s' := fst (emits (hooks (constructor online_options page)) many_notes
                   (store (constructor online_options page))) in
  let evs := snd (emits (hooks (constructor online_options page)) many_notes
                    (store (constructor online_options page))) in
  length evs = 1200%nat /\
  length (eventHistory (self s')) = 1000%nat /\
  eventHistory (self s') !! 0%nat = evs !! 200%nat.
Proof.
  pose proof (history_bounded_fifo (constructor online_options page) many_notes
                (R_new online_options page)) as H.
  rewrite (surjective_pairing (emits _ many_notes _)) in H.
  destruct H as (_ & _ & _ & H).
  assert (Hlen : length (snd (emits (hooks (constructor online_options page)) many_notes
                    (store (constructor online_options page)))) = 1200%nat).
  { vm_compute. reflexivity. }
  cbv zeta. split; [exact Hlen | exact (H Hlen)].
Defined.

(** ** The brief *)

(** The persistence layer cuts every brief to 60 characters. *)
Lemma logEvent_brief_capped params uuid now :
  (length (Db.ev_brief (Db.event_row params uuid now)) <= 60)%nat.
Proof. unfold Db.event_row, substring0. cbn [Db.ev_brief]. rewrite length_take. lia. Qed.

(** The fall-back brief is the type, four characters of punctuation and up
    to 50 characters of JSON: with a type of more than six characters and a
    payload of 50 or more it is longer than 60. *)
Lemma generateBrief_default_length eventType data json :
  eventType <> lit "phase_transition" -> eventType <> lit "agent_assigned" ->
  eventType <> lit "discovery" -> eventType <> lit "research_complete" ->
  eventType <> lit "gate_review" ->
  stringify data = Some json ->
  exists brief, generateBrief eventType data = Normal brief
    /\ length brief = (length eventType + 5 + Nat.min 50 (length json))%nat.
Proof.
  intros H1 H2 H3 H4 H5 Hj. unfold generateBrief.
  rewrite !(proj2 (jsstring_eqb_false _ _)) by assumption. rewrite Hj.
  eexists. split; [reflexivity|].
  unfold substring0. rewrite !length_app, length_take. simpl. lia.
Qed.

(** C5 on the code.  [emit] neither cuts the brief it generates nor the one
    it is given: on a fresh object, a [development_note] with an ordinary
    payload gets a brief of 71 characters, a brief of 75 characters from the
    caller is kept whole, and both events enter the history like that. *)
Theorem emit_brief_exceeds_60 :
  map (fun e => length (e_brief e))
    (eventHistory
       (self (fst (emits (hooks (constructor offline_options page)) [note 0; briefed]
                     (store (constructor offline_options page))))))
  = [71%nat; 75%nat].
Proof. vm_compute. reflexivity. Qed.

(** ** The current phase *)

Lemma build_event_fields i eventType data options en event :
  build_event i eventType data options en = Normal event ->
  e_type event = eventType /\ e_data event = data /\ e_phase event = currentPhase i.
Proof.
  unfold build_event. intros H.
  destruct (match o_brief options with Some (c :: b) => _ | _ => _ end) as [brief|error];
    simpl in H; [|discriminate].
  injection H as <-. auto.
Qed.

Lemma dispatch_sets_phase event v l : forall s,
  getProp (e_data event) (lit "to") = Normal v ->
  (forall hook, In hook l -> tame (lit "phase_transition") (fn hook)) ->
  currentPhase (self s) = v
  \/ (exists hook, In hook l /\ fn hook = phase_transition_hook) ->
  currentPhase (self (dispatch (lit "phase_transition") event l s)) = v.
Proof.
  induction l as [|hook l IH]; intros s Hto Htame Hv.
  - destruct Hv as [Hv|(hook & [] & _)]. exact Hv.
  - rewrite dispatch_cons. apply IH; [exact Hto | intros; apply Htame; by right |].
    rewrite after_call_self.
    destruct Hv as [Hv|(hook' & [<-|Hin] & Hfn)].
    + left.
      destruct (tame_self _ (fn hook) event s (Htame hook (or_introl eq_refl)))
        as [->|[(_ & _ & v' & Hv' & ->)|(Habs & _)]].
      * exact Hv.
      * simpl. congruence.
      * vm_compute in Habs. discriminate.
    + left. rewrite Hfn, phase_transition_hook_self, Hto. reflexivity.
    + right. eauto.
Qed.

Lemma dispatch_keeps_phase eventType event l : forall s,
  eventType <> lit "phase_transition" ->
  (forall hook, In hook l -> tame eventType (fn hook)) ->
  currentPhase (self (dispatch eventType event l s)) = currentPhase (self s).
Proof.
  induction l as [|hook l IH]; intros s Hne Htame; [reflexivity|].
  rewrite dispatch_cons, IH by (auto; intros; apply Htame; by right).
  rewrite after_call_self.
  destruct (tame_self _ (fn hook) event s (Htame hook (or_introl eq_refl)))
    as [->|[(Habs & _)|(_ & _ & v' & _ & ->)]]; [reflexivity | contradiction | reflexivity].
Qed.

Lemma addToHistory_phase event s :
  currentPhase (self (fst (addToHistory event s))) = currentPhase (self s).
Proof. rewrite addToHistory_run. reflexivity. Qed.

Lemma addToHistory_agents event s :
  activeAgents (self (fst (addToHistory event s))) = activeAgents (self s).
Proof. rewrite addToHistory_run. reflexivity. Qed.

(** Events of other types leave [currentPhase] alone and carry it. *)
Lemma emits_carry_phase hooks calls : forall s,
  all_tame hooks ->
  Forall (fun c => c_type c <> lit "phase_transition") calls ->
  currentPhase (self (fst (emits hooks calls s))) = currentPhase (self s) /\
  Forall (fun e => e_phase e = currentPhase (self s)) (snd (emits hooks calls s)).
Proof.
  induction calls as [|c calls IH]; intros s Htame Hcalls; [by split|].
  apply Forall_cons in Hcalls as [Hc Hcalls]. simpl.
  assert (Hstep : currentPhase (self (fst (emit_call hooks c s))) = currentPhase (self s)).
  { unfold emit_call.
    destruct (build_event (self s) (c_type c) (c_data c) (c_options c) (c_entropy c))
      as [event|error] eqn:Hb.
    - rewrite (emit_self_built _ _ _ _ _ _ _ Hb).
      rewrite dispatch_keeps_phase by (auto; apply Htame). apply addToHistory_phase.
    - by rewrite (emit_not_built _ _ _ _ _ _ _ Hb). }
  destruct (IH (fst (emit_call hooks c s)) Htame Hcalls) as [IH1 IH2].
  destruct (emits hooks calls (fst (emit_call hooks c s))) as [s2 evs]. simpl in *.
  rewrite Hstep in IH1, IH2. split; [exact IH1|].
  destruct (built (self s) c) as [event|error] eqn:Hb; [|exact IH2].
  constructor; [|exact IH2]. by apply build_event_fields in Hb as (_ & _ & ->).
Qed.

(** C9.  On every object in use, once an [emit] of a [phase_transition]
    whose payload can be read ([data] is not [undefined] or [null]) has
    returned, [currentPhase] is [data.to]; and through any further [emit]
    calls of other types it stays so, and every event they build carries it
    as its [phase]. *)
Theorem currentPhase_follows_transition (pdl : PDLFramework) (data : JSValue)
    (options : EmitOptions) (en : Entropy) (v : JSValue) (id : jsstring)
    (calls : list EmitCall) :
  Reachable pdl ->
  getProp data (lit "to") = Normal v ->
  snd (call pdl (fun hs => emit hs (lit "phase_transition") data options en)) = Normal id ->
  Forall (fun c => c_type c <> lit "phase_transition") calls ->
  let pdl' := fst (call pdl (fun hs => emit hs (lit "phase_transition") data options en)) in
  currentPhase (self (store pdl')) = v /\
  currentPhase (self (fst (emits (hooks pdl') calls (store pdl')))) = v /\
  Forall (fun e => e_phase e = v) (snd (emits (hooks pdl') calls (store pdl'))).
Proof.
  intros Hr Hto Hdone Hcalls pdl'.
  apply Reachable_Inv in Hr as (Htame & Hphase & _ & _).
  assert (Hv : currentPhase (self (store pdl')) = v).
  { subst pdl'. rewrite call_store.
    destruct (build_event (self (store pdl)) (lit "phase_transition") data options en)
      as [event|error] eqn:Hb.
    - rewrite (emit_self_built _ _ _ _ _ _ _ Hb).
      apply build_event_fields in Hb as (_ & Hdata & _).
      apply dispatch_sets_phase; [by rewrite Hdata | apply Htame | right; exact Hphase].
    - unfold call in Hdone. rewrite (emit_not_built _ _ _ _ _ _ _ Hb) in Hdone.
      discriminate. }
  split; [exact Hv|].
  assert (Hh : hooks pdl' = hooks pdl) by apply call_hooks.
  rewrite Hh, <- Hv. by apply emits_carry_phase.
Qed.

Lemma currentPhase_follows_transition_witness :
  let pdl' := fst (call (constructor offline_options page)
                     (fun hs => emit_call hs (move_to "planning" 0))) in
  currentPhase (self (store pdl')) = JStr (lit "planning") /\
  Forall (fun e => e_phase e = JStr (lit "planning"))
    (snd (emits (hooks pdl') [note 1; assign "architect" 2; note 3] (store pdl'))).
Proof.
  pose proof (currentPhase_follows_transition (constructor offline_options page)
    (c_data (move_to "planning" 0)) no_options (at_time 0) (JStr (lit "planning"))
    (generateEventId (at_time 0)) [note 1; assign "architect" 2; note 3]
    (R_new offline_options page) eq_refl eq_refl) as H.
  cbv zeta in H |- *. destruct H as (H1 & _ & H3).
  - repeat constructor; vm_compute; discriminate.
  - split; [exact H1 | exact H3].
Defined.

(** ** The active agents *)

Lemma dispatch_adds_agent event v l a0 : forall s,
  getProp (e_data event) (lit "agent") = Normal v ->
  (forall hook, In hook l -> tame (lit "agent_assigned") (fn hook)) ->
  activeAgents (self s) = a0 \/ activeAgents (self s) = add v a0 ->
  activeAgents (self s) = add v a0
  \/ (exists hook, In hook l /\ fn hook = agent_assigned_hook) ->
  activeAgents (self (dispatch (lit "agent_assigned") event l s)) = add v a0.
Proof.
  induction l as [|hook l IH]; intros s Hagent Htame Hrange Hv.
  - destruct Hv as [Hv|(hook & [] & _)]. exact Hv.
  - rewrite dispatch_cons.
    assert (Hstep : activeAgents (self (fst (fn hook event s))) = activeAgents (self s)
                    \/ activeAgents (self (fst (fn hook event s))) = add v a0).
    { destruct (tame_self _ (fn hook) event s (Htame hook (or_introl eq_refl)))
        as [->|[(Habs & _)|(_ & _ & v' & Hv' & ->)]].
      - by left.
      - vm_compute in Habs. discriminate.
      - right. simpl. assert (v' = v) as -> by congruence.
        destruct Hrange as [->| ->]; [reflexivity | apply add_add]. }
    apply IH; [exact Hagent | intros; apply Htame; by right | |];
      rewrite after_call_self.
    + destruct Hstep as [->|Hstep]; [exact Hrange | by right].
    + destruct Hv as [Hv|(hook' & [<-|Hin] & Hfn)].
      * left. destruct Hstep as [->|Hstep]; [exact Hv | exact Hstep].
      * left. rewrite Hfn, agent_assigned_hook_self, Hagent. simpl.
        destruct Hrange as [->| ->]; [reflexivity | apply add_add].
      * right. eauto.
Qed.

Lemma dispatch_keeps_agents event error l : forall s,
  getProp (e_data event) (lit "agent") = Throw error ->
  (forall hook, In hook l -> tame (lit "agent_assigned") (fn hook)) ->
  activeAgents (self (dispatch (lit "agent_assigned") event l s)) = activeAgents (self s).
Proof.
  induction l as [|hook l IH]; intros s Hagent Htame; [reflexivity|].
  rewrite dispatch_cons, IH by (auto; intros; apply Htame; by right).
  rewrite after_call_self.
  destruct (tame_self _ (fn hook) event s (Htame hook (or_introl eq_refl)))
    as [->|[(Habs & _)|(_ & _ & v' & Hv' & _)]]; [reflexivity | | congruence].
  vm_compute in Habs. discriminate.
Qed.

(** What one [agent_assigned] does to the set, by what it carries. *)
Lemma emit_agent_assigned hooks c s :
  all_tame hooks -> has_agent_hook hooks ->
  c_type c = lit "agent_assigned" ->
  activeAgents (self (fst (emit_call hooks c s)))
  = match built (self s) c, getProp (c_data c) (lit "agent") with
    | Normal _, Normal v => add v (activeAgents (self s))
    | _, _ => activeAgents (self s)
    end.
Proof.
  intros Htame Hhook Htype. unfold emit_call, built. rewrite Htype.
  destruct (build_event (self s) (lit "agent_assigned") (c_data c) (c_options c)
              (c_entropy c)) as [event|error] eqn:Hb.
  - rewrite (emit_self_built _ _ _ _ _ _ _ Hb).
    apply build_event_fields in Hb as (_ & Hdata & _).
    destruct (getProp (c_data c) (lit "agent")) as [v|error] eqn:Hagent.
    + apply dispatch_adds_agent;
        [by rewrite Hdata | apply Htame | left; apply addToHistory_agents | right; exact Hhook].
    + rewrite (dispatch_keeps_agents event error) by (rewrite ?Hdata; auto; apply Htame).
      apply addToHistory_agents.
  - by rewrite (emit_not_built _ _ _ _ _ _ _ Hb).
Qed.

Lemma emits_one hooks c s : fst (emits hooks [c] s) = fst (emit_call hooks c s).
Proof. reflexivity. Qed.

Lemma emits_two hooks c1 c2 s :
  fst (emits hooks [c1; c2] s) = fst (emit_call hooks c2 (fst (emit_call hooks c1 s))).
Proof. reflexivity. Qed.

(** C10.  On every object in use the agents are pairwise different values
    (no name is there twice), and a second [agent_assigned] with the same
    [data.agent] as one just emitted changes nothing: the set after both is
    the set after the first. *)
Theorem agent_assigned_idempotent (pdl : PDLFramework) (c1 c2 : EmitCall) (e1 : Event) :
  Reachable pdl ->
  c_type c1 = lit "agent_assigned" -> c_type c2 = lit "agent_assigned" ->
  getProp (c_data c2) (lit "agent") = getProp (c_data c1) (lit "agent") ->
  built (self (store pdl)) c1 = Normal e1 ->
  activeAgents (self (fst (emits (hooks pdl) [c1; c2] (store pdl))))
  = activeAgents (self (fst (emits (hooks pdl) [c1] (store pdl)))) /\
  distinct (cs_activeAgents (getCurrentState (self (store pdl)))) /\
  (forall i j name,
     cs_activeAgents (getCurrentState (self (store pdl))) !! i = Some (JStr name) ->
     cs_activeAgents (getCurrentState (self (store pdl))) !! j = Some (JStr name) ->
     i = j).
Proof.
  intros Hr H1 H2 Hsame Hb.
  apply Reachable_Inv in Hr as (Htame & _ & Hagent & (_ & _ & Hd)).
  split; [|split; [exact Hd|]].
  - rewrite emits_two, emits_one.
    set (s1 := fst (emit_call (hooks pdl) c1 (store pdl))).
    rewrite (emit_agent_assigned _ c2 s1 Htame Hagent H2), Hsame.
    destruct (built (self s1) c2) as [e2|error]; [|reflexivity].
    destruct (getProp (c_data c1) (lit "agent")) as [v|error] eqn:Hv; [|reflexivity].
    subst s1. rewrite (emit_agent_assigned _ c1 _ Htame Hagent H1), Hb, Hv.
    apply add_add.
  - intros i j name Hi Hj. apply (Hd i j _ _ Hi Hj). apply sameValueZero_refl.
Qed.

Lemma agent_assigned_idempotent_witness :
  activeAgents
    (self (fst (emits (hooks (constructor offline_options page))
                  [assign "architect" 0; assign "architect" 1]
                  (store (constructor offline_options page)))))
  = activeAgents
      (self (fst (emits (hooks (constructor offline_options page)) [assign "architect" 0]
                    (store (constructor offline_options page))))).
Proof.
  apply (agent_assigned_idempotent (constructor offline_options page)
           (assign "architect" 0) (assign "architect" 1)
           {| e_id := generateEventId (at_time 0); e_type := lit "agent_assigned";
              e_timestamp := iso (at_time 0); e_phase := JStr (lit "discovery");
              e_data := c_data (assign "architect" 0);
              e_brief := lit "Agent: architect (developer)"; e_references := [];
              e_agent := lit "system" |}
           (R_new offline_options page) eq_refl eq_refl eq_refl eq_refl).
Defined.

(** ** The connection *)

Lemma after_call_wire eventType hook event s :
  off_the_wire (fn hook) ->
  let s' := after_call eventType hook (fn hook event s) in
  offlineMode (self s') = offlineMode (self s) /\ ws (self s') = ws (self s) /\
  localStorage (host s') = localStorage (host s) /\ sent (host s') = sent (host s).
Proof.
  intros Hoff. specialize (Hoff event s).
  destruct (fn hook event s) as [s1 [[|reason]|error]]; simpl in *; try exact Hoff.
  destruct (async hook); exact Hoff.
Qed.

Lemma dispatch_wire eventType event l : forall s,
  (forall hook, In hook l -> off_the_wire (fn hook)) ->
  let s' := dispatch eventType event l s in
  offlineMode (self s') = offlineMode (self s) /\ ws (self s') = ws (self s) /\
  localStorage (host s') = localStorage (host s) /\ sent (host s') = sent (host s).
Proof.
  induction l as [|hook l IH]; intros s Hoff; [by repeat split|].
  cbv zeta. rewrite dispatch_cons.
  destruct (IH (after_call eventType hook (fn hook event s))
              (fun h Hh => Hoff h (or_intror Hh))) as (H1 & H2 & H3 & H4).
  destruct (after_call_wire eventType hook event s (Hoff hook (or_introl eq_refl)))
    as (G1 & G2 & G3 & G4).
  repeat split; congruence.
Qed.

Lemma updateVisualization_wire event s :
  localStorage (host (fst (updateVisualization event s))) = localStorage (host s) /\
  sent (host (fst (updateVisualization event s))) = sent (host s).
Proof.
  unfold updateVisualization. rewrite bind_run. simpl.
  destruct (negb _); [by split|].
  repeat (destruct (jsstring_eqb _ _); [
    repeat (rewrite bind_run; unfold lift;
            destruct (getProp _ _) as [?|?]; [|by split]);
    unfold highlightPhase, showAgentActivity, updateGateStatus;
    rewrite bind_run; unfold lift; destruct (template _); by split |]).
  by split.
Qed.

(** What an [emit] that builds its event does to the connection: in offline
    mode the event is stored under its key, with an open socket it is sent,
    otherwise neither. *)
Lemma emit_wire hooks eventType data options en s event :
  all_off_the_wire hooks ->
  build_event (self s) eventType data options en = Normal event ->
  let s' := fst (emit hooks eventType data options en s) in
  offlineMode (self s') = offlineMode (self s) /\
  localStorage (host s')
  = (if offlineMode (self s)
     then setItem (fst (stored event)) (snd (stored event)) (localStorage (host s))
     else localStorage (host s)) /\
  sent (host s')
  = (if negb (offlineMode (self s)) && is_open (ws (self s))
     then sent (host s) ++ [serialize event] else sent (host s)).
Proof.
  intros Hoff Hb. cbv zeta. rewrite (emit_built _ _ _ _ _ _ _ Hb).
  rewrite updateVisualization_self, sendToServer_self.
  set (sd := dispatch eventType event (bound eventType hooks) (fst (addToHistory event s))).
  destruct (updateVisualization_wire event (fst (sendToServer event sd))) as [-> ->].
  assert (Hd : offlineMode (self sd) = offlineMode (self s) /\ ws (self sd) = ws (self s) /\
               localStorage (host sd) = localStorage (host s) /\
               sent (host sd) = sent (host s)).
  { subst sd.
    destruct (dispatch_wire eventType event (bound eventType hooks)
                (fst (addToHistory event s)) (Hoff eventType)) as (H1 & H2 & H3 & H4).
    rewrite H1, H2, H3, H4, addToHistory_run. by repeat split. }
  destruct Hd as (H1 & H2 & H3 & H4). clearbody sd.
  split; [exact H1|].
  unfold sendToServer. rewrite bind_run. unfold get. cbv beta iota. rewrite H1, H2.
  destruct (offlineMode (self s)); simpl; [by rewrite H3, H4|].
  destruct (is_open (ws (self s))); simpl; by rewrite ?H3, ?H4.
Qed.

Lemma setItem_fresh key value ls :
  ~ In key (map fst ls) -> setItem key value ls = ls ++ [(key, value)].
Proof.
  induction ls as [|[k v] ls IH]; simpl; intros Hfresh; [reflexivity|].
  rewrite (proj2 (jsstring_eqb_false k key)) by tauto.
  rewrite IH by tauto. reflexivity.
Qed.

Lemma stored_key_inj e e' : fst (stored e) = fst (stored e') -> e_id e = e_id e'.
Proof. unfold stored. cbn [fst]. apply app_inv_head. Qed.

Lemma emits_offline hooks calls : forall s,
  all_off_the_wire hooks ->
  offlineMode (self s) = true ->
  NoDup (map e_id (snd (emits hooks calls s))) ->
  (forall e, In e (snd (emits hooks calls s)) ->
             ~ In (fst (stored e)) (map fst (localStorage (host s)))) ->
  localStorage (host (fst (emits hooks calls s)))
  = localStorage (host s) ++ map stored (snd (emits hooks calls s)) /\
  sent (host (fst (emits hooks calls s))) = sent (host s).
Proof.
  induction calls as [|c calls IH]; intros s Hoff Hmode Hids Hfresh.
  - simpl. by rewrite app_nil_r.
  - simpl in *.
    specialize (IH (fst (emit_call hooks c s)) Hoff).
    destruct (emits hooks calls (fst (emit_call hooks c s))) as [s2 evs]. simpl in *.
    unfold emit_call, built in *.
    destruct (build_event (self s) (c_type c) (c_data c) (c_options c) (c_entropy c))
      as [event|error] eqn:Hb.
    + destruct (emit_wire _ _ _ _ _ _ _ Hoff Hb) as (Hm & Hls & Hsent).
      rewrite Hmode in Hm, Hls, Hsent. simpl in Hls, Hsent.
      rewrite setItem_fresh in Hls by (apply Hfresh; by left).
      apply NoDup_cons in Hids as [Hnew Hids].
      rewrite Hm, Hls, Hsent in IH.
      assert (Hfresh' : forall e, In e evs ->
                ~ In (fst (stored e)) (map fst (localStorage (host s) ++ [stored event]))).
      { intros e He Hin. rewrite map_app in Hin. apply in_app_or in Hin as [Hin|[Hin|[]]].
        - apply (Hfresh e); [right; exact He | exact Hin].
        - apply Hnew. apply stored_key_inj in Hin. rewrite Hin.
          apply list_elem_of_In, (in_map e_id), He. }
      destruct (IH eq_refl Hids Hfresh') as [IH1 IH2].
      split; [|exact IH2]. rewrite IH1, <- app_assoc. reflexivity.
    + rewrite (emit_not_built _ _ _ _ _ _ _ Hb) in IH. simpl in IH. by apply IH.
Qed.

Lemma connected_event_built i en :
  build_event i (lit "system")
    (JObj 0 [(lit "type", JStr (lit "connection")); (lit "status", JStr (lit "connected"))])
    no_options en
  = Normal (connected_event i en).
Proof. reflexivity. Qed.

Lemma default_hooks_off_the_wire options h :
  all_off_the_wire (hooks (constructor options h)).
Proof.
  rewrite constructor_hooks. intros eventType hook Hin.
  unfold registered, default_registrations in Hin. simpl in Hin.
  apply In_bound_register in Hin as [Hin|[_ ->]];
    [apply In_bound_register in Hin as [Hin|[_ ->]];
      [apply In_bound_register in Hin as [[]|[_ ->]]|]|];
    intros event s; simpl.
  - pose proof (phase_transition_hook_self event s) as Hself.
    unfold phase_transition_hook in *. rewrite bind_run in *. unfold lift in *.
    destruct (getProp (e_data event) (lit "to")) as [v|err]; [|by repeat split].
    rewrite Hself. rewrite bind_run. simpl. rewrite bind_run.
    unfold updatePhaseVisualization. rewrite bind_run. simpl. destruct (svg (host s)).
    + unfold highlightPhase. rewrite bind_run. unfold lift.
      destruct (template v); by repeat split.
    + by repeat split.
  - unfold agent_assigned_hook. rewrite bind_run. unfold lift.
    destruct (getProp (e_data event) (lit "agent")) as [v|err]; by repeat split.
  - unfold development_note_hook, writeDevelopmentNote. rewrite !bind_run. simpl.
    destruct (mcpAvailable (host s)); by repeat split.
Qed.

(** C8, as the code has it.  Only an object in offline mode (built without
    an endpoint) buffers: there every [emit] that builds its event adds one
    [localStorage] entry under [pdl_event_<id>] holding the event's JSON,
    in the order of emission when the ids are new and different, and sends
    nothing.  Nothing is replayed: [onConnectionOpen] hands the socket, if
    it is open, the one [system] event it emits itself, and only that. *)
Theorem offline_stored_never_replayed (pdl : PDLFramework) (calls : list EmitCall)
    (en : Entropy) :
  all_off_the_wire (hooks pdl) ->
  offlineMode (self (store pdl)) = true ->
  NoDup (map e_id (snd (emits (hooks pdl) calls (store pdl)))) ->
  (forall e, In e (snd (emits (hooks pdl) calls (store pdl))) ->
             ~ In (fst (stored e)) (map fst (localStorage (host (store pdl))))) ->
  (localStorage (host (fst (emits (hooks pdl) calls (store pdl))))
   = localStorage (host (store pdl)) ++ map stored (snd (emits (hooks pdl) calls (store pdl)))
   /\ sent (host (fst (emits (hooks pdl) calls (store pdl)))) = sent (host (store pdl)))
  /\ (forall s0,
        sent (host (fst (onConnectionOpen (hooks pdl) en s0)))
        = (if negb (offlineMode (self s0)) && is_open (ws (self s0))
           then sent (host s0) ++ [serialize (connected_event (self s0) en)]
           else sent (host s0))).
Proof.
  intros Hoff Hmode Hids Hfresh. split; [by apply emits_offline|].
  intros s0. unfold onConnectionOpen. rewrite bind_run.
  change (console_log [AText (lit "PDL WebSocket connected")] s0)
    with ({| self := self s0;
             host := add_console (LOG, [AText (lit "PDL WebSocket connected")]) (host s0) |},
          Normal tt).
  cbv beta iota.
  destruct (emit_wire (hooks pdl) _ _ _ en
              {| self := self s0;
                 host := add_console (LOG, [AText (lit "PDL WebSocket connected")]) (host s0) |}
              (connected_event (self s0) en) Hoff (connected_event_built (self s0) en))
    as (_ & _ & Hsent).
  exact Hsent.
Qed.

Lemma offline_stored_never_replayed_witness :
  localStorage
    (host (fst (emits (hooks (constructor offline_options page)) [note 0; note 1; note 2]
                  (store (constructor offline_options page)))))
  = map stored
      (snd (emits (hooks (constructor offline_options page)) [note 0; note 1; note 2]
              (store (constructor offline_options page)))).
Proof.
  refine (proj1 (proj1 (offline_stored_never_replayed (constructor offline_options page)
                          [note 0; note 1; note 2] (at_time 3)
                          (default_hooks_off_the_wire offline_options page) eq_refl _ _))).
  - apply (bool_decide_unpack _). vm_compute. reflexivity.
  - intros e _ [].
Defined.

(** C8 as stated fails.  An object built with an endpoint is not connected
    while its socket is connecting; three events emitted then are neither
    sent nor stored, and when the socket opens the only frame sent is the
    [system] event of [onConnectionOpen]. *)
Lemma events_lost_while_connecting :
  let pdl := constructor online_options page in
  let s1 := fst (emits (hooks pdl) [note 0; note 1; note 2] (store pdl)) in
  let s2 := fst (onConnectionOpen (hooks pdl) (at_time 3) (store (with_ws (in_store pdl s1) OPEN))) in
  ws (self (store pdl)) = Some CONNECTING /\
  length (snd (emits (hooks pdl) [note 0; note 1; note 2] (store pdl))) = 3%nat /\
  localStorage (host s1) = [] /\ sent (host s1) = [] /\
  localStorage (host s2) = [] /\
  sent (host s2) = [serialize (connected_event (self s1) (at_time 3))].
Proof. vm_compute. repeat split; reflexivity. Qed.

End FrameworkFacts.

(** * More properties of the tool handlers *)

Module ToolsFacts.
Import JS JSFacts Db Server ServerFacts Tools.

(** ** How the handler fails *)





Lemma createPhase_rejected project params uuid isoNow now db e :
  snd (createPhase project params uuid isoNow now db) = Rejected e ->
  fst (createPhase project params uuid isoNow now db) = db.
Proof.
  unfold createPhase. destruct (existsb _ _); [reflexivity|].
  destruct (existsb _ _); [reflexivity|]. destruct (negb _); [reflexivity|discriminate].
Qed.

Lemma logEvent_rejected params uuid now db e :
  snd (logEvent params uuid now db) = Rejected e ->
  fst (logEvent params uuid now db) = db.
Proof.
  unfold logEvent. destruct (existsb _ _); [reflexivity|].
  destruct (negb _); [reflexivity|discriminate].
Qed.

(** X2.  A call that fails leaves the tables as they were, unless it is a
    transition. *)
Theorem failed_call_changes_nothing (c : ToolCall) (db : Database) (code : ErrorCode)
    (msg : jsstring) :
  (forall args env, c <> TransitionPhase args env) ->
  snd (call_tool c db) = McpError code msg ->
  fst (call_tool c db) = db.
Proof.
  intros Hc.
  destruct c as [project|project params uuid isoNow now|args env|args uuid now|name]; simpl.
  - reflexivity.
  - pose proof (createPhase_rejected project params uuid isoNow now db) as H.
    destruct (createPhase _ _ _ _ _ _) as [db' [row|e]]; simpl in *; [discriminate|].
    intros _. by apply (H e).
  - destruct (Hc args env eq_refl).
  - pose proof (logEvent_rejected (log_event_params args) uuid now db) as H.
    destruct (logEvent _ _ _ _) as [db' [row|e]]; simpl in *; [discriminate|].
    intros _. by apply (H e).
  - reflexivity.
Qed.

Lemma failed_call_changes_nothing_witness :
  fst (call_tool (CreatePhaseTool P1 (phase_params "discovery" "pending") (lit "ph-7")
                    (lit "2025-01-03T00:00:00.000Z") (lit "2025-01-03 00:00:00")) test_db)
  = test_db.
Proof.
  apply (failed_call_changes_nothing _ test_db InternalError
           (lit "Tool execution failed: SQLITE_CONSTRAINT: UNIQUE constraint failed")).
  - discriminate.
  - vm_compute. reflexivity.
Defined.

(** X3.  A transition whose event cannot be logged (here: triggered by an agent
    the database does not know) is answered with an error, and yet both
    updates stay applied: nothing is rolled back. *)
Theorem transition_fails_half_done (args : TransitionArgs) (env : CallEnv) (db : Database) :
  refers (or_null (Some (triggeredBy args))) (agents db) = false ->
  existsb (fun r => jsstring_eqb (ev_id r) (uuid env)) (events db) = false ->
  snd (transition_phase args env db) = failed SQLITE_CONSTRAINT_FOREIGNKEY /\
  events (fst (transition_phase args env db)) = events db /\
  phases (fst (transition_phase args env db)) = map (moved args env) (phases db).
Proof.
  intros Hagent Hid. split; [|split; [|apply transition_phases]].
  - unfold transition_phase, log_transition, logEvent. simpl events. rewrite Hid.
    simpl agents. simpl in Hagent |- *. rewrite Hagent, !andb_false_r. reflexivity.
  - unfold transition_phase, log_transition, logEvent. simpl events. rewrite Hid.
    simpl agents. simpl in Hagent |- *. rewrite Hagent, !andb_false_r. reflexivity.
Qed.

Lemma transition_fails_half_done_witness :
  snd (transition_phase
         {| projectId := P1; fromPhase := lit "discovery"; toPhase := lit "planning";
            gateApproval := None; notes := None; triggeredBy := lit "mallory" |}
         (env_with "ev-1") test_db)
  = failed SQLITE_CONSTRAINT_FOREIGNKEY /\
  statuses
    (fst (transition_phase
            {| projectId := P1; fromPhase := lit "discovery"; toPhase := lit "planning";
               gateApproval := None; notes := None; triggeredBy := lit "mallory" |}
            (env_with "ev-1") test_db))
  = [(lit "discovery", Some completed); (lit "planning", Some active);
     (lit "development", Some pending); (lit "launch", Some pending);
     (lit "growth", Some pending); (lit "optimization", Some pending)].
Proof.
  destruct (transition_fails_half_done
              {| projectId := P1; fromPhase := lit "discovery"; toPhase := lit "planning";
                 gateApproval := None; notes := None; triggeredBy := lit "mallory" |}
              (env_with "ev-1") test_db eq_refl eq_refl) as (H1 & _ & H3).
  split; [exact H1|]. unfold statuses. rewrite H3. vm_compute. reflexivity.
Defined.

(** ** What the tables keep *)

Lemma mem_spec x l : mem x l = true <-> In x l.
Proof.
  unfold mem. rewrite existsb_exists. split.
  - intros (y & Hy & Heq). apply jsstring_eqb_true in Heq. by subst.
  - intros Hx. exists x. split; [exact Hx | by apply jsstring_eqb_true].
Qed.

Lemma refers_app x l l' : refers x l = true -> refers x (l ++ l') = true.
Proof.
  destruct x as [k|]; simpl; [|reflexivity].
  rewrite !mem_spec, in_app_iff. auto.
Qed.

Lemma existsb_id_false {A} (id : A -> jsstring) (uuid : jsstring) (l : list A) :
  existsb (fun r => jsstring_eqb (id r) uuid) l = false -> ~ In uuid (map id l).
Proof.
  intros Hex Hin. apply in_map_iff in Hin as (r & Hr & Hin).
  apply (existsb_false _ _ Hex) in Hin. apply jsstring_eqb_false in Hin. auto.
Qed.

Lemma NoDup_snoc {A} (l : list A) (x : A) : NoDup l -> ~ In x l -> NoDup (l ++ [x]).
Proof.
  intros Hl Hx. apply NoDup_app. split; [exact Hl|]. split; [|apply NoDup_singleton].
  intros y Hy Hy'. apply list_elem_of_singleton in Hy'. subst.
  apply Hx. by apply list_elem_of_In.
Qed.

(** Rewriting rows without touching their identifier, project and name
    keeps the tables intact. *)
Lemma rewrite_intact (f : PhaseRow -> PhaseRow) db :
  (forall r, ph_id (f r) = ph_id r /\ key (f r) = key r) ->
  intact db -> intact (with_phases db (map f (phases db))).
Proof.
  intros Hf (Hids & Hnames & Hevs & Hph & Hev).
  assert (Hmap_id : map ph_id (map f (phases db)) = map ph_id (phases db)).
  { rewrite map_map. apply map_ext. intros r. apply Hf. }
  assert (Hmap_key : map key (map f (phases db)) = map key (phases db)).
  { rewrite map_map. apply map_ext. intros r. apply Hf. }
  unfold intact, names_unique. simpl. rewrite Hmap_id. fold key. rewrite Hmap_key.
  repeat split; auto.
  - intros r' Hin. apply in_map_iff in Hin as (r & <- & Hin).
    destruct (Hf r) as [_ Hk]. unfold key in Hk. injection Hk as -> _. by apply Hph.
  - by apply Hev.
  - by apply Hev.
  - by apply Hev.
Qed.

Lemma logEvent_intact params uuid now db :
  intact db -> intact (fst (logEvent params uuid now db)).
Proof.
  intros Hi. unfold logEvent.
  destruct (existsb _ _) eqn:Hid; [exact Hi|].
  destruct (negb _) eqn:Hfk; [exact Hi|].
  apply negb_false_iff, andb_true_iff in Hfk as [Hfk Hagent].
  apply andb_true_iff in Hfk as [Hproject Hphase].
  destruct Hi as (Hids & Hnames & Hevs & Hph & Hev).
  unfold intact, names_unique. simpl. repeat split; auto.
  - rewrite map_app. simpl. apply NoDup_snoc; [exact Hevs|].
    by apply (existsb_id_false ev_id).
  - apply in_app_or in H as [H|[<-|[]]]; [by apply Hev | exact Hproject].
  - apply in_app_or in H as [H|[<-|[]]]; [by apply Hev | exact Hphase].
  - apply in_app_or in H as [H|[<-|[]]]; [by apply Hev | exact Hagent].
Qed.

Lemma createPhase_intact project params uuid isoNow now db :
  intact db -> intact (fst (createPhase project params uuid isoNow now db)).
Proof.
  intros Hi. pose proof (createPhase_names_unique project params uuid isoNow now db) as Hn.
  unfold createPhase in *.
  destruct (existsb _ _) eqn:Hid; [exact Hi|].
  destruct (existsb (matches project (pp_name params)) (phases db)); [exact Hi|].
  destruct (negb _) eqn:Hfk; [exact Hi|]. apply negb_false_iff in Hfk.
  destruct Hi as (Hids & Hnames & Hevs & Hph & Hev).
  unfold intact. simpl in *. repeat split; auto.
  - rewrite map_app. simpl. apply NoDup_snoc; [exact Hids|].
    by apply (existsb_id_false ph_id).
  - intros r Hin. apply in_app_or in Hin as [Hin|[<-|[]]]; [by apply Hph | exact Hfk].
  - by apply Hev.
  - rewrite map_app. apply refers_app. by apply Hev.
  - by apply Hev.
Qed.

Lemma moved_same args env r :
  ph_id (moved args env r) = ph_id r /\ key (moved args env r) = key r.
Proof.
  split; [|apply key_moved]. unfold moved.
  destruct (matches _ (fromPhase args) r); destruct (matches _ (toPhase args) _); reflexivity.
Qed.

Lemma transition_as_log args env db :
  fst (transition_phase args env db)
  = fst (logEvent (transition_event args) (uuid env) (at_log env)
           (with_phases db (map (moved args env) (phases db)))).
Proof.
  unfold transition_phase, log_transition, activate_new, mark_old, update_phases.
  simpl phases. rewrite map_map.
  change (with_phases (with_phases db _) ?rows) with (with_phases db rows).
  destruct (logEvent _ _ _ _) as [db3 [row|e]]; reflexivity.
Qed.

Lemma call_tool_intact c db : intact db -> intact (fst (call_tool c db)).
Proof.
  intros Hi.
  destruct c as [project|project params uuid isoNow now|args env|args uuid now|name]; simpl.
  - exact Hi.
  - pose proof (createPhase_intact project params uuid isoNow now db Hi) as H.
    by destruct (createPhase _ _ _ _ _ _) as [db' [row|e]].
  - rewrite transition_as_log. apply logEvent_intact, rewrite_intact; [|exact Hi].
    apply moved_same.
  - pose proof (logEvent_intact (log_event_params args) uuid now db Hi) as H.
    by destruct (logEvent _ _ _ _) as [db' [row|e]].
  - exact Hi.
Qed.

(** X4.  The keys and foreign keys of the schema hold after every sequence of
    requests: identifiers stay unique, names unique per project, every
    phase belongs to a known project and every event to a known project
    and, if it names them, to an existing phase and a known agent. *)
Theorem tables_stay_intact (calls : list ToolCall) (db : Database) :
  intact db -> intact (serve_all calls db).
Proof.
  revert db. induction calls as [|c calls IH]; intros db Hi; [exact Hi|].
  simpl. apply IH. by apply call_tool_intact.
Qed.

Lemma tables_stay_intact_witness :
  intact
    (serve_all
       [CreatePhaseTool P1 (phase_params "discovery" "active") (lit "ph-1")
          (lit "2025-01-01T00:00:00.000Z") (lit "2025-01-01 00:00:00");
        TransitionPhase (transition_args "discovery" "planning") (env_with "ev-1");
        UnknownTool (lit "mcp__pdl__delete_phase")]
       empty_db).
Proof.
  apply tables_stay_intact.
  split; [apply NoDup_nil_2|]. split; [apply NoDup_nil_2|]. split; [apply NoDup_nil_2|].
  split; intros r [].
Defined.

Lemma logEvent_briefs params uuid now db :
  briefs_capped db -> briefs_capped (fst (logEvent params uuid now db)).
Proof.
  intros Hb. unfold logEvent.
  destruct (existsb _ _); [exact Hb|]. destruct (negb _); [exact Hb|].
  intros e He. simpl in He. apply in_app_or in He as [He|[<-|[]]]; [by apply Hb|].
  unfold event_row, substring0. cbn [ev_brief]. rewrite length_take. lia.
Qed.

(** X5.  No request stores a brief of more than 60 characters: if the table has
    none, it has none after any sequence of requests. *)
Theorem stored_briefs_stay_capped (calls : list ToolCall) (db : Database) :
  briefs_capped db -> briefs_capped (serve_all calls db).
Proof.
  revert db. induction calls as [|c calls IH]; intros db Hb; [exact Hb|].
  simpl. apply IH.
  destruct c as [project|project params uuid isoNow now|args env|args uuid now|name]; simpl.
  - exact Hb.
  - assert (H : events (fst (createPhase project params uuid isoNow now db)) = events db).
    { unfold createPhase. destruct (existsb _ _); [reflexivity|].
      destruct (existsb _ _); [reflexivity|]. by destruct (negb _). }
    destruct (createPhase _ _ _ _ _ _) as [db' [row|e]]; simpl in *;
      intros e' He'; apply Hb; by rewrite <- H.
  - rewrite transition_as_log. apply logEvent_briefs. exact Hb.
  - pose proof (logEvent_briefs (log_event_params args) uuid now db Hb) as H.
    by destruct (logEvent _ _ _ _) as [db' [row|e]].
  - exact Hb.
Qed.

Lemma stored_briefs_stay_capped_witness :
  briefs_capped
    (serve_all
       [LogEvent {| la_projectId := P1; la_type := lit "note";
                    la_brief := lit "Deployed build 4711 of the dashboard to the staging cluster in eu-central-1";
                    la_description := None; la_phaseId := None; la_agentId := None;
                    la_data := JUndefined; la_references := None; la_priority := None |}
          (lit "ev-9") (lit "2025-01-02 00:00:00")]
       test_db).
Proof.
  apply stored_briefs_stay_capped. intros e He. vm_compute in He. destruct He.
Defined.

(** ** The current phase *)



Lemma filter_map_ext {A} (f g : A -> bool) (h : A -> A) (l : list A) :
  (forall x, In x l -> f (h x) = g x) ->
  List.filter f (map h l) = map h (List.filter g l).
Proof.
  induction l as [|a l IH]; simpl; intros H; [reflexivity|].
  rewrite (H a) by auto. rewrite IH by auto. by destruct (g a).
Qed.

Lemma unique_row p n db :
  names_unique db -> existsb (matches p n) (phases db) = true ->
  exists r, List.filter (matches p n) (phases db) = [r].
Proof.
  intros Hu Hex. pose proof (unique_name_one_row p n (phases db) Hu) as Hlen.
  apply existsb_exists in Hex as (r & Hr & Hm).
  assert (Hin : In r (List.filter (matches p n) (phases db))) by (apply filter_In; auto).
  destruct (List.filter (matches p n) (phases db)) as [|x [|y l]]; simpl in *;
    [destruct Hin | eauto | lia].
Qed.

(** After a transition from the active phase, the active rows of the
    project are those that bear the target's name. *)
Lemma active_after_honest args env db r :
  names_the_active (projectId args) (fromPhase args) db = true ->
  In r (phases db) ->
  is_active_in (projectId args) (moved args env r)
  = matches (projectId args) (toPhase args) r.
Proof.
  intros Hn Hin. unfold moved.
  destruct (matches (projectId args) (fromPhase args) r) eqn:Hfrom.
  - rewrite (matches_same_key _ _ r) by apply key_set_completed.
    destruct (matches (projectId args) (toPhase args) r) eqn:Hto.
    + apply is_active_in_spec. apply matches_key in Hto. injection Hto as Hp _.
      split; [exact Hp | reflexivity].
    + apply completed_not_active.
  - destruct (matches (projectId args) (toPhase args) r) eqn:Hto.
    + apply is_active_in_spec. apply matches_key in Hto. injection Hto as Hp _.
      split; [exact Hp | reflexivity].
    + destruct (is_active_in (projectId args) r) eqn:Hact; [|reflexivity].
      unfold names_the_active in Hn. rewrite forallb_forall in Hn.
      specialize (Hn r Hin). rewrite Hact in Hn. simpl in Hn.
      apply is_active_in_spec in Hact as [Hp _].
      unfold matches in Hfrom. rewrite Hn in Hfrom.
      rewrite (proj2 (jsstring_eqb_true _ _) Hp) in Hfrom. discriminate.
Qed.

(** X7.  The tool used as its description says, from the phase that is active to
    a phase of the project: afterwards [getCurrentPhase] answers with the
    target, active and started at the time of the second update, whether or
    not the event could be logged. *)
Theorem honest_transition_sets_current (args : TransitionArgs) (env : CallEnv)
    (db : Database) :
  names_unique db -> honest args db ->
  exists r,
    In r (phases db) /\ ph_name r = toPhase args /\
    getCurrentPhase (projectId args) (fst (transition_phase args env db))
    = Some (moved args env r) /\
    ph_id (moved args env r) = ph_id r /\
    ph_status (moved args env r) = Some active /\
    ph_start_date (moved args env r) = Some (at_new env).
Proof.
  intros Hu [Hn Hex]. destruct (unique_row _ _ db Hu Hex) as [r Hr].
  assert (Hin : In r (List.filter (matches (projectId args) (toPhase args)) (phases db)))
    by (rewrite Hr; by left).
  apply filter_In in Hin as [Hin Hm].
  exists r. split; [exact Hin|].
  split; [apply matches_key in Hm; by injection Hm|].
  split; [|split; [apply moved_same|]].
  - unfold getCurrentPhase. rewrite transition_phases.
    rewrite (filter_map_ext _ (matches (projectId args) (toPhase args)))
      by (intros; by apply (active_after_honest args env db)).
    rewrite Hr. reflexivity.
  - unfold moved.
    destruct (matches (projectId args) (fromPhase args) r).
    + rewrite (matches_same_key _ _ r) by apply key_set_completed. by rewrite Hm.
    + by rewrite Hm.
Qed.

Lemma honest_transition_sets_current_witness :
  exists r,
    In r (phases test_db) /\ ph_name r = lit "planning" /\
    getCurrentPhase P1
      (fst (transition_phase (transition_args "discovery" "planning") (env_with "ev-1")
              test_db))
    = Some (moved (transition_args "discovery" "planning") (env_with "ev-1") r) /\
    ph_id (moved (transition_args "discovery" "planning") (env_with "ev-1") r) = ph_id r /\
    ph_status (moved (transition_args "discovery" "planning") (env_with "ev-1") r)
    = Some active /\
    ph_start_date (moved (transition_args "discovery" "planning") (env_with "ev-1") r)
    = Some (lit "2025-01-02 00:00:00").
Proof.
  apply (honest_transition_sets_current (transition_args "discovery" "planning")
           (env_with "ev-1") test_db).
  - apply (bool_decide_unpack _). vm_compute. reflexivity.
  - split; vm_compute; reflexivity.
Defined.

Lemma filter_moved_other args env (f : PhaseRow -> bool) q rows :
  q <> projectId args ->
  (forall r, f r = true -> ph_project_id r = q) ->
  List.filter f (map (moved args env) rows) = List.filter f rows.
Proof.
  intros Hq Hf. induction rows as [|r rows IH]; [reflexivity|]. simpl. rewrite IH.
  assert (Hp : ph_project_id (moved args env r) = ph_project_id r).
  { pose proof (key_moved args env r) as Hk. unfold key in Hk. by injection Hk. }
  destruct (decide (ph_project_id r = q)) as [Hr|Hr].
  - assert (moved args env r = r) as ->; [|reflexivity].
    unfold moved.
    assert (Hno : forall n x, ph_project_id x = q -> matches (projectId args) n x = false).
    { intros n x Hx. destruct (matches (projectId args) n x) eqn:Hm; [|reflexivity].
      apply matches_key in Hm. injection Hm as Hm _. congruence. }
    by rewrite !(Hno _ r Hr).
  - destruct (f (moved args env r)) eqn:H1; [apply Hf in H1; congruence|].
    destruct (f r) eqn:H2; [apply Hf in H2; congruence|]. reflexivity.
Qed.

(** X8.  A transition in one project is not seen in another: the rows of every
    other project, and so its current phase, are what they were, whatever
    the arguments; and no row is added or removed anywhere. *)
Theorem transition_keeps_to_its_project (args : TransitionArgs) (env : CallEnv)
    (db : Database) (q : jsstring) :
  q <> projectId args ->
  List.filter (fun r => jsstring_eqb (ph_project_id r) q)
    (phases (fst (transition_phase args env db)))
  = List.filter (fun r => jsstring_eqb (ph_project_id r) q) (phases db) /\
  getCurrentPhase q (fst (transition_phase args env db)) = getCurrentPhase q db /\
  map ph_id (phases (fst (transition_phase args env db))) = map ph_id (phases db).
Proof.
  intros Hq. rewrite transition_phases. split; [|split].
  - apply (filter_moved_other args env _ q); [exact Hq|].
    intros r Hr. by apply jsstring_eqb_true in Hr.
  - unfold getCurrentPhase. rewrite transition_phases.
    rewrite (filter_moved_other args env _ q); [reflexivity|exact Hq|].
    intros r Hr. by apply is_active_in_spec in Hr as [? _].
  - rewrite map_map. apply map_ext. intros r. apply moved_same.
Qed.

Lemma transition_keeps_to_its_project_witness :
  getCurrentPhase P1
    (fst (transition_phase
            {| projectId := lit "project-2"; fromPhase := lit "discovery";
               toPhase := lit "planning"; gateApproval := None; notes := None;
               triggeredBy := lit "alice" |}
            (env_with "ev-1") test_db))
  = getCurrentPhase P1 test_db.
Proof.
  apply (transition_keeps_to_its_project
           {| projectId := lit "project-2"; fromPhase := lit "discovery";
              toPhase := lit "planning"; gateApproval := None; notes := None;
              triggeredBy := lit "alice" |}
           (env_with "ev-1") test_db P1).
  vm_compute. discriminate.
Defined.

(** ** Creating phases and logging events *)

Lemma find_snoc {A} (f : A -> bool) (l : list A) (x : A) :
  List.find f (l ++ [x])
  = match List.find f l with
    | Some y => Some y
    | None => if f x then Some x else None
    end.
Proof.
  induction l as [|a l IH]; simpl; [reflexivity|]. destruct (f a); [reflexivity|exact IH].
Qed.

Lemma find_none {A} (f : A -> bool) (l : list A) :
  existsb f l = false -> List.find f l = None.
Proof.
  induction l as [|a l IH]; simpl; [reflexivity|].
  destruct (f a); simpl; [discriminate|exact IH].
Qed.

(** X9.  A phase with an unused identifier and a name new to its (known) project
    is stored, and [getPhase] finds it under its identifier with the name
    and the status asked for ([pending] if none was); the other phases are
    found as before, and unless it was created active the current phase of
    every project is what it was. *)
Theorem createPhase_then_getPhase (project : jsstring) (params : PhaseParams)
    (uuid isoNow now : jsstring) (db : Database) :
  existsb (fun r => jsstring_eqb (ph_id r) uuid) (phases db) = false ->
  existsb (matches project (pp_name params)) (phases db) = false ->
  mem project (projects db) = true ->
  exists r,
    createPhase project params uuid isoNow now db
    = (with_phases db (phases db ++ [r]), Resolved (Some r)) /\
    getPhase uuid (fst (createPhase project params uuid isoNow now db)) = Some r /\
    ph_id r = uuid /\ ph_project_id r = project /\ ph_name r = pp_name params /\
    ph_status r = Some (or_else (pp_status params) pending) /\
    (forall id, id <> uuid ->
       getPhase id (fst (createPhase project params uuid isoNow now db)) = getPhase id db) /\
    (or_else (pp_status params) pending <> active ->
     forall q, getCurrentPhase q (fst (createPhase project params uuid isoNow now db))
               = getCurrentPhase q db).
Proof.
  intros Hid Hname Hproject. unfold createPhase. rewrite Hid, Hname, Hproject. simpl.
  eexists. split; [reflexivity|]. unfold getPhase, getCurrentPhase. simpl.
  rewrite !find_snoc, (find_none _ _ Hid). simpl.
  rewrite (proj2 (jsstring_eqb_true uuid uuid) eq_refl).
  repeat split.
  - intros id Hne. rewrite find_snoc. simpl.
    rewrite (proj2 (jsstring_eqb_false uuid id)) by congruence.
    by destruct (List.find _ _).
  - intros Hstatus q. rewrite List.filter_app. simpl.
    destruct (is_active_in q _) eqn:Hact; [|by rewrite app_nil_r].
    apply is_active_in_spec in Hact as [_ Hact]. simpl in Hact. congruence.
Qed.

Lemma createPhase_then_getPhase_witness :
  exists r,
    getPhase (lit "ph-1") (handle (create "discovery" "" "ph-1") empty_db) = Some r /\
    ph_name r = lit "discovery" /\ ph_status r = Some pending.
Proof.
  destruct (createPhase_then_getPhase P1 (phase_params "discovery" "") (lit "ph-1")
              (lit "2025-01-01T00:00:00.000Z") (lit "2025-01-01 00:00:00") empty_db
              eq_refl eq_refl eq_refl) as (r & _ & Hget & _ & _ & Hname & Hstatus & _).
  exists r. split; [exact Hget|]. split; [exact Hname | exact Hstatus].
Defined.


End ToolsFacts.

(** * More properties of the event framework *)

Module ApiFacts.
Import JS JSFacts Framework FrameworkFacts Api.

(** [transitionPhase] and [assignAgent] are [emit] on these calls. *)
Lemma transitionPhase_call hooks fromPhase toPhase reason en :
  transitionPhase hooks fromPhase toPhase reason en
  = emit_call hooks (transition_call fromPhase toPhase reason en).
Proof. reflexivity. Qed.

Lemma assignAgent_call hooks agentType role task en :
  assignAgent hooks agentType role task en
  = emit_call hooks (assign_call agentType role task en).
Proof. reflexivity. Qed.

(** ** How [emit] ends *)

Lemma emit_completion hooks eventType data options en s event :
  build_event (self s) eventType data options en = Normal event ->
  snd (emit hooks eventType data options en s)
  = match snd (updateVisualization event
                 (fst (sendToServer event
                         (dispatch eventType event (bound eventType hooks)
                            (fst (addToHistory event s)))))) with
    | Normal _ => Normal (e_id event)
    | Throw error => Throw error
    end.
Proof.
  intros Hb. unfold emit. rewrite bind_run. change (get s) with (s, Normal s).
  cbv beta iota. rewrite bind_run. unfold lift. rewrite Hb.
  rewrite bind_run, (run_normal _ _ tt (addToHistory_normal event s)).
  rewrite bind_run, executeHooks_run.
  rewrite bind_run, (run_normal _ _ tt (sendToServer_normal event _)).
  rewrite bind_run. destruct (updateVisualization event _) as [s2 [[]|err]]; reflexivity.
Qed.

Lemma updateVisualization_transition event s x :
  e_type event = lit "phase_transition" ->
  getProp (e_data event) (lit "to") = Normal (JStr x) ->
  snd (updateVisualization event s) = Normal tt.
Proof.
  intros Ht Hto. unfold updateVisualization. rewrite bind_run.
  change (get s) with (s, Normal s). cbv beta iota.
  destruct (negb (svg (host s))); [reflexivity|].
  rewrite Ht. rewrite (proj2 (jsstring_eqb_true _ _)) by reflexivity.
  rewrite bind_run. unfold lift. rewrite Hto. reflexivity.
Qed.

Lemma updateVisualization_assignment event s x :
  e_type event = lit "agent_assigned" ->
  getProp (e_data event) (lit "agent") = Normal (JStr x) ->
  snd (updateVisualization event s) = Normal tt.
Proof.
  intros Ht Hto. unfold updateVisualization. rewrite bind_run.
  change (get s) with (s, Normal s). cbv beta iota.
  destruct (negb (svg (host s))); [reflexivity|].
  rewrite Ht. rewrite (proj2 (jsstring_eqb_false _ _)) by discriminate.
  rewrite (proj2 (jsstring_eqb_true _ _)) by reflexivity.
  rewrite bind_run. unfold lift. rewrite Hto. reflexivity.
Qed.

Lemma updateVisualization_other event s :
  e_type event <> lit "phase_transition" ->
  e_type event <> lit "agent_assigned" ->
  e_type event <> lit "gate_review" ->
  snd (updateVisualization event s) = Normal tt.
Proof.
  intros H1 H2 H3. unfold updateVisualization. rewrite bind_run.
  change (get s) with (s, Normal s). cbv beta iota.
  destruct (negb (svg (host s))); [reflexivity|].
  rewrite !(proj2 (jsstring_eqb_false _ _)) by assumption. reflexivity.
Qed.

Lemma updateVisualization_gate event s :
  e_type event = lit "gate_review" ->
  svg (host s) = true ->
  exists error, snd (updateVisualization event s) = Throw error.
Proof.
  intros Ht Hsvg. unfold updateVisualization. rewrite bind_run.
  change (get s) with (s, Normal s). cbv beta iota. rewrite Hsvg. cbn [negb].
  rewrite Ht. rewrite !(proj2 (jsstring_eqb_false _ _)) by discriminate.
  rewrite (proj2 (jsstring_eqb_true _ _)) by reflexivity.
  rewrite bind_run. unfold lift.
  destruct (getProp (e_data event) (lit "gate")) as [g|err]; [|by eexists].
  rewrite bind_run.
  destruct (getProp (e_data event) (lit "status")) as [st|err]; [|by eexists].
  unfold updateGateStatus. rewrite bind_run. unfold lift.
  destruct (template g) as [g'|err]; by eexists.
Qed.

Lemma last_last_n {A} (n : nat) (l : list A) (x : A) :
  (0 < n)%nat -> last (last_n n (l ++ [x])) = Some x.
Proof.
  intros Hn. unfold last_n. rewrite length_app. simpl.
  rewrite drop_app_le by lia. apply last_snoc.
Qed.

Lemma call_completion {A} (pdl : PDLFramework)
    (method : gmap jsstring (list Hook) -> Action A) :
  snd (call pdl method) = snd (method (hooks pdl) (store pdl)).
Proof. unfold call. by destruct (method (hooks pdl) (store pdl)). Qed.

Lemma transition_call_built i fromPhase toPhase reason en :
  built i (transition_call fromPhase toPhase reason en)
  = Normal {| e_id := generateEventId en; e_type := lit "phase_transition";
              e_timestamp := iso en; e_phase := currentPhase i;
              e_data := JObj 0 [(lit "from", JStr fromPhase); (lit "to", JStr toPhase);
                                (lit "reason", JStr reason)];
              e_brief := lit "Phase: " ++ fromPhase ++ lit " " ++ arrow ++ lit " " ++ toPhase;
              e_references := match reason with
                              | [] => []
                              | _ => [lit "reason: " ++ reason]
                              end;
              e_agent := lit "system" |}.
Proof. reflexivity. Qed.

Lemma assign_call_built i agentType role task en :
  built i (assign_call agentType role task en)
  = Normal {| e_id := generateEventId en; e_type := lit "agent_assigned";
              e_timestamp := iso en; e_phase := currentPhase i;
              e_data := JObj 0 [(lit "agent", JStr agentType); (lit "role", JStr role);
                                (lit "task", JStr task)];
              e_brief := agentType ++ lit " assigned as " ++ role;
              e_references := match task with
                              | [] => []
                              | _ => [lit "task: " ++ task]
                              end;
              e_agent := lit "system" |}.
Proof. destruct agentType; reflexivity. Qed.

(** X11.  [transitionPhase] never refuses: on every object in use, whatever
    [fromPhase] and [toPhase] are (nothing compares [fromPhase] with the
    current phase), the call returns the id of its event, [currentPhase] is
    [toPhase] afterwards, and the event at the end of the history carries
    the phase the object was in before the call. *)
Theorem transitionPhase_never_refuses (pdl : PDLFramework)
    (fromPhase toPhase reason : jsstring) (en : Entropy) :
  Reachable pdl ->
  let r := call pdl (fun hs => transitionPhase hs fromPhase toPhase reason en) in
  snd r = Normal (generateEventId en) /\
  currentPhase (self (store (fst r))) = JStr toPhase /\
  exists e, last (eventHistory (self (store (fst r)))) = Some e /\
            e_id e = generateEventId en /\
            e_phase e = currentPhase (self (store pdl)) /\
            e_brief e = lit "Phase: " ++ fromPhase ++ lit " " ++ arrow ++ lit " " ++ toPhase.
Proof.
  intros Hr. apply Reachable_Inv in Hr as (Ht & (hp & Hp & Hpf) & _ & Hmax & _).
  cbv zeta. rewrite call_completion, call_store.
  pose proof (transition_call_built (self (store pdl)) fromPhase toPhase reason en) as Hb.
  set (e := {| e_id := generateEventId en |}) in Hb.
  rewrite !transitionPhase_call.
  split; [|split].
  - unfold emit_call. rewrite (emit_completion _ _ _ _ _ _ _ Hb).
    by rewrite (updateVisualization_transition e _ toPhase).
  - unfold emit_call. rewrite (emit_self_built _ _ _ _ _ _ _ Hb).
    apply dispatch_sets_phase; [reflexivity | apply Ht |].
    right. exists hp. by split.
  - exists e. rewrite (emit_history _ _ _ e Ht Hmax Hb).
    split; [apply last_last_n; lia | by repeat split].
Qed.

Lemma transitionPhase_never_refuses_witness :
  let r := call (constructor offline_options page)
             (fun hs => transitionPhase hs (lit "launch") (lit "planning") [] (at_time 0)) in
  currentPhase (self (store (constructor offline_options page))) = JStr (lit "discovery") /\
  snd r = Normal (lit "evt_1700000000000_k3j9x0q2a") /\
  currentPhase (self (store (fst r))) = JStr (lit "planning").
Proof.
  destruct (transitionPhase_never_refuses (constructor offline_options page)
              (lit "launch") (lit "planning") [] (at_time 0)
              (R_new offline_options page)) as (H1 & H2 & _).
  split; [reflexivity|]. split; [exact H1 | exact H2].
Defined.

(** X12.  [assignAgent] on every object in use returns the id of its event
    and leaves the agent in [activeAgents]: added at the end if it was not
    there, nothing else added or removed; [currentPhase] stays. *)
Theorem assignAgent_adds_agent (pdl : PDLFramework)
    (agentType role task : jsstring) (en : Entropy) :
  Reachable pdl ->
  let r := call pdl (fun hs => assignAgent hs agentType role task en) in
  snd r = Normal (generateEventId en) /\
  activeAgents (self (store (fst r)))
  = add (JStr agentType) (activeAgents (self (store pdl))) /\
  has (JStr agentType) (activeAgents (self (store (fst r)))) = true /\
  currentPhase (self (store (fst r))) = currentPhase (self (store pdl)).
Proof.
  intros Hr. apply Reachable_Inv in Hr as (Ht & _ & Ha & Hmax & _).
  cbv zeta. rewrite call_completion, call_store.
  pose proof (assign_call_built (self (store pdl)) agentType role task en) as Hb.
  set (e := {| e_id := generateEventId en |}) in Hb.
  rewrite !assignAgent_call.
  assert (Hagents : activeAgents (self (fst (emit_call (hooks pdl)
                      (assign_call agentType role task en) (store pdl))))
                    = add (JStr agentType) (activeAgents (self (store pdl)))).
  { rewrite (emit_agent_assigned (hooks pdl) (assign_call agentType role task en)
               (store pdl) Ht Ha eq_refl), Hb.
    reflexivity. }
  split; [|split; [exact Hagents|split]].
  - unfold emit_call. rewrite (emit_completion _ _ _ _ _ _ _ Hb).
    by rewrite (updateVisualization_assignment e _ agentType).
  - rewrite Hagents. apply has_add.
  - unfold emit_call. rewrite (emit_self_built _ _ _ _ _ _ _ Hb).
    rewrite dispatch_keeps_phase; [apply addToHistory_phase | discriminate | apply Ht].
Qed.

Lemma assignAgent_adds_agent_witness :
  let r := call (constructor offline_options page)
             (fun hs => assignAgent hs (lit "architect") (lit "lead") [] (at_time 0)) in
  snd r = Normal (lit "evt_1700000000000_k3j9x0q2a") /\
  activeAgents (self (store (fst r))) = [JStr (lit "architect")].
Proof.
  destruct (assignAgent_adds_agent (constructor offline_options page)
              (lit "architect") (lit "lead") [] (at_time 0)
              (R_new offline_options page)) as (H1 & H2 & _).
  split; [exact H1 | exact H2].
Defined.

Lemma default_agent_hooks :
  bound (lit "agent_assigned") (registerDefaultHooks ∅)
  = [{| fn := agent_assigned_hook; priority := 0; async := false |}].
Proof. reflexivity. Qed.

Lemma sendToServer_console event s :
  console (host (fst (sendToServer event s))) = console (host s) /\
  svg (host (fst (sendToServer event s))) = svg (host s).
Proof.
  unfold sendToServer. rewrite bind_run. simpl.
  destruct (negb _ && _); [by split|]. destruct (offlineMode _); by split.
Qed.

(** X13.  With the handlers the constructor registers, every [assignAgent]
    leaves an error on the console: the class's own handler calls
    [updateAgentVisualization], which the class does not define.  The
    console gains exactly that entry, and after it the activity line when
    the diagram is in the page. *)
Theorem assignAgent_logs_hook_error (s : Store) (agentType role task : jsstring)
    (en : Entropy) :
  console (host (fst (assignAgent (registerDefaultHooks ∅) agentType role task en s)))
  = console (host s)
    ++ (ERROR, [AText (lit "Hook error for agent_assigned:");
                AError (TypeError "this.updateAgentVisualization is not a function")])
    :: (if svg (host s)
        then [(LOG, [AText (lit "Agent " ++ agentType ++ lit " is active")])]
        else []).
Proof.
  rewrite assignAgent_call. unfold emit_call.
  pose proof (assign_call_built (self s) agentType role task en) as Hb.
  set (e := {| e_id := generateEventId en |}) in Hb.
  rewrite (emit_built _ _ _ _ _ _ _ Hb).
  change (c_type (assign_call agentType role task en)) with (lit "agent_assigned").
  rewrite default_agent_hooks.
  set (s1 := dispatch _ _ _ _).
  assert (Hs1 : console (host s1)
                = console (host s)
                  ++ [(ERROR, [AText (lit "Hook error for agent_assigned:");
                               AError (TypeError
                                 "this.updateAgentVisualization is not a function")])]
                /\ svg (host s1) = svg (host s)).
  { subst s1. rewrite addToHistory_run. by split. }
  destruct Hs1 as [Hc Hsvg]. clearbody s1.
  destruct (sendToServer_console e s1) as [Hc2 Hsvg2].
  set (s2 := fst (sendToServer e s1)) in *. clearbody s2.
  unfold updateVisualization. rewrite bind_run.
  change (get s2) with (s2, Normal s2). cbv beta iota.
  rewrite Hsvg2, Hsvg. destruct (svg (host s)); simpl.
  - rewrite Hc2, Hc, <- app_assoc. reflexivity.
  - rewrite Hc2, Hc. reflexivity.
Qed.



(** X15.  A [gate_review] event cannot be drawn: with the diagram in the
    page and no handler bound to the type, [emit] throws (the selector
    [text:contains(...)] is not one [querySelector] accepts), and it throws
    after the event went into the history. *)
Theorem gate_review_throws_after_recording (pdl : PDLFramework) (c : EmitCall)
    (e : Event) :
  Reachable pdl ->
  c_type c = lit "gate_review" ->
  bound (lit "gate_review") (hooks pdl) = [] ->
  svg (host (store pdl)) = true ->
  built (self (store pdl)) c = Normal e ->
  let r := call pdl (fun hs => emit_call hs c) in
  (exists error, snd r = Throw error) /\
  last (eventHistory (self (store (fst r)))) = Some e.
Proof.
  intros Hr Hty Hnone Hsvg Hb. apply Reachable_Inv in Hr as (Ht & _ & _ & Hmax & _).
  cbv zeta. rewrite call_completion, call_store. split.
  - unfold emit_call. unfold built in Hb.
    pose proof (build_event_fields _ _ _ _ _ _ Hb) as (Hte & _ & _).
    rewrite (emit_completion _ _ _ _ _ _ _ Hb). rewrite Hty, Hnone.
    destruct (updateVisualization_gate e
                (fst (sendToServer e
                        (dispatch (lit "gate_review") e [] (fst (addToHistory e (store pdl)))))))
      as [error Herr].
    + by rewrite Hte.
    + destruct (sendToServer_console e
                  (dispatch (lit "gate_review") e [] (fst (addToHistory e (store pdl)))))
        as [_ ->].
      by rewrite addToHistory_run.
    + rewrite Herr. by exists error.
  - rewrite (emit_history _ _ _ e Ht Hmax Hb). apply last_last_n. lia.
Qed.

Lemma gate_review_throws_after_recording_witness :
  let pdl := constructor offline_options drawn_page in
  let r := call pdl (fun hs => emit_call hs (review "G1" "passed" 0)) in
  (exists error, snd r = Throw error) /\
  exists e, last (eventHistory (self (store (fst r)))) = Some e
            /\ e_brief e = lit "Gate G1: passed".
Proof.
  cbv zeta.
  destruct (built (self (store (constructor offline_options drawn_page)))
              (review "G1" "passed" 0)) as [e|error] eqn:Hb; [|discriminate Hb].
  destruct (gate_review_throws_after_recording (constructor offline_options drawn_page)
              (review "G1" "passed" 0) e (R_new offline_options drawn_page)
              eq_refl eq_refl eq_refl Hb) as [H1 H2].
  split; [exact H1|]. exists e. split; [exact H2|].
  injection Hb as <-. reflexivity.
Defined.

(** ** Events from the socket *)

Lemma handleIncomingEvent_built hooks data s :
  fst (handleIncomingEvent hooks data s)
  = fst (updateVisualization data
           (dispatch (e_type data) data (bound (e_type data) hooks)
              (fst (addToHistory data s)))).
Proof.
  unfold handleIncomingEvent.
  rewrite bind_run, (run_normal _ _ tt (addToHistory_normal data s)).
  rewrite bind_run, executeHooks_run. reflexivity.
Qed.

(** X16.  An event that comes in over the socket stays local: it is not
    sent on and not put into [localStorage]; it goes to the end of the
    history as it is, and an incoming [phase_transition] moves
    [currentPhase] like one emitted here.  A frame that does not parse
    leaves the object as it was, and [onMessage] throws. *)
Theorem incoming_event_stays_local (pdl : PDLFramework) (data : Event) :
  Reachable pdl ->
  all_off_the_wire (hooks pdl) ->
  let s' := fst (onMessage (hooks pdl) (Normal data) (store pdl)) in
  sent (host s') = sent (host (store pdl)) /\
  localStorage (host s') = localStorage (host (store pdl)) /\
  eventHistory (self s') = last_n 1000 (eventHistory (self (store pdl)) ++ [data]) /\
  (forall v, e_type data = lit "phase_transition" ->
             getProp (e_data data) (lit "to") = Normal v ->
             currentPhase (self s') = v) /\
  (forall error, onMessage (hooks pdl) (Throw error) (store pdl) = (store pdl, Throw error)).
Proof.
  intros Hr Hoff. apply Reachable_Inv in Hr as (Ht & (hp & Hp & Hpf) & _ & Hmax & _).
  cbv zeta.
  change (onMessage (hooks pdl) (Normal data) (store pdl))
    with (handleIncomingEvent (hooks pdl) data (store pdl)).
  rewrite handleIncomingEvent_self, handleIncomingEvent_built.
  set (sd := dispatch (e_type data) data (bound (e_type data) (hooks pdl))
               (fst (addToHistory data (store pdl)))).
  destruct (updateVisualization_wire data sd) as [-> ->].
  destruct (dispatch_wire (e_type data) data (bound (e_type data) (hooks pdl))
              (fst (addToHistory data (store pdl))) (Hoff (e_type data)))
    as (_ & _ & H3 & H4).
  fold sd in H3, H4. rewrite H3, H4, addToHistory_run.
  split; [reflexivity|]. split; [reflexivity|]. split; [|split].
  - subst sd. rewrite dispatch_history by apply Ht.
    by apply addToHistory_history.
  - intros v Hty Hto. subst sd. rewrite Hty.
    apply dispatch_sets_phase; [exact Hto | apply Ht |].
    right. exists hp. by split.
  - reflexivity.
Qed.

Lemma incoming_event_stays_local_witness :
  let pdl := with_ws (constructor online_options page) OPEN in
  let s' := fst (onMessage (hooks pdl) (Normal build_done) (store pdl)) in
  sent (host s') = [] /\ localStorage (host s') = [] /\
  eventHistory (self s') = [build_done].
Proof.
  cbv zeta.
  destruct (incoming_event_stays_local (with_ws (constructor online_options page) OPEN)
              build_done
              (R_readyState _ OPEN (R_new online_options page) ltac:(discriminate))
              (default_hooks_off_the_wire online_options page)) as (H1 & H2 & H3 & _).
  split; [exact H1|]. split; [exact H2 | exact H3].
Defined.

(** ** Online and offline *)

Lemma emit_connection hooks c s :
  all_off_the_wire hooks ->
  offlineMode (self (fst (emit_call hooks c s))) = offlineMode (self s) /\
  ws (self (fst (emit_call hooks c s))) = ws (self s).
Proof.
  intros Hoff. unfold emit_call.
  destruct (build_event (self s) (c_type c) (c_data c) (c_options c) (c_entropy c))
    as [event|error] eqn:Hb.
  - rewrite (emit_self_built _ _ _ _ _ _ _ Hb).
    destruct (dispatch_wire (c_type c) event (bound (c_type c) hooks)
                (fst (addToHistory event s)) (Hoff (c_type c))) as (H1 & H2 & _).
    rewrite H1, H2, addToHistory_run. by split.
  - by rewrite (emit_not_built _ _ _ _ _ _ _ Hb).
Qed.

(** X17.  Not in offline mode, a run of [emit] calls writes nothing to
    [localStorage]; with the socket open each event built is sent once, in
    order, and with the socket in any other state (or none) nothing is sent:
    those events are kept nowhere but in the history. *)
Theorem online_events_sent_or_dropped (hooks : gmap jsstring (list Hook))
    (calls : list EmitCall) (s : Store) :
  all_off_the_wire hooks ->
  offlineMode (self s) = false ->
  localStorage (host (fst (emits hooks calls s))) = localStorage (host s) /\
  sent (host (fst (emits hooks calls s)))
  = sent (host s)
    ++ (if is_open (ws (self s)) then map serialize (snd (emits hooks calls s)) else []).
Proof.
  intros Hoff. revert s. induction calls as [|c calls IH]; intros s Hmode.
  - simpl. split; [reflexivity|]. destruct (is_open _); by rewrite app_nil_r.
  - simpl.
    destruct (emit_connection hooks c s Hoff) as [Hm Hw].
    specialize (IH (fst (emit_call hooks c s))). rewrite Hm, Hw in IH.
    specialize (IH Hmode).
    destruct (emits hooks calls (fst (emit_call hooks c s))) as [s2 evs]. simpl in *.
    destruct IH as [IH1 IH2]. rewrite IH1, IH2.
    unfold emit_call, built in *.
    destruct (build_event (self s) (c_type c) (c_data c) (c_options c) (c_entropy c))
      as [event|error] eqn:Hb.
    + destruct (emit_wire _ _ _ _ _ _ _ Hoff Hb) as (_ & Hls & Hsent).
      rewrite Hmode in Hls, Hsent. simpl in Hls, Hsent. rewrite Hls, Hsent.
      split; [reflexivity|].
      destruct (is_open (ws (self s))); simpl; by rewrite <- ?app_assoc.
    + by rewrite (emit_not_built _ _ _ _ _ _ _ Hb).
Qed.

Lemma online_events_sent_or_dropped_witness :
  let pdl := with_ws (constructor online_options page) OPEN in
  sent (host (fst (emits (hooks pdl) [note 0; note 1] (store pdl))))
  = map serialize (snd (emits (hooks pdl) [note 0; note 1] (store pdl))) /\
  localStorage (host (fst (emits (hooks pdl) [note 0; note 1] (store pdl)))) = [].
Proof.
  cbv zeta.
  destruct (online_events_sent_or_dropped
              (hooks (with_ws (constructor online_options page) OPEN))
              [note 0; note 1]
              (store (with_ws (constructor online_options page) OPEN))
              (default_hooks_off_the_wire online_options page) eq_refl) as [H1 H2].
  split; [exact H2 | exact H1].
Defined.

Lemma getItem_setItem key value ls :
  getItem key (setItem key value ls) = Some value.
Proof.
  induction ls as [|[k v] ls IH]; simpl.
  - by rewrite (proj2 (jsstring_eqb_true key key)).
  - destruct (jsstring_eqb k key) eqn:Hk; simpl; rewrite Hk; [reflexivity | exact IH].
Qed.

Lemma getItem_setItem_other key key' value ls :
  key' <> key -> getItem key' (setItem key value ls) = getItem key' ls.
Proof.
  intros Hne. induction ls as [|[k v] ls IH]; simpl.
  - by rewrite (proj2 (jsstring_eqb_false key key')).
  - destruct (jsstring_eqb k key) eqn:Hk; simpl.
    + apply jsstring_eqb_true in Hk as ->.
      by rewrite (proj2 (jsstring_eqb_false key key')).
    + destruct (jsstring_eqb k key'); [reflexivity | exact IH].
Qed.

(** X18.  In offline mode an event just emitted can be read back:
    [localStorage.getItem] at the key [pdl_event_<id>] gives its JSON text,
    and every other key reads as before. *)
Theorem offline_event_can_be_read_back (hooks : gmap jsstring (list Hook))
    (c : EmitCall) (s : Store) (e : Event) :
  all_off_the_wire hooks ->
  offlineMode (self s) = true ->
  built (self s) c = Normal e ->
  let ls' := localStorage (host (fst (emit_call hooks c s))) in
  getItem (lit "pdl_event_" ++ e_id e) ls' = Some (serialize e) /\
  (forall key, key <> lit "pdl_event_" ++ e_id e ->
               getItem key ls' = getItem key (localStorage (host s))).
Proof.
  intros Hoff Hmode Hb. cbv zeta. unfold emit_call, built in *.
  destruct (emit_wire _ _ _ _ _ _ _ Hoff Hb) as (_ & Hls & _).
  rewrite Hmode in Hls. rewrite Hls. unfold stored. cbn [fst snd]. split.
  - apply getItem_setItem.
  - intros key Hne. by apply getItem_setItem_other.
Qed.

Lemma offline_event_can_be_read_back_witness :
  let pdl := constructor offline_options page in
  exists e, built (self (store pdl)) (note 0) = Normal e /\
            getItem (lit "pdl_event_evt_1700000000000_k3j9x0q2a")
              (localStorage (host (fst (emit_call (hooks pdl) (note 0) (store pdl)))))
            = Some (serialize e).
Proof.
  cbv zeta.
  destruct (built (self (store (constructor offline_options page))) (note 0))
    as [e|error] eqn:Hb; [|discriminate Hb].
  exists e. split; [reflexivity|].
  destruct (offline_event_can_be_read_back (hooks (constructor offline_options page))
              (note 0) (store (constructor offline_options page)) e
              (default_hooks_off_the_wire offline_options page) eq_refl Hb) as [H1 _].
  injection Hb as <-. exact H1.
Defined.

(** ** Event ids *)

Lemma digits_inj u : forall u', digits u = digits u' -> u = u'.
Proof.
  induction u; intros u' H; destruct u'; simpl in H; try discriminate;
    try reflexivity; injection H as H; f_equal; by apply IHu.
Qed.

Lemma digits_range u : Forall (fun c => (48 <= c <= 57)%N) (digits u).
Proof. induction u; simpl; constructor; try lia; assumption. Qed.

Lemma decimal_inj a b : decimal a = decimal b -> a = b.
Proof.
  pose proof digits_range as Hr.
  destruct a as [|p|p], b as [|q|q]; simpl; intros H; try reflexivity.
  - change [48%N] with (digits (Decimal.D0 Decimal.Nil)) in H.
    apply digits_inj in H. symmetry in H.
    by apply DecimalPos.Unsigned.to_uint_nonzero in H.
  - discriminate.
  - change [48%N] with (digits (Decimal.D0 Decimal.Nil)) in H.
    apply digits_inj in H. by apply DecimalPos.Unsigned.to_uint_nonzero in H.
  - apply digits_inj, DecimalPos.Unsigned.to_uint_inj in H. by subst.
  - specialize (Hr (Pos.to_uint p)). rewrite H in Hr.
    apply Forall_cons in Hr as [Hr _]. lia.
  - discriminate.
  - specialize (Hr (Pos.to_uint q)). rewrite <- H in Hr.
    apply Forall_cons in Hr as [Hr _]. lia.
  - injection H as H. apply digits_inj, DecimalPos.Unsigned.to_uint_inj in H. by subst.
Qed.

Lemma decimal_no_underscore a : ~ In underscore (decimal a).
Proof.
  assert (Hd : forall u, ~ In underscore (digits u)).
  { intros u Hin. pose proof (digits_range u) as Hr.
    rewrite List.Forall_forall in Hr. apply Hr in Hin. unfold underscore in Hin. lia. }
  destruct a; simpl.
  - intros [H|[]]. discriminate.
  - apply Hd.
  - intros [H|H]; [discriminate | by apply Hd in H].
Qed.

Lemma split_at_first {A} (x : A) (l1 l2 r1 r2 : list A) :
  ~ In x l1 -> ~ In x l2 -> l1 ++ x :: r1 = l2 ++ x :: r2 -> l1 = l2 /\ r1 = r2.
Proof.
  revert l2. induction l1 as [|a l1 IH]; intros [|b l2] H1 H2 H; simpl in *.
  - injection H as ->. by split.
  - injection H as -> _. tauto.
  - injection H as -> _. tauto.
  - injection H as -> H. destruct (IH l2) as [-> ->]; tauto.
Qed.

(** X19.  Two event ids are the same only if the clock and the random
    suffix were: [generateEventId] loses nothing of either (the clock is
    printed in full, and the separator cannot be mistaken for a digit).  So
    two events emitted in the same millisecond collide exactly when
    [Math.random] gave the same nine characters. *)
Theorem generateEventId_injective (en en' : Entropy) :
  generateEventId en = generateEventId en'
  <-> now_ms en = now_ms en' /\ random en = random en'.
Proof.
  split.
  - unfold generateEventId. intros H. apply app_inv_head in H.
    change (lit "_") with [underscore] in H. simpl in H.
    apply split_at_first in H as [H1 H2]; try apply decimal_no_underscore.
    split; [by apply decimal_inj | exact H2].
  - unfold generateEventId. by intros [-> ->].
Qed.

(** ** Fields that never change *)

Lemma emit_fields (P : Instance -> Prop) hooks eventType data options en s :
  (forall i h, P i -> P (set_eventHistory h i)) ->
  (forall i v, P i -> P (set_currentPhase v i)) ->
  (forall i a, P i -> P (set_activeAgents a i)) ->
  all_tame hooks -> P (self s) ->
  P (self (fst (emit hooks eventType data options en s))).
Proof.
  intros Hh Hp Ha Htame HP.
  destruct (build_event (self s) eventType data options en) as [event|error] eqn:Hb.
  - rewrite (emit_self_built _ _ _ _ _ _ _ Hb).
    apply dispatch_preserves; [exact Hp | intros; by apply Ha | apply Htame |].
    rewrite addToHistory_run. by apply Hh.
  - by rewrite (emit_not_built _ _ _ _ _ _ _ Hb).
Qed.

Lemma Reachable_fields (P : Instance -> Prop) :
  (forall options h, P (self (store (constructor options h)))) ->
  (forall i h, P i -> P (set_eventHistory h i)) ->
  (forall i v, P i -> P (set_currentPhase v i)) ->
  (forall i a, P i -> P (set_activeAgents a i)) ->
  (forall i w, P i -> P (set_ws w i)) ->
  forall pdl, Reachable pdl -> P (self (store pdl)).
Proof.
  intros Hnew Hh Hp Ha Hw pdl Hr.
  induction Hr as [options h | pdl eventType hookFn options Hr IH Hext
                  | pdl eventType data options en Hr IH | pdl parsed Hr IH
                  | pdl en Hr IH | pdl Hr IH | pdl error Hr IH | pdl Hr IH
                  | pdl w Hr IH _ | pdl h Hr IH];
    try (pose proof (Reachable_Inv _ Hr) as (Htame & _)).
  - apply Hnew.
  - exact IH.
  - rewrite call_store. by apply emit_fields.
  - rewrite call_store. unfold onMessage. rewrite bind_run. unfold lift.
    destruct parsed as [data|error]; [|exact IH].
    rewrite handleIncomingEvent_self.
    apply dispatch_preserves; [exact Hp | intros; by apply Ha | apply Htame |].
    rewrite addToHistory_run. by apply Hh.
  - rewrite call_store, onConnectionOpen_self. by apply emit_fields.
  - exact IH.
  - exact IH.
  - rewrite call_store. unfold initWebSocket, try_catch. rewrite bind_run. simpl.
    destruct (webSocket (host (store pdl))); [by apply Hw | exact IH].
  - by apply Hw.
  - exact IH.
Qed.

(** X20.  The configuration of an object in use never changes: the
    reconnect delay is 5000 ms and the history limit 1000, and an object in
    offline mode has no socket address.  So every close of the socket sets
    one timer of 5000 ms for the next attempt (no back-off, no limit on the
    attempts) and leaves the fields alone. *)
Theorem reconnect_after_five_seconds (pdl : PDLFramework) :
  Reachable pdl ->
  reconnectInterval (self (store pdl)) = 5000 /\
  maxEventHistory (self (store pdl)) = 1000 /\
  (offlineMode (self (store pdl)) = true -> wsUrl (self (store pdl)) = None) /\
  timers (host (store (fst (call pdl (fun _ => onConnectionClose)))))
  = timers (host (store pdl)) ++ [5000] /\
  self (store (fst (call pdl (fun _ => onConnectionClose)))) = self (store pdl).
Proof.
  intros Hr.
  assert (H : reconnectInterval (self (store pdl)) = 5000 /\
              maxEventHistory (self (store pdl)) = 1000 /\
              (offlineMode (self (store pdl)) = true -> wsUrl (self (store pdl)) = None)).
  { apply (Reachable_fields
             (fun i => reconnectInterval i = 5000 /\ maxEventHistory i = 1000 /\
                       (offlineMode i = true -> wsUrl i = None))); try (by intros); [].
    intros options h. unfold constructor. cbv zeta.
    set (offline := match opt_offline options with Some false => false | _ => _ end).
    assert (Hoff : offline = true -> or_null (opt_wsUrl options) = None).
    { subst offline. destruct (opt_offline options) as [[]|];
        destruct (or_null (opt_wsUrl options)); congruence. }
    destruct offline; simpl; [by repeat split; auto|].
    unfold initWebSocket, try_catch. rewrite bind_run. simpl.
    destruct (webSocket h); simpl; by repeat split. }
  destruct H as (H1 & H2 & H3).
  split; [exact H1|]. split; [exact H2|]. split; [exact H3|]. split.
  - rewrite call_store. unfold onConnectionClose. rewrite !bind_run. simpl.
    by rewrite H1.
  - rewrite call_store. unfold onConnectionClose. rewrite !bind_run. reflexivity.
Qed.

Lemma reconnect_after_five_seconds_witness :
  let pdl := fst (call (constructor online_options page)
                    (fun hs => emit_call hs (move_to "planning" 0))) in
  timers (host (store (fst (call (fst (call pdl (fun _ => onConnectionClose)))
                             (fun _ => onConnectionClose)))))
  = [5000; 5000].
Proof.
  cbv zeta.
  pose (pdl := fst (call (constructor online_options page)
                      (fun hs => emit_call hs (move_to "planning" 0)))).
  assert (Hr : Reachable pdl) by apply R_emit, R_new.
  destruct (reconnect_after_five_seconds _ (R_onConnectionClose _ Hr)) as (_ & _ & _ & H & _).
  exact H.
Defined.

(** ** The status snapshot *)

Lemma last_n_last_n {A} (n m : nat) (l : list A) :
  (n <= m)%nat -> last_n n (last_n m l) = last_n n l.
Proof.
  intros Hnm. unfold last_n. rewrite length_drop, drop_drop. f_equal. lia.
Qed.

(** X21.  After any run of [emit] calls on an object in use,
    [getCurrentState().recentEvents] is the last ten of the old history
    followed by the events built, oldest first: all of them if there are
    fewer than ten, never more than ten. *)
Theorem recent_events_are_the_last_ten (pdl : PDLFramework) (calls : list EmitCall) :
  Reachable pdl ->
  let s' := fst (emits (hooks pdl) calls (store pdl)) in
  let evs := snd (emits (hooks pdl) calls (store pdl)) in
  cs_recentEvents (getCurrentState (self s'))
  = last_n 10 (eventHistory (self (store pdl)) ++ evs) /\
  length (cs_recentEvents (getCurrentState (self s')))
  = Nat.min 10 (length (eventHistory (self (store pdl))) + length evs) /\
  cs_phase (getCurrentState (self s')) = currentPhase (self s') /\
  (cs_connected (getCurrentState (self s')) = Some true <-> ws (self s') = Some OPEN).
Proof.
  intros Hr. apply Reachable_Inv in Hr as (Ht & _ & _ & Hs). cbv zeta.
  destruct (emits_history (hooks pdl) calls (store pdl) Ht Hs) as [_ Hh].
  assert (H10 : cs_recentEvents
                  (getCurrentState (self (fst (emits (hooks pdl) calls (store pdl)))))
                = last_n 10 (eventHistory (self (store pdl))
                             ++ snd (emits (hooks pdl) calls (store pdl)))).
  { unfold getCurrentState. cbn [cs_recentEvents].
    rewrite (slice_last 10) by lia. rewrite Hh. apply last_n_last_n. lia. }
  split; [exact H10|]. split; [|split; [reflexivity|]].
  - rewrite H10, last_n_length, length_app. reflexivity.
  - unfold getCurrentState. cbn [cs_connected].
    destruct (ws (self (fst (emits (hooks pdl) calls (store pdl))))) as [[]|];
      simpl; split; congruence.
Qed.

Lemma recent_events_are_the_last_ten_witness :
  let pdl := constructor online_options page in
  length (cs_recentEvents
            (getCurrentState
               (self (fst (emits (hooks pdl) (map note (seqZ 0 12)) (store pdl))))))
  = 10%nat.
Proof.
  cbv zeta.
  destruct (recent_events_are_the_last_ten (constructor online_options page)
              (map note (seqZ 0 12)) (R_new online_options page)) as (_ & H & _).
  rewrite H. vm_compute. reflexivity.
Defined.

(** ** Registration *)

(** X22.  [registerHook] touches one event type: the handlers bound to the
    type are the old ones and the new entry (in some order, see the order of
    dispatch), with the priority and the [async] flag defaulting to 0 and
    [false]; for every other type the handlers, and so what [executeHooks]
    does, are as before. *)
Theorem registerHook_touches_one_type (hooks : gmap jsstring (list Hook))
    (eventType : jsstring) (hookFn : Event -> Action HookValue) (options : HookOptions) :
  Permutation (bound eventType (registerHook eventType hookFn options hooks))
    (bound eventType hooks
     ++ [{| fn := hookFn; priority := default 0 (h_priority options);
            async := default false (h_async options) |}]) /\
  (forall other, other <> eventType ->
     bound other (registerHook eventType hookFn options hooks) = bound other hooks) /\
  (forall other event s, other <> eventType ->
     executeHooks (registerHook eventType hookFn options hooks) other event s
     = executeHooks hooks other event s).
Proof.
  pose (r := {| r_type := eventType; r_fn := hookFn; r_options := options |}).
  change (registerHook eventType hookFn options hooks) with (register hooks r).
  assert (Hother : forall other, other <> eventType ->
                     bound other (register hooks r) = bound other hooks).
  { intros other Hne. rewrite bound_register. simpl.
    by rewrite (proj2 (jsstring_eqb_false eventType other)). }
  split; [|split; [exact Hother|]].
  - rewrite bound_register. simpl.
    rewrite (proj2 (jsstring_eqb_true eventType eventType)) by reflexivity.
    apply sort_Permutation.
  - intros other event s Hne. rewrite !executeHooks_run. by rewrite Hother.
Qed.

(** ** The logging helpers *)

Lemma discovery_call_built i finding source confidence en :
  built i (discovery_call finding source confidence en)
  = Normal {| e_id := generateEventId en; e_type := lit "discovery";
              e_timestamp := iso en; e_phase := currentPhase i;
              e_data := JObj 0 [(lit "finding", JStr finding); (lit "source", JStr source);
                                (lit "confidence", JStr confidence)];
              e_brief := lit "Discovery: " ++ substring0 40 finding ++ lit "...";
              e_references := match source with
                              | [] => []
                              | _ => [source]
                              end;
              e_agent := lit "system" |}.
Proof. reflexivity. Qed.

Lemma research_call_built i topic conclusion references en :
  built i (research_call topic conclusion references en)
  = Normal {| e_id := generateEventId en; e_type := lit "research_complete";
              e_timestamp := iso en; e_phase := currentPhase i;
              e_data := JObj 0 [(lit "topic", JStr topic); (lit "conclusion", JStr conclusion);
                                (lit "references", JArr 0 (map JStr references))];
              e_brief := lit "Research: " ++ topic ++ lit " - "
                         ++ substring0 30 conclusion ++ lit "...";
              e_references := references;
              e_agent := lit "system" |}.
Proof. reflexivity. Qed.

(** X23.  [logDiscovery] on an object in use returns the id of its event,
    and the event at the end of the history has a brief of 14 characters
    plus at most 40 of the finding: never more than 54.  Its references are
    the source alone, or none for an empty source; phase and agents stay. *)
Theorem logDiscovery_brief_within_54 (pdl : PDLFramework)
    (finding source confidence : jsstring) (en : Entropy) :
  Reachable pdl ->
  let r := call pdl (fun hs => logDiscovery hs finding source confidence en) in
  snd r = Normal (generateEventId en) /\
  currentPhase (self (store (fst r))) = currentPhase (self (store pdl)) /\
  exists e, last (eventHistory (self (store (fst r)))) = Some e /\
            e_brief e = lit "Discovery: " ++ substring0 40 finding ++ lit "..." /\
            length (e_brief e) = (14 + Nat.min 40 (length finding))%nat /\
            (length (e_brief e) <= 54)%nat /\
            e_references e = match source with
                             | [] => []
                             | _ => [source]
                             end.
Proof.
  intros Hr. apply Reachable_Inv in Hr as (Ht & _ & _ & Hmax & _).
  cbv zeta. rewrite call_completion, call_store. unfold logDiscovery.
  pose proof (discovery_call_built (self (store pdl)) finding source confidence en) as Hb.
  set (e := {| e_id := generateEventId en |}) in Hb.
  assert (Hlen : length (e_brief e) = (14 + Nat.min 40 (length finding))%nat).
  { subst e. cbn [e_brief]. unfold substring0.
    rewrite !length_app, length_take. simpl. lia. }
  split; [|split].
  - unfold emit_call. rewrite (emit_completion _ _ _ _ _ _ _ Hb).
    by rewrite updateVisualization_other.
  - unfold emit_call. rewrite (emit_self_built _ _ _ _ _ _ _ Hb).
    rewrite dispatch_keeps_phase; [apply addToHistory_phase | discriminate | apply Ht].
  - exists e. rewrite (emit_history _ _ _ e Ht Hmax Hb).
    split; [apply last_last_n; lia|]. split; [reflexivity|].
    split; [exact Hlen|]. split; [lia | reflexivity].
Qed.

Lemma logDiscovery_brief_within_54_witness :
  let r := call (constructor offline_options page)
             (fun hs => logDiscovery hs
                          (lit "the scheduler starves low-priority jobs when the queue is full")
                          (lit "load test") (lit "medium") (at_time 0)) in
  snd r = Normal (lit "evt_1700000000000_k3j9x0q2a") /\
  exists e, last (eventHistory (self (store (fst r)))) = Some e
            /\ length (e_brief e) = 54%nat.
Proof.
  destruct (logDiscovery_brief_within_54 (constructor offline_options page)
              (lit "the scheduler starves low-priority jobs when the queue is full")
              (lit "load test") (lit "medium") (at_time 0)
              (R_new offline_options page)) as (H1 & _ & e & H2 & _ & H3 & _).
  split; [exact H1|]. exists e. split; [exact H2 | exact H3].
Defined.

(** X24.  [logResearch] on an object in use returns the id of its event;
    the brief takes the topic whole and at most 30 characters of the
    conclusion, so it is 16 characters longer than these two together and
    is over 60 as soon as the topic is longer than 44. *)
Theorem logResearch_brief_grows_with_topic (pdl : PDLFramework)
    (topic conclusion : jsstring) (references : list jsstring) (en : Entropy) :
  Reachable pdl ->
  let r := call pdl (fun hs => logResearch hs topic conclusion references en) in
  snd r = Normal (generateEventId en) /\
  exists e, last (eventHistory (self (store (fst r)))) = Some e /\
            e_references e = references /\
            length (e_brief e)
            = (16 + length topic + Nat.min 30 (length conclusion))%nat /\
            ((44 < length topic)%nat -> (60 < length (e_brief e))%nat).
Proof.
  intros Hr. apply Reachable_Inv in Hr as (Ht & _ & _ & Hmax & _).
  cbv zeta. rewrite call_completion, call_store. unfold logResearch.
  pose proof (research_call_built (self (store pdl)) topic conclusion references en) as Hb.
  set (e := {| e_id := generateEventId en |}) in Hb.
  assert (Hlen : length (e_brief e)
                 = (16 + length topic + Nat.min 30 (length conclusion))%nat).
  { subst e. cbn [e_brief]. unfold substring0.
    rewrite !length_app, length_take. simpl. lia. }
  split.
  - unfold emit_call. rewrite (emit_completion _ _ _ _ _ _ _ Hb).
    by rewrite updateVisualization_other.
  - exists e. rewrite (emit_history _ _ _ e Ht Hmax Hb).
    split; [apply last_last_n; lia|]. split; [reflexivity|].
    split; [exact Hlen | lia].
Qed.

Lemma logResearch_brief_grows_with_topic_witness :
  let r := call (constructor offline_options page)
             (fun hs => logResearch hs
                          (lit "how the dashboard orders events that arrive out of sequence")
                          (lit "buffer and sort") [] (at_time 0)) in
  exists e, last (eventHistory (self (store (fst r)))) = Some e
            /\ length (e_brief e) = 90%nat.
Proof.
  destruct (logResearch_brief_grows_with_topic (constructor offline_options page)
              (lit "how the dashboard orders events that arrive out of sequence")
              (lit "buffer and sort") [] (at_time 0)
              (R_new offline_options page)) as (_ & e & H2 & _ & H3 & _).
  exists e. split; [exact H2 | exact H3].
Defined.

(** ** Queries *)

Lemma filter_sublist {A} (f : A -> bool) (l : list A) : sublist (List.filter f l) l.
Proof.
  induction l as [|x l IH]; simpl; [constructor|].
  destruct (f x); by constructor.
Qed.

(** X25.  [getEventHistory(filter)] returns the events of the history that
    pass every criterion that is set, in the order of the history, and
    nothing else; a criterion that is absent or empty lets every event
    pass, so the empty filter returns the history itself. *)
Theorem getEventHistory_selects (filter : Filter) (i : Instance) :
  (forall e, In e (getEventHistory filter i) <-> In e (eventHistory i) /\ passes filter e) /\
  sublist (getEventHistory filter i) (eventHistory i) /\
  (truthy (f_phase filter) = false -> or_null (f_agent filter) = None ->
   or_null (f_type filter) = None -> getEventHistory filter i = eventHistory i).
Proof.
  unfold getEventHistory, passes. split; [|split].
  - intros e.
    destruct (truthy (f_phase filter)), (or_null (f_agent filter)) as [a|],
      (or_null (f_type filter)) as [t|];
      rewrite ?List.filter_In, ?jsstring_eqb_true;
      (split; [intros H; repeat split; try tauto; try (intros ? [= <-]; tauto);
               try discriminate
              | intros (H & H1 & H2 & H3); repeat split; auto]).
  - destruct (truthy (f_phase filter)), (or_null (f_agent filter)) as [a|],
      (or_null (f_type filter)) as [t|];
      repeat (etrans; [apply filter_sublist|]); reflexivity.
  - by intros -> -> ->.
Qed.

End ApiFacts.
